(** * igir: the reconciliation pipeline

    A shallow embedding of the file indexer, the DAT merger/splitter, the
    fixdat creator and the path sanitizer, with the properties stated about
    them.

    JavaScript values are modelled as follows.
    - a [string] is a Rocq [string]; the empty string is the only falsy one;
    - a [Map<string, V>] whose key order is not observed is a
      [gmap string V]; a [Set<string>] is a [gset string];
    - a [Map<Parent, V>] is keyed by object identity and only iterated, so it
      is the list of its entries in insertion order;
    - arrays are lists; [Array.prototype.sort] is stable, so it is the stable
      insertion sort for the comparator it is given;
    - numbers returned by comparators are integers ([Z]). *)

From Stdlib Require Import ZArith Ascii String List Sorted Permutation Lia.
From Stdlib Require Import DecimalString.
From stdpp Require Import base list gmap strings.

Local Open Scope string_scope.
Local Open Scope Z_scope.

(** ** Data model (types/dats) *)

Module ROM.
(** A ROM of a game: [getBios] tells whether the ROM is marked as a BIOS ROM
    (the code only tests [rom.getBios()] for truth), [getMerge] is the
    optional name under which the same bytes appear in the parent or BIOS
    set. *)
Record t := mk {
  getName : string;
  getSize : Z;
  getCrc32 : string;
  getMerge : option string;
  getBios : bool
}.

(** [new ROM({...rom, name})] *)
Definition withName (n : string) (r : t) : t :=
  mk n (getSize r) (getCrc32 r) (getMerge r) (getBios r).
End ROM.

(** [ROM.hashCode()] is declared in types/dats/rom.ts.  Every module below
    uses it only through its result, so it is an interface with one method. *)
Class RomHasher := hashCode : ROM.t → string.

Module Game.
(** [getParent] is the [cloneOf] attribute and [getBios] the [romOf]
    attribute, both empty when absent.  [isMachine] tells a [Machine] from a
    plain [Game]; only machines carry device references. *)
Record t := mk {
  getName : string;
  getParent : string;
  getBios : string;
  getDeviceRefs : list string;
  getRoms : list ROM.t;
  isMachine : bool
}.

(** [game.withProps({rom})] keeps the class and every other property. *)
Definition withRoms (roms : list ROM.t) (g : t) : t :=
  mk (getName g) (getParent g) (getBios g) (getDeviceRefs g) roms (isMachine g).

(** Modelled from the spec: [Game.isClone] and [Game.isParent] are declared
    in types/dats/game.ts.  "A game whose parent is empty is a parent or
    standalone", so a clone is a game that names a parent. *)
Definition isClone (g : t) : bool := negb (String.eqb (getParent g) EmptyString).
Definition isParent (g : t) : bool := negb (isClone g).

(** Two games with the same identity differ at most in their ROMs. *)
Definition sameIdentity (a b : t) : Prop :=
  getName a = getName b
  ∧ getParent a = getParent b
  ∧ getBios a = getBios b
  ∧ getDeviceRefs a = getDeviceRefs b
  ∧ isMachine a = isMachine b.
End Game.

Module Header.
Record t := mk {
  getName : string;
  getDescription : string;
  getVersion : string;
  getDate : string;
  getAuthor : string;
  getUrl : string;
  getComment : string;
  romNamesContainDirectories : bool
}.
End Header.

Module Parent.
(** A parent class: the parent game (when there is one) followed by its
    clones. *)
Record t := mk {
  getName : string;
  getGames : list Game.t
}.
End Parent.

Module DAT.
Record t := mk {
  getHeader : Header.t;
  getGames : list Game.t
}.
End DAT.

Module ROMWithFiles.
Record t := mk {
  getRom : ROM.t;
  getInputFile : string;
  getOutputFile : string
}.
End ROMWithFiles.

Module ReleaseCandidate.
Record t := mk {
  getGame : Game.t;
  getRomsWithFiles : list ROMWithFiles.t
}.
End ReleaseCandidate.

(** ** JavaScript helpers *)

Module JS.
(** A string is the sequence of its UTF-8 bytes.  [String.prototype.trim]
    removes white space and line terminators from both ends: the characters
    tab, line feed, vertical tab, form feed, carriage return and space, which
    take one byte, U+00A0, which takes two, and U+1680, U+2000 to U+200A,
    U+2028, U+2029, U+202F, U+205F, U+3000 and U+FEFF, which take three. *)
Definition isSpace (c : ascii) : bool :=
  let n := nat_of_ascii c in
  ((n =? 32) || ((9 <=? n) && (n <=? 13)))%nat.

Definition isSpaceOfTwo (b1 b2 : nat) : bool :=
  ((b1 =? 194) && (b2 =? 160))%nat.

Definition isSpaceOfThree (b1 b2 b3 : nat) : bool :=
  (((b1 =? 225) && (b2 =? 154) && (b3 =? 128))
   || ((b1 =? 226) && (b2 =? 128)
       && (((128 <=? b3) && (b3 <=? 138)) || (b3 =? 168) || (b3 =? 169)
           || (b3 =? 175)))
   || ((b1 =? 226) && (b2 =? 129) && (b3 =? 159))
   || ((b1 =? 227) && (b2 =? 128) && (b3 =? 128))
   || ((b1 =? 239) && (b2 =? 187) && (b3 =? 191)))%nat.

Fixpoint trimStart (s : string) : string :=
  match s with
  | EmptyString => EmptyString
  | String c1 s1 =>
      if isSpace c1 then trimStart s1
      else
        match s1 with
        | EmptyString => s
        | String c2 s2 =>
            if isSpaceOfTwo (nat_of_ascii c1) (nat_of_ascii c2) then trimStart s2
            else
              match s2 with
              | EmptyString => s
              | String c3 s3 =>
                  if isSpaceOfThree (nat_of_ascii c1) (nat_of_ascii c2)
                       (nat_of_ascii c3)
                  then trimStart s3
                  else s
              end
        end
  end.

(** What is left of a string that is white space throughout is nothing;
    the end of any other string is the end of what follows its first byte. *)
Fixpoint trimEnd (s : string) : string :=
  match s with
  | EmptyString => EmptyString
  | String c s' =>
      match trimStart s with
      | EmptyString => EmptyString
      | _ => String c (trimEnd s')
      end
  end.

Definition trim (s : string) : string := trimEnd (trimStart s).

(** [array.join(sep)] *)
Fixpoint join (sep : string) (l : list string) : string :=
  match l with
  | [] => EmptyString
  | [x] => x
  | x :: l' => x ++ sep ++ join sep l'
  end.
End JS.

(** ** Fixdat creator (modules/fixdatCreator) *)

(** What [create] reads from its options, the clock and the constants. *)
Module FixdatOptions.
Record t := mk {
  shouldFixdat : bool;
  fixdatDir : string;
  getInputPaths : list string;
  now : string;              (* moment().format('YYYYMMDD-HHmmss') *)
  HOMEPAGE : string;
  COMMAND_NAME : string;
  COMMAND_VERSION : string;
  AUTHOR : string;
  datToString : DAT.t → string
}.
End FixdatOptions.

Module FixdatCreator.
Section create.
Context `{RomHasher}.

Definition candidateRoms
    (parentsToCandidates : list (Parent.t * list ReleaseCandidate.t)) : list ROM.t :=
  map ROMWithFiles.getRom
    (flat_map ReleaseCandidate.getRomsWithFiles
       (concat (map snd parentsToCandidates))).

(** The index of every ROM that has a release candidate. *)
Definition writtenRomHashCodes
    (parentsToCandidates : list (Parent.t * list ReleaseCandidate.t)) : gset string :=
  list_to_set (map hashCode (candidateRoms parentsToCandidates)).

(** The games that have at least one missing ROM. *)
Definition gamesWithMissingRoms (originalDat : DAT.t)
    (parentsToCandidates : list (Parent.t * list ReleaseCandidate.t)) : list Game.t :=
  let written := writtenRomHashCodes parentsToCandidates in
  List.filter
    (λ game, negb (forallb (λ rom, bool_decide (hashCode rom ∈ written))
                           (Game.getRoms game)))
    (DAT.getGames originalDat).

Definition fixdatHeader (opts : FixdatOptions.t) (originalDat : DAT.t) : Header.t :=
  let date := FixdatOptions.now opts in
  Header.mk
    (JS.trim (Header.getName (DAT.getHeader originalDat) ++ " fixdat"))
    (JS.trim (Header.getDescription (DAT.getHeader originalDat) ++ " fixdat"))
    date
    date
    EmptyString
    (FixdatOptions.HOMEPAGE opts)
    (JS.join (String "010" EmptyString)
       [ "fixdat generated by " ++ FixdatOptions.COMMAND_NAME opts
           ++ " v" ++ FixdatOptions.COMMAND_VERSION opts;
         "Original DAT: " ++ FixdatOptions.datToString opts originalDat;
         "Input paths: "
           ++ JS.join ", "
                (map (λ val, "'" ++ val ++ "'") (FixdatOptions.getInputPaths opts));
         "Output path: " ++ FixdatOptions.fixdatDir opts ])
    false.

(** [create] returns [None] for [undefined] and otherwise the fixdat that
    it serialises and writes into the fixdat directory. *)
Definition create (opts : FixdatOptions.t) (originalDat : DAT.t)
    (parentsToCandidates : list (Parent.t * list ReleaseCandidate.t)) : option DAT.t :=
  if negb (FixdatOptions.shouldFixdat opts) then None
  else
    let missing := gamesWithMissingRoms originalDat parentsToCandidates in
    if (Z.of_nat (length missing) =? 0) then None
    else Some (DAT.mk (fixdatHeader opts originalDat) missing).
End create.
End FixdatCreator.

(** The earlier revision of the module, whose entry point is [write]. *)
Module FixdatCreatorLegacy.
Section write.
Context `{RomHasher}.

Definition writtenRomHashCodes
    (parentsToCandidates : list (Parent.t * list ReleaseCandidate.t)) : gmap string bool :=
  foldl (λ map rom, <[hashCode rom := true]> map) ∅
    (map ROMWithFiles.getRom
       (flat_map ReleaseCandidate.getRomsWithFiles
          (flat_map (λ releaseCandidates, releaseCandidates)
             (map snd parentsToCandidates)))).

Definition gamesWithMissingRoms (originalDat : DAT.t)
    (parentsToCandidates : list (Parent.t * list ReleaseCandidate.t)) : list Game.t :=
  let written := writtenRomHashCodes parentsToCandidates in
  List.filter
    (λ game, negb (forallb (λ rom, bool_decide (is_Some (written !! hashCode rom)))
                           (Game.getRoms game)))
    (DAT.getGames originalDat).

Definition fixdatHeader (opts : FixdatOptions.t) (originalDat : DAT.t) : Header.t :=
  let date := FixdatOptions.now opts in
  Header.mk
    (JS.trim (Header.getName (DAT.getHeader originalDat) ++ " fixdat"))
    (JS.trim (Header.getDescription (DAT.getHeader originalDat) ++ " fixdat"))
    date
    date
    (FixdatOptions.AUTHOR opts)
    (FixdatOptions.HOMEPAGE opts)
    (JS.join (String "010" EmptyString)
       [ "fixdat generated by " ++ FixdatOptions.COMMAND_NAME opts
           ++ " v" ++ FixdatOptions.COMMAND_VERSION opts;
         "Original DAT: " ++ FixdatOptions.datToString opts originalDat;
         "Input paths: "
           ++ JS.join ", "
                (map (λ val, "'" ++ val ++ "'") (FixdatOptions.getInputPaths opts));
         "Output path: " ++ FixdatOptions.fixdatDir opts ])
    false.

Definition write (opts : FixdatOptions.t) (originalDat : DAT.t)
    (parentsToCandidates : list (Parent.t * list ReleaseCandidate.t)) : option DAT.t :=
  if negb (FixdatOptions.shouldFixdat opts) then None
  else
    let missing := gamesWithMissingRoms originalDat parentsToCandidates in
    if (Z.of_nat (length missing) =? 0) then None
    else Some (DAT.mk (fixdatHeader opts originalDat) missing).
End write.
End FixdatCreatorLegacy.

(** ** More JavaScript helpers: arrays, strings, comparators *)

Module JSArray.
Section arrays.
Context {A : Type}.

(** [array.indexOf(x)], [-1] when [x] does not occur. *)
Fixpoint indexOfFrom (eqb : A → A → bool) (i : Z) (x : A) (l : list A) : Z :=
  match l with
  | [] => -1
  | y :: l' => if eqb y x then i else indexOfFrom eqb (i + 1) x l'
  end.

Definition indexOf (eqb : A → A → bool) (x : A) (l : list A) : Z :=
  indexOfFrom eqb 0 x l.

(** [array.filter((x, idx) => p(x, idx))] *)
Fixpoint filterFrom (p : A → Z → bool) (i : Z) (l : list A) : list A :=
  match l with
  | [] => []
  | x :: l' =>
      if p x i then x :: filterFrom p (i + 1) l' else filterFrom p (i + 1) l'
  end.

Definition filterIdx (p : A → Z → bool) (l : list A) : list A :=
  filterFrom p 0 l.

(** [array.sort(compareFn)]: stable; [x] is inserted before the first
    element that it need not follow. *)
Fixpoint insert (compareFn : A → A → Z) (x : A) (l : list A) : list A :=
  match l with
  | [] => [x]
  | y :: l' =>
      if compareFn x y <=? 0 then x :: y :: l' else y :: insert compareFn x l'
  end.

Definition sort (compareFn : A → A → Z) (l : list A) : list A :=
  foldr (insert compareFn) [] l.

(** [a] may stand before [b]. *)
Definition before (compareFn : A → A → Z) (a b : A) : Prop := compareFn a b <= 0.

(** Dropping duplicates in the words of the specification: an element goes
    when its key occurred before, so the first occurrence wins.  [seen] holds
    the keys of the elements passed so far. *)
Fixpoint dedupFirst (key : A → string) (seen : list string) (l : list A) : list A :=
  match l with
  | [] => []
  | x :: l' =>
      if existsb (String.eqb (key x)) seen
      then dedupFirst key (seen ++ [key x]) l'
      else x :: dedupFirst key (seen ++ [key x]) l'
  end.
End arrays.
End JSArray.

Module JSString.
(** [s.replace(pattern, replacement)] with a string pattern: only the first
    occurrence is replaced. *)
Fixpoint replace (pattern replacement s : string) : string :=
  if String.prefix pattern s then
    replacement ++ String.substring (String.length pattern)
                     (String.length s - String.length pattern) s
  else
    match s with
    | EmptyString => EmptyString
    | String c s' => String c (replace pattern replacement s')
    end.

(** The number of occurrences of a character. *)
Fixpoint occurrences (c : ascii) (s : string) : nat :=
  match s with
  | EmptyString => 0%nat
  | String c' s' => ((if Ascii.eqb c' c then 1 else 0) + occurrences c s')%nat
  end.

(** [s.replaceAll(pattern, replacement)] for a one-character pattern. *)
Fixpoint replaceAllChar (pattern : ascii) (replacement s : string) : string :=
  match s with
  | EmptyString => EmptyString
  | String c s' =>
      if Ascii.eqb c pattern then replacement ++ replaceAllChar pattern replacement s'
      else String c (replaceAllChar pattern replacement s')
  end.
End JSString.

(** [String.prototype.localeCompare] belongs to the runtime: the plain
    comparison and the one with [{ numeric: true }]. *)
Class Collator := {
  localeCompare : string → string → Z;
  localeCompareNumeric : string → string → Z
}.

(** A consistent comparator, as [Array.prototype.sort] expects it. *)
Class Consistent {A : Type} (compareFn : A → A → Z) : Prop := {
  consistent_total : ∀ a b, compareFn a b <= 0 ∨ compareFn b a <= 0;
  consistent_trans : ∀ a b c,
    compareFn a b <= 0 → compareFn b c <= 0 → compareFn a c <= 0
}.

(** ** DAT merger/splitter (modules/datMergerSplitter) *)

(** Modelled from the spec: the enumeration [MergeMode] is declared in
    types/options.ts.  The module names [FULLNONMERGED], [SPLIT] and
    [MERGED]; the spec names the remaining mode [NONE]. *)
Inductive MergeMode := FULLNONMERGED | NONE | SPLIT | MERGED.

Global Instance MergeMode_eq_dec : EqDecision MergeMode.
Proof. solve_decision. Defined.

Module DATModel.
(** Modelled from the spec: [DAT.hasParentCloneInfo] is declared in
    types/dats/dat.ts.  A DAT "lacks parent/clone metadata" when none of
    its games names a parent. *)
Definition hasParentCloneInfo (dat : DAT.t) : bool :=
  existsb Game.isClone (DAT.getGames dat).

(** The clones of the parent game [p]: the clones that name it, unless an
    earlier parent game of the same name already took them. *)
Definition clonesOf (seen : list string) (p : Game.t) (clones : list Game.t)
    : list Game.t :=
  if bool_decide (Game.getName p ∈ seen) then []
  else List.filter (λ c, String.eqb (Game.getParent c) (Game.getName p)) clones.

Fixpoint parentClasses (seen : list string) (parents clones : list Game.t)
    : list Parent.t :=
  match parents with
  | [] => []
  | p :: ps =>
      Parent.mk (Game.getName p) (p :: clonesOf seen p clones)
        :: parentClasses (Game.getName p :: seen) ps clones
  end.

(** An orphan clone refers to a parent game that the DAT does not have. *)
Definition isOrphan (parents : list Game.t) (c : Game.t) : bool :=
  negb (existsb (λ p, String.eqb (Game.getParent c) (Game.getName p)) parents).

(** Modelled from the spec: [DAT.getParents] is declared in
    types/dats/dat.ts.  "The equivalence classes grouped by clone-link,
    each class represented by a Parent object holding the parent game plus
    its clones.  Every game belongs to exactly one parent class; orphan
    clones (referring to a missing parent) form their own singleton
    class." *)
Definition getParents (dat : DAT.t) : list Parent.t :=
  let parents := List.filter Game.isParent (DAT.getGames dat) in
  let clones := List.filter Game.isClone (DAT.getGames dat) in
  (parentClasses [] parents clones
     ++ map (λ c, Parent.mk (Game.getName c) [c])
          (List.filter (isOrphan parents) clones))%list.

(** The clones that the classes of the parent games hold, class by class. *)
Definition cloneGroups (seen : list string) (parents clones : list Game.t)
    : list Game.t :=
  flat_map (λ cls, tail (Parent.getGames cls)) (parentClasses seen parents clones).

(** The games of a DAT in the order of its parent classes. *)
Definition classGames (dat : DAT.t) : list Game.t :=
  flat_map Parent.getGames (getParents dat).
End DATModel.

Module DATMergerSplitter.
Section mergeParent.
Context `{RomHasher} `{Collator}.

(** [this.options.getMergeRoms()], [None] when the option is absent. *)
Variable getMergeRoms : option MergeMode.

Definition romNameFunc (rom : ROM.t) : string :=
  JSString.replace "-" "__" (ROM.getName rom).

Definition romSortFunc (a b : ROM.t) : Z :=
  localeCompareNumeric (romNameFunc a) (romNameFunc b).

(** The sort key in the words of the specification: every hyphen of the
    name is substituted. *)
Definition romNameAllHyphens (rom : ROM.t) : string :=
  JSString.replaceAllChar "-" "__" (ROM.getName rom).

(** Sanitization: drop the ROMs whose name occurred before, then sort. *)
Definition sanitize (game : Game.t) : Game.t :=
  let romNames := map ROM.getName (Game.getRoms game) in
  Game.withRoms
    (JSArray.sort romSortFunc
       (JSArray.filterIdx
          (λ rom idx, JSArray.indexOf String.eqb (ROM.getName rom) romNames =? idx)
          (Game.getRoms game)))
    game.

(** Sanitization in the words of the specification: as [sanitize], with the
    key in which every hyphen is substituted. *)
Definition sanitizeAllHyphens (game : Game.t) : list ROM.t :=
  JSArray.sort
    (λ a b, localeCompareNumeric (romNameAllHyphens a) (romNameAllHyphens b))
    (JSArray.dedupFirst ROM.getName [] (Game.getRoms game)).

(** 'full' types expect device ROMs to be included. *)
Definition includeDeviceRoms (gameNamesToGames : gmap string Game.t)
    (game : Game.t) : Game.t :=
  if negb (Game.isMachine game) then game
  else
    Game.withRoms
      (JSArray.sort romSortFunc
         (flat_map Game.getRoms
            (omap (λ deviceRef, gameNamesToGames !! deviceRef)
                  (Game.getDeviceRefs game))
          ++ Game.getRoms game)%list)
      game.

Definition parentRomNamesToHashCodes (parent : Game.t) : gmap string string :=
  foldl (λ map rom, <[ROM.getName rom := hashCode rom]> map) ∅
    (Game.getRoms parent).

Definition keepRom (names : gmap string string) (rom : ROM.t) : bool :=
  let parentName := default (ROM.getName rom) (ROM.getMerge rom) in
  match names !! parentName with
  | None => true
  | Some parentHashCode =>
      if String.eqb parentHashCode EmptyString then true
      else if negb (String.eqb parentHashCode (hashCode rom)) then true
      else false
  end.

Definition diffGameRoms (parent child : Game.t) : list ROM.t :=
  List.filter (keepRom (parentRomNamesToHashCodes parent)) (Game.getRoms child).

(** Non-'full' types expect BIOS files to be in their own set. *)
Definition excludeBiosRoms (gameNamesToGames : gmap string Game.t)
    (game : Game.t) : Game.t :=
  if String.eqb (Game.getBios game) EmptyString then game
  else
    match gameNamesToGames !! Game.getBios game with
    | None => game
    | Some biosGame =>
        let biosGame :=
          Game.withRoms (List.filter ROM.getBios (Game.getRoms biosGame)) biosGame in
        Game.withRoms (JSArray.sort romSortFunc (diffGameRoms biosGame game)) game
    end.

(** 'split' and 'merged' types exclude ROMs found in their parent. *)
Definition excludeParentRoms (gameNamesToGames : gmap string Game.t)
    (game : Game.t) : Game.t :=
  if String.eqb (Game.getParent game) EmptyString then game
  else
    match gameNamesToGames !! Game.getParent game with
    | None => game
    | Some parentGame =>
        Game.withRoms (JSArray.sort romSortFunc (diffGameRoms parentGame game)) game
    end.

Definition isMode (mode : MergeMode) : bool :=
  bool_decide (getMergeRoms = Some mode).

(** The games of a class after sanitization and the mode's exclusions. *)
Definition reshape (gameNamesToGames : gmap string Game.t)
    (games : list Game.t) : list Game.t :=
  let games := map sanitize games in
  let games :=
    if isMode FULLNONMERGED then map (includeDeviceRoms gameNamesToGames) games
    else games in
  let games :=
    if negb (isMode FULLNONMERGED) then map (excludeBiosRoms gameNamesToGames) games
    else games in
  if isMode SPLIT || isMode MERGED
  then map (excludeParentRoms gameNamesToGames) games
  else games.

(** The BIOS game that [excludeBiosRoms] finds for a game, if any. *)
Definition biosGameOf (gameNamesToGames : gmap string Game.t)
    (game : Game.t) : option Game.t :=
  if String.eqb (Game.getBios game) EmptyString then None
  else gameNamesToGames !! Game.getBios game.

(** The parent game that [excludeParentRoms] finds for a game, if any. *)
Definition parentGameOf (gameNamesToGames : gmap string Game.t)
    (game : Game.t) : option Game.t :=
  if String.eqb (Game.getParent game) EmptyString then None
  else gameNamesToGames !! Game.getParent game.

(** The BIOS ROMs of a BIOS game. *)
Definition biosOnly (biosGame : Game.t) : Game.t :=
  Game.withRoms (List.filter ROM.getBios (Game.getRoms biosGame)) biosGame.

(** The set of (name, hash code) pairs of the ROMs of a game, as a list. *)
Definition romPairs (game : Game.t) : list (string * string) :=
  map (λ rom, (ROM.getName rom, hashCode rom)) (Game.getRoms game).

(** A DAT with every game sanitized: the normal form in which two DATs are
    compared. *)
Definition normalize (dat : DAT.t) : DAT.t :=
  DAT.mk (DAT.getHeader dat) (map sanitize (DAT.getGames dat)).

(** The conservation that is stated for a mode without set arithmetic:
    [after] has as many games as [before], and every game of [before] is
    found in [after] with the same set of (name, hash code) pairs. *)
Definition conserved (before after : DAT.t) : Prop :=
  length (DAT.getGames after) = length (DAT.getGames before)
  ∧ ∀ game, In game (DAT.getGames before) →
      ∃ game', In game' (DAT.getGames after)
               ∧ Game.getName game' = Game.getName game
               ∧ ∀ pair, In pair (romPairs game') ↔ In pair (romPairs game).

(** A game as sanitization leaves it: ROMs in order, no two of a name. *)
Definition sanitized (game : Game.t) : Prop :=
  Sorted (JSArray.before romSortFunc) (Game.getRoms game)
  ∧ NoDup (map ROM.getName (Game.getRoms game)).

(** What [reshape] does to one game. *)
Definition reshapeGame (gameNamesToGames : gmap string Game.t)
    (game : Game.t) : Game.t :=
  let game := sanitize game in
  let game :=
    if isMode FULLNONMERGED then includeDeviceRoms gameNamesToGames game else game in
  let game :=
    if negb (isMode FULLNONMERGED) then excludeBiosRoms gameNamesToGames game
    else game in
  if isMode SPLIT || isMode MERGED then excludeParentRoms gameNamesToGames game
  else game.

Definition cloneRoms (cloneGames : list Game.t) : list ROM.t :=
  flat_map
    (λ game,
       map (λ rom, ROM.withName (Game.getName game ++ "\" ++ ROM.getName rom) rom)
           (Game.getRoms game))
    cloneGames.

Definition deduplicate (allRoms : list ROM.t) : list ROM.t :=
  let allRomHashCodes := map hashCode allRoms in
  JSArray.filterIdx
    (λ rom idx, JSArray.indexOf String.eqb (hashCode rom) allRomHashCodes =? idx)
    allRoms.

(** [new Machine({...parentGame, rom})]: spreading [undefined] adds no
    property, so without a parent game every property other than [rom] is
    left empty. *)
Definition newMachine (parentGame : option Game.t) (rom : list ROM.t) : Game.t :=
  match parentGame with
  | Some p =>
      Game.mk (Game.getName p) (Game.getParent p) (Game.getBios p)
              (Game.getDeviceRefs p) rom true
  | None => Game.mk EmptyString EmptyString EmptyString [] rom true
  end.

Definition mergeParent (parent : Parent.t)
    (gameNamesToGames : gmap string Game.t) : list Game.t :=
  let games := reshape gameNamesToGames (Parent.getGames parent) in
  let parentGame := List.find Game.isParent games in
  let cloneGames := List.filter Game.isClone games in
  if negb (isMode MERGED) then
    match parentGame with
    | Some p => p :: cloneGames
    | None => cloneGames
    end
  else
    let allRoms :=
      (cloneRoms cloneGames
         ++ match parentGame with Some p => Game.getRoms p | None => [] end)%list in
    [newMachine parentGame (deduplicate allRoms)].

Definition gameNamesToGames (dat : DAT.t) : gmap string Game.t :=
  foldl (λ map game, <[Game.getName game := game]> map) ∅ (DAT.getGames dat).

Definition newHeader (header : Header.t) : Header.t :=
  Header.mk (Header.getName header) (Header.getDescription header)
    (Header.getVersion header) (Header.getDate header) (Header.getAuthor header)
    (Header.getUrl header) (Header.getComment header) (isMode MERGED).

Definition merge (dat : DAT.t) : DAT.t :=
  match getMergeRoms with
  | None => dat
  | Some _ =>
      if negb (DATModel.hasParentCloneInfo dat) then dat
      else
        let newGames :=
          flat_map (λ parent, mergeParent parent (gameNamesToGames dat))
                   (DATModel.getParents dat) in
        DAT.mk (newHeader (DAT.getHeader dat)) newGames
  end.

(** Idempotence as it is stated: two runs give the DAT of one run, both
    DATs taken in normal form. *)
Definition idempotentOn (dat : DAT.t) : Prop :=
  normalize (merge (merge dat)) = normalize (merge dat).
End mergeParent.
End DATMergerSplitter.

(** ** File indexer (modules/fileIndexer) *)

Inductive Archive := Zip | Tar | Rar | SevenZip | OtherArchive.

Module File.
(** [getArchive] is [None] for a plain file and [Some a] for an
    [ArchiveEntry] of the archive [a]; the file path of an archive entry is
    the path of its archive.  The two fingerprints are memoised by the
    file, hence attributes here. *)
Record t := mk {
  getFilePath : string;
  getEntryPath : option string;
  getArchive : option Archive;
  getSize : Z;
  getFileHeader : option string;
  hashCodeWithHeader : string;
  hashCodeWithoutHeader : string
}.
End File.

(** What [index] reads from its options, the file system and [node:path]:
    the output directory root, [path.resolve] and [FsPoly.disksSync()]. *)
Module IndexerEnv.
Record t := mk {
  getOutputDirRoot : string;
  resolve : string → string;
  disksSync : list string
}.
End IndexerEnv.

Module FileIndexer.
Section index.
Context `{Collator}.
Variable env : IndexerEnv.t.

Definition setFileInMap (map : gmap string (list File.t)) (key : string)
    (file : File.t) : gmap string (list File.t) :=
  <[key := (default [] (map !! key) ++ [file])%list]> map.

(** This ordering should match [FileFactory.archiveFrom]. *)
Definition archiveEntryPriority (file : File.t) : Z :=
  match File.getArchive file with
  | None => 0
  | Some Zip => 1
  | Some Tar => 2
  | Some Rar => 3
  | Some SevenZip => 4
  | Some OtherArchive => 99
  end.

Definition outputDir : string :=
  IndexerEnv.resolve env (IndexerEnv.getOutputDirRoot env).

Definition outputDirDisk : option string :=
  List.find (λ mount, String.prefix mount outputDir) (IndexerEnv.disksSync env).

Definition headered (hashCode : string) (file : File.t) : Z :=
  if bool_decide (is_Some (File.getFileHeader file))
     && String.eqb (File.hashCodeWithoutHeader file) hashCode
  then 1 else 0.

Definition inOutput (file : File.t) : Z :=
  if String.prefix outputDir (IndexerEnv.resolve env (File.getFilePath file))
  then 1 else 0.

Definition inOutputDisk (disk : string) (file : File.t) : Z :=
  if String.prefix disk (IndexerEnv.resolve env (File.getFilePath file))
  then 0 else 1.

(** The comparator handed to [filesForHash.sort]. *)
Definition compareFiles (hashCode : string) (fileOne fileTwo : File.t) : Z :=
  let fileOneHeadered := headered hashCode fileOne in
  let fileTwoHeadered := headered hashCode fileTwo in
  if negb (fileOneHeadered =? fileTwoHeadered) then fileOneHeadered - fileTwoHeadered
  else
    let fileOneArchived := archiveEntryPriority fileOne in
    let fileTwoArchived := archiveEntryPriority fileTwo in
    if negb (fileOneArchived =? fileTwoArchived) then fileOneArchived - fileTwoArchived
    else
      let fileOneInOutput := inOutput fileOne in
      let fileTwoInOutput := inOutput fileTwo in
      if negb (fileOneInOutput =? fileTwoInOutput) then fileOneInOutput - fileTwoInOutput
      else
        let byPath :=
          localeCompare (File.getFilePath fileOne) (File.getFilePath fileTwo) in
        match outputDirDisk with
        | Some disk =>
            if String.eqb disk EmptyString then byPath
            else
              let fileOneInOutputDisk := inOutputDisk disk fileOne in
              let fileTwoInOutputDisk := inOutputDisk disk fileTwo in
              if negb (fileOneInOutputDisk =? fileTwoInOutputDisk)
              then fileOneInOutputDisk - fileTwoInOutputDisk
              else byPath
        | None => byPath
        end.

Definition indexFile (results : gmap string (list File.t)) (file : File.t)
    : gmap string (list File.t) :=
  let results := setFileInMap results (File.hashCodeWithHeader file) file in
  if bool_decide (is_Some (File.getFileHeader file))
  then setFileInMap results (File.hashCodeWithoutHeader file) file
  else results.

Definition index (files : list File.t) : gmap string (list File.t) :=
  if Z.of_nat (length files) =? 0 then ∅
  else
    let results := foldl indexFile ∅ files in
    map_imap
      (λ hashCode filesForHash,
         Some (JSArray.sort (compareFiles hashCode) filesForHash))
      results.

(** Comparison step by step: the first difference decides, and [tiebreak]
    when there is none. *)
Fixpoint lexCompare (k1 k2 : list Z) (tiebreak : Z) : Z :=
  match k1, k2 with
  | x :: k1', y :: k2' => if x =? y then lexCompare k1' k2' tiebreak else x - y
  | _, _ => tiebreak
  end.

(** The files that are inserted under [key], in insertion order. *)
Definition filesUnder (key : string) (files : list File.t) : list File.t :=
  flat_map
    (λ file,
       (if String.eqb (File.hashCodeWithHeader file) key then [file] else [])
         ++ (if bool_decide (is_Some (File.getFileHeader file))
                && String.eqb (File.hashCodeWithoutHeader file) key
             then [file] else []))%list
    files.
End index.
End FileIndexer.

(** ** Path sanitizer (polyfill/fsPoly) *)

Module fsPoly.
Definition quote : ascii := "034"%char.

(** The illegal characters: double quote, asterisk, colon, less-than,
    greater-than, question mark, pipe. *)
Definition illegal (c : ascii) : bool :=
  existsb (Ascii.eqb c) [quote; "*"; ":"; "<"; ">"; "?"; "|"]%char.

Definition isLetter (c : ascii) : bool :=
  let n := nat_of_ascii c in
  (((65 <=? n) && (n <=? 90)) || ((97 <=? n) && (n <=? 122)))%nat.

Definition isWindows (pathSep : string) : bool := String.eqb pathSep "\".

(** A character outside the drive-letter context. *)
Definition legalChar (pathSep : string) (c : ascii) : ascii :=
  if Ascii.eqb c ":" && isWindows pathSep then ";"%char
  else if illegal c then "_"%char
  else c.

Fixpoint mapChars (f : ascii → ascii) (s : string) : string :=
  match s with
  | EmptyString => EmptyString
  | String c s' => String (f c) (mapChars f s')
  end.

(** Modelled from the spec: [fsPoly.makeLegal] is declared in
    polyfill/fsPoly.ts, of which only the tests are at hand.  "Replace each
    occurrence with underscore, except: on platforms whose separator is the
    backslash, the first colon in a leading drive-letter context must be
    preserved; additional colons inside the path become semicolons.  The
    separator character itself is never modified." *)
Definition makeLegal (filePath pathSep : string) : string :=
  match filePath with
  | String drive (String ":" (String "\" rest)) =>
      if isWindows pathSep && isLetter drive
      then String drive (String ":" (String "\" (mapChars (legalChar pathSep) rest)))
      else mapChars (legalChar pathSep) filePath
  | _ => mapChars (legalChar pathSep) filePath
  end.

(** Whether [filePath] starts with a drive letter, a colon and a backslash. *)
Definition hasDrive (filePath : string) : bool :=
  match filePath with
  | String drive (String ":" (String "\" _)) => isLetter drive
  | _ => false
  end.
End fsPoly.

(** ** A runtime and inputs to evaluate the modules on *)

Module Examples.
(** Comparison by code units.  On the names used below (lower-case letters
    and digits, no two of them differing in a digit run) every collation
    orders the same way. *)
Fixpoint codeUnitCompare (a b : string) : Z :=
  match a, b with
  | EmptyString, EmptyString => 0
  | EmptyString, String _ _ => -1
  | String _ _, EmptyString => 1
  | String x a', String y b' =>
      let d := Z.of_nat (nat_of_ascii x) - Z.of_nat (nat_of_ascii y) in
      if d =? 0 then codeUnitCompare a' b' else d
  end.

#[global] Instance collator : Collator := {|
  localeCompare := codeUnitCompare;
  localeCompareNumeric := codeUnitCompare
|}.

(** A collation that sorts the underscore before the hyphen and both before
    digits and letters, which is what the comment in [mergeParent] reports of
    the numeric collation. *)
Definition rank (c : ascii) : Z :=
  if Ascii.eqb c "_" then 0
  else if Ascii.eqb c "-" then 1
  else 2 + Z.of_nat (nat_of_ascii c).

Fixpoint rankCompare (a b : string) : Z :=
  match a, b with
  | EmptyString, EmptyString => 0
  | EmptyString, String _ _ => -1
  | String _ _, EmptyString => 1
  | String x a', String y b' =>
      let d := rank x - rank y in
      if d =? 0 then rankCompare a' b' else d
  end.

Definition underscoreFirst : Collator := {|
  localeCompare := rankCompare;
  localeCompareNumeric := rankCompare
|}.

(** A hash code made of the checksum and the size. *)
#[global] Instance hasher : RomHasher :=
  λ rom, ROM.getCrc32 rom ++ "|" ++ NilZero.string_of_int (Z.to_int (ROM.getSize rom)).

Definition rom (name crc : string) : ROM.t := ROM.mk name 1 crc None false.
Definition biosRom (name crc : string) : ROM.t := ROM.mk name 1 crc None true.
Definition header : Header.t :=
  Header.mk "arcade" "arcade sets" "1" "2023" "igir" "https://igir.io" "none" false.

(** Scenario "SPLIT diff": parent [P] and its clone [C]. *)
Definition splitP : Game.t :=
  Game.mk "P" EmptyString EmptyString [] [rom "a" "H1"; rom "b" "H2"] true.
Definition splitC : Game.t :=
  Game.mk "C" "P" EmptyString [] [rom "a" "H1"; rom "b" "H3"; rom "c" "H4"] true.
Definition splitDat : DAT.t := DAT.mk header [splitP; splitC].

(** A game with two ROMs of one name and different checksums, and a clone
    of it. *)
Definition dupG : Game.t :=
  Game.mk "game" EmptyString EmptyString [] [rom "a" "H1"; rom "a" "H2"] false.
Definition dupK : Game.t :=
  Game.mk "clone" "game" EmptyString [] [rom "k" "HK"] false.
Definition dupDat : DAT.t := DAT.mk header [dupG; dupK].

(** Candidates that bind every ROM of [splitP] and none of the ROMs that
    only [splitC] has. *)
Definition fixdatOptions : FixdatOptions.t :=
  FixdatOptions.mk true "/output" ["/input"] "20230102-030405" "https://igir.io"
    "igir" "1.0.0" "igir" (λ dat, Header.getName (DAT.getHeader dat)).
Definition candidatesOfP : list (Parent.t * list ReleaseCandidate.t) :=
  [ (Parent.mk "P" [splitP; splitC],
     [ ReleaseCandidate.mk splitP
         [ ROMWithFiles.mk (rom "a" "H1") "/input/a" "/output/a";
           ROMWithFiles.mk (rom "b" "H2") "/input/b" "/output/b" ] ]) ].

(** A DAT without any clone. *)
Definition standaloneDat : DAT.t := DAT.mk header [splitP].

(** A game that declares a BIOS game and lists the BIOS ROM among its own
    ROMs, and a clone of it. *)
Definition biosB : Game.t :=
  Game.mk "bios" EmptyString EmptyString [] [biosRom "bios.bin" "HB"] true.
Definition biosG : Game.t :=
  Game.mk "game" EmptyString "bios" [] [rom "bios.bin" "HB"; rom "game.bin" "HG"] true.
Definition biosK : Game.t :=
  Game.mk "clone" "game" "bios" [] [rom "clone.bin" "HK"] true.
Definition biosDat : DAT.t := DAT.mk header [biosB; biosG; biosK].

(** Scenario "Indexer preference": a raw file and an entry of a Zip archive
    with the same fingerprint; the output directory holds neither. *)
Definition indexerEnv : IndexerEnv.t := IndexerEnv.mk "/output" (λ p, p) ["/"].
Definition rawFile : File.t :=
  File.mk "/input/a.rom" None None 4 None "H" "H".
Definition zipEntry : File.t :=
  File.mk "/input/b.zip" (Some "a.rom") (Some Zip) 4 None "H" "H".
(** A file with a ROM header, whose fingerprint without the header is that of
    the two files above. *)
Definition headeredFile : File.t :=
  File.mk "/input/c.nes" None None 20 (Some "NES") "HH" "H".

(** The paths of the tests of [makeLegal]; [dwayne] has double quotes around
    The Rock. *)
Definition dwayne : string :=
  "Dwayne " ++ String fsPoly.quote "The Rock" ++ String fsPoly.quote " Jonson.rom".
Definition unixPaths : list (string * string) :=
  [ ("file.rom", "file.rom");
    ("roms/file.rom", "roms/file.rom");
    ("/roms/file.rom", "/roms/file.rom");
    (dwayne, "Dwayne _The Rock_ Jonson.rom") ].
Definition windowsPaths : list (string * string) :=
  [ ("file.rom", "file.rom");
    ("roms\file.rom", "roms\file.rom");
    ("C:\roms\file.rom", "C:\roms\file.rom");
    ("C:\ro:ms\fi:le.rom", "C:\ro;ms\fi;le.rom");
    (dwayne, "Dwayne _The Rock_ Jonson.rom") ].

(** A game with two hyphens in a ROM name, and a game with the same name
    written with an underscore and with a hyphen. *)
Definition hyphenGame : Game.t :=
  Game.mk "hyphens" EmptyString EmptyString []
    [rom "a-b-c" "H1"; rom "a-b_c" "H2"] false.
Definition underscoreGame : Game.t :=
  Game.mk "underscore" EmptyString EmptyString []
    [rom "a_b" "H1"; rom "a-b" "H2"] false.

(** Machines with device references: [devM] refers to the device [devD],
    which refers to the device [devE]; [devC] is a clone of [devM]. *)
Definition devE : Game.t :=
  Game.mk "E" EmptyString EmptyString [] [rom "e1" "He"] true.
Definition devD : Game.t :=
  Game.mk "D" EmptyString EmptyString ["E"] [rom "d1" "Hd"] true.
Definition devM : Game.t :=
  Game.mk "M" EmptyString EmptyString ["D"] [rom "m1" "Hm"] true.
Definition devC : Game.t :=
  Game.mk "C" "M" EmptyString [] [rom "c1" "Hc"] true.
Definition deviceDat : DAT.t := DAT.mk header [devE; devD; devM; devC].
End Examples.

(** ** 7z archives (types/files/archives/sevenZip) *)

Module JSRegExp.
Definition newline : ascii := "010"%char.

(** The line terminators of the pattern flag [m]: line feed and carriage
    return, which take one byte, and U+2028 and U+2029, which take three
    (a string is the sequence of its UTF-8 bytes). *)
Definition isLineTerminator (c : ascii) : bool :=
  Ascii.eqb c newline || Ascii.eqb c "013".

Definition isSeparatorOfThree (b1 b2 b3 : nat) : bool :=
  ((b1 =? 226) && (b2 =? 128) && ((b3 =? 168) || (b3 =? 169)))%nat.

Definition startsWithNewline (s : string) : bool :=
  match s with
  | String c _ => Ascii.eqb c newline
  | EmptyString => false
  end.

(** [s.replace(/\n\n+/g, '\n')]: every run of two or more line feeds
    becomes one line feed, that is, a line feed goes when a line feed
    follows it. *)
Fixpoint collapseNewlines (s : string) : string :=
  match s with
  | EmptyString => EmptyString
  | String c s' =>
      if Ascii.eqb c newline && startsWithNewline s' then collapseNewlines s'
      else String c (collapseNewlines s')
  end.

Fixpoint indentAfterTerminators (indent s : string) : string :=
  match s with
  | EmptyString => EmptyString
  | String c1 s1 =>
      if isLineTerminator c1
      then String c1 (indent ++ indentAfterTerminators indent s1)
      else
        match s1 with
        | String c2 (String c3 s3) =>
            if isSeparatorOfThree (nat_of_ascii c1) (nat_of_ascii c2)
                 (nat_of_ascii c3)
            then String c1 (String c2 (String c3
                   (indent ++ indentAfterTerminators indent s3)))
            else String c1 (indentAfterTerminators indent s1)
        | _ => String c1 (indentAfterTerminators indent s1)
        end
  end.

(** [s.replace(/^/gm, indent)]: the indent goes in at the start of the
    string and after every line terminator. *)
Definition indentLines (indent s : string) : string :=
  indent ++ indentAfterTerminators indent s.
End JSRegExp.

(** A promise that is settled: resolved with a value or rejected with a
    reason. *)
Inductive Outcome (A : Type) : Type :=
| Resolved (value : A)
| Rejected (reason : string).
Global Arguments Resolved {A} value.
Global Arguments Rejected {A} reason.

Module SevenZip.
(** An entry of the listing of [7zip-min]. *)
Record Result := mkResult {
  name : string;
  size : string;
  attr : option string;
  crc : option string
}.

(** What [_7z.list] hands to its callback: an error or the listing. *)
Inductive Listing :=
| ListError (err : string)
| ListResult (result : list Result).

(** [ArchiveEntry.entryOf] is declared in
    types/files/archives/archiveEntry.ts; an entry is kept as the arguments
    that it is made from.  The size is [None] for [NaN]. *)
Record ArchiveEntry := mkEntry {
  getArchivePath : string;
  getEntryPath : string;
  getSize : option Z;
  getCrc32 : option string;
  getChecksumBitmask : Z
}.

(** The archive object with what surrounds it: how often [_7z.list] was
    called, the timeouts that were awaited (each [Math.random()] times the
    recorded number of milliseconds), and the map in which [@Memoize()] keeps
    the promise of [getArchiveEntries] under its first argument. *)
Record World := mkWorld {
  listCalls : nat;
  timeouts : list Z;
  memoized : gmap Z (Outcome (list ArchiveEntry))
}.

Section archive.
(** [this.getFilePath()] *)
Variable filePath : string.
(** The listing that the [n]-th call of [_7z.list] on this archive gives. *)
Variable list7z : nat → Listing.
(** [Number.parseInt(s, 10)], [None] for [NaN]. *)
Variable parseInt : string → option Z.

Definition isDirectory (result : Result) : bool :=
  match attr result with
  | Some a => String.prefix "D" a
  | None => false
  end.

Definition hasName (result : Result) : bool :=
  negb (String.eqb (name result) EmptyString).

Definition errorMessage (err : string) : string :=
  JS.trim (JSRegExp.indentLines "   " (JSRegExp.collapseNewlines err)).

Definition entryOf (checksumBitmask : Z) (result : Result) : ArchiveEntry :=
  mkEntry filePath (name result) (parseInt (size result)) (crc result)
          checksumBitmask.

Definition getArchiveEntriesNotCached (checksumBitmask : Z) (w : World)
    : World * Outcome (list ArchiveEntry) :=
  let w' := mkWorld (S (listCalls w)) (timeouts w) (memoized w) in
  match list7z (listCalls w) with
  | ListError err => (w', Rejected (errorMessage err))
  | ListResult result =>
      let filesIn7z := List.filter hasName result in
      (w', Resolved (map (entryOf checksumBitmask)
                         (List.filter (λ result, negb (isDirectory result))
                                      filesIn7z)))
  end.

(** What the [n]-th listing gives once it went through
    [getArchiveEntriesNotCached]. *)
Definition listed (checksumBitmask : Z) (n : nat) : Outcome (list ArchiveEntry) :=
  snd (getArchiveEntriesNotCached checksumBitmask (mkWorld n [] ∅)).

(** A settled promise that ends the loop: a rejection or a listing with
    entries. *)
Definition decisive (promise : Outcome (list ArchiveEntry)) : Prop :=
  match promise with
  | Rejected _ => True
  | Resolved archiveEntries => archiveEntries ≠ []
  end.

Definition setTimeout (ms : Z) (w : World) : World :=
  mkWorld (listCalls w) (timeouts w ++ [ms])%list (memoized w).

(** The loop [for (attempt; attempt <= 3; attempt += 1)] with [remaining]
    rounds to go. *)
Fixpoint attempts (remaining : nat) (attempt : Z) (checksumBitmask : Z)
    (w : World) : World * Outcome (list ArchiveEntry) :=
  match remaining with
  | O => (w, Resolved [])
  | S remaining' =>
      match getArchiveEntriesNotCached checksumBitmask w with
      | (w', Rejected reason) => (w', Rejected reason)
      | (w', Resolved archiveEntries) =>
          if Z.of_nat (length archiveEntries) >? 0 then (w', Resolved archiveEntries)
          else
            attempts remaining' (attempt + 1) checksumBitmask
              (setTimeout (2 ^ (attempt - 1) * 100) w')
      end
  end.

(** The body of [getArchiveEntries]. *)
Definition listWithRetries (checksumBitmask : Z) (w : World)
    : World * Outcome (list ArchiveEntry) :=
  attempts 3 1 checksumBitmask w.

(** [getArchiveEntries] under [@Memoize()]: a promise that was returned for
    the same first argument is returned again. *)
Definition getArchiveEntries (checksumBitmask : Z) (w : World)
    : World * Outcome (list ArchiveEntry) :=
  match memoized w !! checksumBitmask with
  | Some promise => (w, promise)
  | None =>
      let (w', promise) := listWithRetries checksumBitmask w in
      (mkWorld (listCalls w') (timeouts w')
               (<[checksumBitmask := promise]> (memoized w')),
       promise)
  end.
End archive.

(** *** Extraction *)

(** The calls that [extractEntryToFile] makes to the file system and to
    [_7z.cmd]. *)
Inductive Call :=
| Mkdtemp (prefix : string)
| Cmd (args : list string)
| Exists (path : string)
| Walk (dir : string)
| Mv (oldPath newPath : string)
| Rm (dir : string).

(** What the calls answer, and what [node:path], [process] and the
    constants give. *)
Record System := mkSystem {
  platform : string;
  GLOBAL_TEMP_DIR : string;
  join : string → string → string;
  mkdtemp : string → Outcome string;
  cmd : list string → Outcome unit;
  exists_ : string → Outcome bool;
  walk : string → Outcome (list string);
  mv : string → string → Outcome unit;
  rm : string → Outcome unit
}.

(** An asynchronous computation: it extends the log of the calls made so far
    and settles. *)
Definition Async (A : Type) : Type := list Call → list Call * Outcome A.

Definition resolve {A} (value : A) : Async A := λ log, (log, Resolved value).

Definition throw {A} (reason : string) : Async A := λ log, (log, Rejected reason).

(** [await] and what follows it. *)
Definition andThen {A B} (m : Async A) (k : A → Async B) : Async B :=
  λ log,
    match m log with
    | (log', Resolved value) => k value log'
    | (log', Rejected reason) => (log', Rejected reason)
    end.

Definition await {A} (call : Call) (answer : Outcome A) : Async A :=
  λ log, ((log ++ [call])%list, answer).

(** [try { body } finally { cleanup }]: the cleanup runs however the body
    settles, and its own rejection is the one that counts. *)
Definition tryFinally {A} (body : Async A) (cleanup : Async unit) : Async A :=
  λ log,
    match body log with
    | (log', settled) =>
        match cleanup log' with
        | (log'', Resolved _) => (log'', settled)
        | (log'', Rejected reason) => (log'', Rejected reason)
        end
    end.

Global Instance Async_bind : MBind Async := λ A B k m, andThen m k.

(** The directory prefix handed to [fsPoly.mkdtemp] and the arguments handed
    to [_7z.cmd]. *)
Definition tempPrefix (sys : System) : string :=
  join sys (GLOBAL_TEMP_DIR sys) "7z".

Definition extractArgs (filePath tempDir entryPath : string) : list string :=
  [ "x"; filePath; "-y"; "-o" ++ tempDir; entryPath; "-r" ].

Definition extractEntryToFile (sys : System) (filePath entryPath
    extractedFilePath : string) : Async unit :=
  tempDir ← await (Mkdtemp (tempPrefix sys)) (mkdtemp sys (tempPrefix sys));
  tryFinally
    (let tempFile := join sys tempDir entryPath in
     let args := extractArgs filePath tempDir entryPath in
     _ ← await (Cmd args) (cmd sys args);
     tempFile ←
       (if String.eqb (platform sys) "win32" then
          found ← await (Exists tempFile) (exists_ sys tempFile);
          if negb found then
            files ← await (Walk tempDir) (walk sys tempDir);
            if Z.of_nat (length files) =? 0
            then throw "failed to extract any files"
            else if Z.of_nat (length files) >? 1
            then throw "extracted too many files"
            else resolve (hd tempFile files)
          else resolve tempFile
        else resolve tempFile) : Async string;
     await (Mv tempFile extractedFilePath) (mv sys tempFile extractedFilePath))
    (await (Rm tempDir) (rm sys tempDir)).

(** The calls that are no part of the try block's work: making and removing
    the temporary directory. *)
Definition isTempDirCall (call : Call) : bool :=
  match call with
  | Mkdtemp _ | Rm _ => true
  | _ => false
  end.

Definition isProbe (call : Call) : bool :=
  match call with
  | Exists _ | Walk _ => true
  | _ => false
  end.
End SevenZip.

(** ** More inputs to evaluate the modules on *)

Module MoreExamples.
(** Decimal digits only; anything else is not a number. *)
Definition parseDigits (s : string) : option Z :=
  match NilEmpty.uint_of_string s with
  | Some n => if String.eqb s EmptyString then None else Some (Z.of_uint n)
  | None => None
  end.

Definition fileResult : SevenZip.Result :=
  SevenZip.mkResult "game.rom" "1024" (Some "....A") (Some "12345678").
Definition dirResult : SevenZip.Result :=
  SevenZip.mkResult "roms" "0" (Some "D....") None.

(** An archive whose first listing comes back empty, whose second listing
    holds a directory and a file, and that fails to list afterwards. *)
Definition flakyList (n : nat) : SevenZip.Listing :=
  match n with
  | O => SevenZip.ListResult []
  | S O => SevenZip.ListResult [dirResult; fileResult]
  | _ => SevenZip.ListError "cannot open"
  end.

(** An archive that only ever lists a directory. *)
Definition dirOnlyList (n : nat) : SevenZip.Listing :=
  SevenZip.ListResult [dirResult].

Definition freshWorld : SevenZip.World := SevenZip.mkWorld 0 [] ∅.

(** A system on which every call succeeds; on [win32] the extracted file is
    not where it is expected and the walk finds one file. *)
Definition system (platform : string) (walked : list string) : SevenZip.System :=
  SevenZip.mkSystem platform "/tmp"
    (λ a b, a ++ "/" ++ b)
    (λ prefix, Resolved (prefix ++ "XXXXXX"))
    (λ _, Resolved tt)
    (λ _, Resolved false)
    (λ _, Resolved walked)
    (λ _ _, Resolved tt)
    (λ _, Resolved tt).

(** Two entries of one Zip archive with the same content, and the test that
    tells the headerless entries of that archive. *)
Definition zipCopy : File.t :=
  File.mk "/input/b.zip" (Some "copy.rom") (Some Zip) 4 None "H" "H".

Definition inZip (file : File.t) : bool :=
  String.eqb (File.getFilePath file) "/input/b.zip"
  && match File.getArchive file with Some Zip => true | _ => false end
  && match File.getFileHeader file with None => true | Some _ => false end.
End MoreExamples.

(** ** The identity of a ROM *)

Module ROMIdentity.



End ROMIdentity.

(** ** DATs on which a second run of the merger changes nothing *)

Module MergeConditions.
Section conditions.
Context `{RomHasher}.

(** The ROMs of one name in a game have one hash code. *)
Definition sameHashPerName (game : Game.t) : Prop :=
  ∀ a b, In a (Game.getRoms game) → In b (Game.getRoms game) →
    ROM.getName a = ROM.getName b → hashCode a = hashCode b.

(** The games that a game is diffed against have that property: the BIOS
    ROMs of its BIOS game and, in mode SPLIT, its parent game. *)
Definition sameHashInReferences (mode : MergeMode) (names : gmap string Game.t)
    (game : Game.t) : Prop :=
  (∀ biosGame,
     DATMergerSplitter.biosGameOf names game = Some biosGame →
     sameHashPerName (DATMergerSplitter.biosOnly biosGame))
  ∧ (mode = SPLIT →
     ∀ parentGame,
       DATMergerSplitter.parentGameOf names game = Some parentGame →
       sameHashPerName parentGame).
End conditions.

(** The devices of a machine are not nested: a machine that a device
    reference of [game] resolves to resolves no device reference itself. *)
Definition plainDevices (names : gmap string Game.t) (game : Game.t) : Prop :=
  Game.isMachine game = true →
  ∀ deviceRef device,
    In deviceRef (Game.getDeviceRefs game) →
    names !! deviceRef = Some device →
    Game.isMachine device = true →
    ∀ deviceRef', In deviceRef' (Game.getDeviceRefs device) →
                  names !! deviceRef' = None.

(** A machine with a device that has no device of its own, and a clone of
    the machine. *)
Definition plainDeviceDat : DAT.t :=
  DAT.mk Examples.header
    [ Game.mk "D" EmptyString EmptyString [] [Examples.rom "d1" "Hd"] true;
      Game.mk "M" EmptyString EmptyString ["D"] [Examples.rom "m1" "Hm"] true;
      Game.mk "C" "M" EmptyString [] [Examples.rom "c1" "Hc"] true ].

(** A parent with two ROMs of one name and different checksums, and a clone
    with the first of them; and the other way round, where the clone has the
    two ROMs. *)
Definition twoHashesDat : DAT.t :=
  DAT.mk Examples.header
    [ Game.mk "P" EmptyString EmptyString []
        [Examples.rom "a" "H1"; Examples.rom "a" "H2"] false;
      Game.mk "C" "P" EmptyString [] [Examples.rom "a" "H1"] false ].

Definition twoHashesInCloneDat : DAT.t :=
  DAT.mk Examples.header
    [ Game.mk "P" EmptyString EmptyString [] [Examples.rom "a" "H1"] false;
      Game.mk "C" "P" EmptyString []
        [Examples.rom "a" "H1"; Examples.rom "a" "H2"; Examples.rom "b" "H3"] false ].

(** Two games of the name [X], an orphan clone and a parent, and a clone of
    [X]. *)
Definition twoGamesOfOneNameDat : DAT.t :=
  DAT.mk Examples.header
    [ Game.mk "X" "missing" EmptyString [] [Examples.rom "a" "H9"] false;
      Game.mk "X" EmptyString EmptyString [] [Examples.rom "a" "H1"] false;
      Game.mk "K" "X" EmptyString [] [Examples.rom "a" "H9"] false ].
End MergeConditions.

(** ** The preference of the file indexer in the words of the specification *)

Module IndexerPreference.
Section preference.
Context `{Collator}.
Variable env : IndexerEnv.t.

(** "1 if the file has a header and the matching fingerprint is the
    without-header one, else 0." *)
Definition headerMatched (key : string) (file : File.t) : Z :=
  if bool_decide (is_Some (File.getFileHeader file)
                  ∧ File.hashCodeWithoutHeader file = key)
  then 1 else 0.

(** "Archive priority: non-archive = 0; Zip = 1; Tar = 2; Rar = 3;
    SevenZip = 4; other = 99." *)
Definition archivePriority (file : File.t) : Z :=
  match File.getArchive file with
  | None => 0
  | Some Zip => 1
  | Some Tar => 2
  | Some Rar => 3
  | Some SevenZip => 4
  | Some OtherArchive => 99
  end.

(** "A file whose absolute path lies within the configured output directory
    is deprioritised (value 1) vs. 0 otherwise": the absolute path starts
    with the absolute path of the output directory. *)
Definition withinOutput (file : File.t) : Z :=
  if String.prefix (IndexerEnv.resolve env (IndexerEnv.getOutputDirRoot env))
       (IndexerEnv.resolve env (File.getFilePath file))
  then 1 else 0.

(** "If the output directory resides on a known storage volume": the first
    mount that the absolute path of the output directory starts with, when
    it has a name. *)
Definition outputVolume : option string :=
  match List.find
          (λ mount,
             String.prefix mount
               (IndexerEnv.resolve env (IndexerEnv.getOutputDirRoot env)))
          (IndexerEnv.disksSync env) with
  | Some volume => if String.eqb volume EmptyString then None else Some volume
  | None => None
  end.

(** "Files on that same volume win (0 vs 1)." *)
Definition offOutputVolume (file : File.t) : Z :=
  match outputVolume with
  | Some volume =>
      if String.prefix volume (IndexerEnv.resolve env (File.getFilePath file))
      then 0 else 1
  | None => 0
  end.

Definition steps (key : string) (file : File.t) : list Z :=
  [ headerMatched key file; archivePriority file; withinOutput file;
    offOutputVolume file ].

(** "Compare in order; first difference decides", the comparison of the
    paths coming last. *)
Definition fiveStep (key : string) (a b : File.t) : Z :=
  FileIndexer.lexCompare (steps key a) (steps key b)
    (localeCompare (File.getFilePath a) (File.getFilePath b)).

(** "Lexicographic path - total tiebreaker": the comparison of the paths
    tells any two different files apart. *)
Definition totalTiebreaker : Prop :=
  ∀ a b : File.t,
    a ≠ b → localeCompare (File.getFilePath a) (File.getFilePath b) ≠ 0.
End preference.

(** Steps 3 and 4 at work: the output directory is on the volume [/mnt/b];
    [inOutput] lies in it, [onVolume] on its volume and [offVolume] on
    another volume. *)
Definition volumeEnv : IndexerEnv.t :=
  IndexerEnv.mk "/mnt/b/out" (λ p, p) ["/mnt/a"; "/mnt/b"].
Definition inOutput : File.t :=
  File.mk "/mnt/b/out/a.rom" None None 4 None "H" "H".
Definition onVolume : File.t :=
  File.mk "/mnt/b/z.rom" None None 4 None "H" "H".
Definition offVolume : File.t :=
  File.mk "/mnt/a/a.rom" None None 4 None "H" "H".
End IndexerPreference.

(** * Properties *)

Local Open Scope list_scope.

(** ** Fixdat creator *)

Module FixdatCreatorSpec.
Section spec.
Context `{RomHasher}.

Lemma candidateRoms_In parentsToCandidates rom :
  In rom (FixdatCreator.candidateRoms parentsToCandidates) ↔
  ∃ parent candidates candidate romWithFiles,
    In (parent, candidates) parentsToCandidates
    ∧ In candidate candidates
    ∧ In romWithFiles (ReleaseCandidate.getRomsWithFiles candidate)
    ∧ ROMWithFiles.getRom romWithFiles = rom.
Proof.
  unfold FixdatCreator.candidateRoms. rewrite in_map_iff. split.
  - intros (rwf & Hrom & Hin). apply in_flat_map in Hin as (cand & Hcand & Hrwf).
    apply in_concat in Hcand as (cands & Hcands & Hcand).
    apply in_map_iff in Hcands as ([parent cands'] & Heq & Hentry).
    simpl in Heq. subst cands'. by exists parent, cands, cand, rwf.
  - intros (parent & cands & cand & rwf & Hentry & Hcand & Hrwf & Hrom).
    exists rwf. split; [done|]. apply in_flat_map. exists cand. split; [|done].
    apply in_concat. exists cands. split; [|done].
    apply in_map_iff. by exists (parent, cands).
Qed.

Lemma writtenRomHashCodes_elem parentsToCandidates h :
  h ∈ FixdatCreator.writtenRomHashCodes parentsToCandidates ↔
  ∃ rom, In rom (FixdatCreator.candidateRoms parentsToCandidates) ∧ hashCode rom = h.
Proof.
  unfold FixdatCreator.writtenRomHashCodes.
  rewrite elem_of_list_to_set, list_elem_of_In, in_map_iff.
  split; intros (rom & ? & ?); by exists rom.
Qed.

(** The test of the filter: some ROM of the game is not written. *)
Lemma missing_test (written : gset string) game :
  negb (forallb (λ rom, bool_decide (hashCode rom ∈ written)) (Game.getRoms game)) = true
  ↔ ∃ rom, In rom (Game.getRoms game) ∧ hashCode rom ∉ written.
Proof.
  rewrite negb_true_iff. induction (Game.getRoms game) as [|rom roms IH]; simpl.
  - split; [done | by intros (? & [] & _)].
  - rewrite andb_false_iff, IH, bool_decide_eq_false. split.
    + intros [Hrom | (rom' & Hin & Hrom')]; [by exists rom; auto |].
      exists rom'. auto.
    + intros (rom' & [-> | Hin] & Hrom'); [by left | right; by exists rom'].
Qed.

Lemma gamesWithMissingRoms_In originalDat parentsToCandidates game :
  In game (FixdatCreator.gamesWithMissingRoms originalDat parentsToCandidates) ↔
  In game (DAT.getGames originalDat)
  ∧ ∃ rom, In rom (Game.getRoms game)
           ∧ hashCode rom ∉ FixdatCreator.writtenRomHashCodes parentsToCandidates.
Proof.
  unfold FixdatCreator.gamesWithMissingRoms. cbv zeta.
  by rewrite filter_In, missing_test.
Qed.

Lemma create_None_of_nil opts originalDat parentsToCandidates :
  FixdatCreator.gamesWithMissingRoms originalDat parentsToCandidates = [] →
  FixdatCreator.create opts originalDat parentsToCandidates = None.
Proof.
  intros Hnil. unfold FixdatCreator.create. rewrite Hnil. simpl.
  by destruct (FixdatOptions.shouldFixdat opts).
Qed.

Lemma create_Some_iff opts originalDat parentsToCandidates fixdat :
  FixdatCreator.create opts originalDat parentsToCandidates = Some fixdat ↔
  FixdatOptions.shouldFixdat opts = true
  ∧ FixdatCreator.gamesWithMissingRoms originalDat parentsToCandidates ≠ []
  ∧ fixdat = DAT.mk (FixdatCreator.fixdatHeader opts originalDat)
               (FixdatCreator.gamesWithMissingRoms originalDat parentsToCandidates).
Proof.
  unfold FixdatCreator.create.
  destruct (FixdatOptions.shouldFixdat opts); simpl;
    [|split; [done | by intros [? _]]].
  destruct (FixdatCreator.gamesWithMissingRoms _ _) as [|g gs]; simpl.
  - split; [done | by intros (_ & ? & _)].
  - split; [by intros [= <-] | by intros (_ & _ & ->)].
Qed.

(** C1. The fixdat holds exactly the games of the original DAT that have a
    ROM whose hash code is not among the hash codes of the candidates' ROM
    bindings: every game of the fixdat has such a ROM, every game left out
    has all its hash codes written, and with no such game [create] writes
    nothing and returns [undefined]; otherwise, with the fixdat option on,
    it returns the fixdat made of these games. *)
Theorem create_fixdat_games opts originalDat parentsToCandidates :
  let written := FixdatCreator.writtenRomHashCodes parentsToCandidates in
  let fixdatGames :=
    FixdatCreator.gamesWithMissingRoms originalDat parentsToCandidates in
  (∀ h, h ∈ written ↔
        ∃ parent candidates candidate romWithFiles,
          In (parent, candidates) parentsToCandidates
          ∧ In candidate candidates
          ∧ In romWithFiles (ReleaseCandidate.getRomsWithFiles candidate)
          ∧ hashCode (ROMWithFiles.getRom romWithFiles) = h)
  ∧ (∀ game, In game (DAT.getGames originalDat) →
       (In game fixdatGames ↔
        ¬ ∀ rom, In rom (Game.getRoms game) → hashCode rom ∈ written))
  ∧ (∀ game, In game fixdatGames →
       In game (DAT.getGames originalDat)
       ∧ ∃ rom, In rom (Game.getRoms game) ∧ hashCode rom ∉ written)
  ∧ (∀ game, In game (DAT.getGames originalDat) → ¬ In game fixdatGames →
       ∀ rom, In rom (Game.getRoms game) → hashCode rom ∈ written)
  ∧ (fixdatGames = [] →
       FixdatCreator.create opts originalDat parentsToCandidates = None)
  ∧ (∀ fixdat,
       FixdatCreator.create opts originalDat parentsToCandidates = Some fixdat →
       DAT.getGames fixdat = fixdatGames ∧ fixdatGames ≠ [])
  ∧ (FixdatOptions.shouldFixdat opts = true → fixdatGames ≠ [] →
       FixdatCreator.create opts originalDat parentsToCandidates
       = Some (DAT.mk (FixdatCreator.fixdatHeader opts originalDat) fixdatGames)).
Proof.
  intros written fixdatGames.
  split; [|split; [|split; [|split; [|split; [|split]]]]].
  - intros h. split.
    + intros Hh. apply writtenRomHashCodes_elem in Hh as (rom & Hrom & <-).
      apply candidateRoms_In in Hrom as (p & cs & c & rwf & ? & ? & ? & <-).
      by exists p, cs, c, rwf.
    + intros (p & cs & c & rwf & ? & ? & ? & <-).
      apply writtenRomHashCodes_elem. exists (ROMWithFiles.getRom rwf).
      split; [|done]. apply candidateRoms_In. by exists p, cs, c, rwf.
  - intros game Hgame. split.
    + intros Hin Hall.
      apply gamesWithMissingRoms_In in Hin as (_ & rom & Hrom & Hnot).
      by apply Hnot, Hall.
    + intros Hnot. apply gamesWithMissingRoms_In. split; [done|].
      apply missing_test. apply negb_true_iff, not_true_is_false.
      intros Htest. apply Hnot. intros rom Hrom.
      rewrite forallb_forall in Htest.
      by apply (bool_decide_eq_true_1 _ (Htest rom Hrom)).
  - intros game Hin. by apply gamesWithMissingRoms_In.
  - intros game Hgame Hout rom Hrom.
    destruct (decide (hashCode rom ∈ written)) as [|Hnot]; [done|].
    exfalso. apply Hout. apply gamesWithMissingRoms_In. split; [done|]. by exists rom.
  - apply create_None_of_nil.
  - intros fixdat Hcreate. apply create_Some_iff in Hcreate as (_ & Hne & ->). done.
  - intros Hopt Hne. by apply create_Some_iff.
Qed.
End spec.

(** With candidates for the parent only, the fixdat holds the clone; with no
    candidates at all it holds both games; with the parent alone in the DAT
    there is no fixdat. *)
Example create_on_split :
  DAT.getGames <$> @FixdatCreator.create Examples.hasher Examples.fixdatOptions
                     Examples.splitDat Examples.candidatesOfP
  = Some [Examples.splitC]
  ∧ DAT.getGames <$> @FixdatCreator.create Examples.hasher Examples.fixdatOptions
                       Examples.splitDat []
    = Some [Examples.splitP; Examples.splitC]
  ∧ @FixdatCreator.create Examples.hasher Examples.fixdatOptions
      Examples.standaloneDat Examples.candidatesOfP
    = None
  ∧ Header.getName
      (@FixdatCreator.fixdatHeader Examples.fixdatOptions Examples.splitDat)
    = "arcade fixdat"%string.
Proof. repeat split; by vm_compute. Qed.
End FixdatCreatorSpec.

(** ** The two revisions of the fixdat creator *)

Module FixdatRevisions.
Section revisions.
Context `{RomHasher}.

Lemma foldl_set_lookup (roms : list ROM.t) (init : gmap string bool) h :
  is_Some (foldl (λ map rom, <[hashCode rom := true]> map) init roms !! h)
  ↔ is_Some (init !! h) ∨ In h (map hashCode roms).
Proof.
  revert init. induction roms as [|rom roms IH]; intros init; simpl.
  - split; [by left | by intros [? | []]].
  - rewrite IH. destruct (decide (hashCode rom = h)) as [->|Hne].
    + rewrite lookup_insert_eq. split; [by right; left | by left].
    + rewrite lookup_insert_ne by done.
      split; [intros [? | ?]; [by left | by right; right] |].
      intros [? | [? | ?]]; [by left | done | by right].
Qed.

Lemma flat_map_id {A} (l : list (list A)) : flat_map (λ x, x) l = concat l.
Proof. induction l as [|x l IH]; simpl; [done | by rewrite IH]. Qed.

(** The set of the later revision and the map of the earlier one answer
    [has] alike. *)
Lemma has_agrees parentsToCandidates h :
  bool_decide (is_Some (FixdatCreatorLegacy.writtenRomHashCodes parentsToCandidates !! h))
  = bool_decide (h ∈ FixdatCreator.writtenRomHashCodes parentsToCandidates).
Proof.
  apply bool_decide_ext.
  unfold FixdatCreatorLegacy.writtenRomHashCodes, FixdatCreator.writtenRomHashCodes,
    FixdatCreator.candidateRoms.
  rewrite foldl_set_lookup, flat_map_id, elem_of_list_to_set, list_elem_of_In.
  rewrite lookup_empty. split; [intros [[? ?]|?]; done | by right].
Qed.

(** C10. The revision that keeps the written hash codes in a [Set] and the
    one that keeps them in a [Map] to [true] select the same games with
    missing ROMs, in the same order, and so return [undefined] on the same
    inputs. *)
Theorem gamesWithMissingRoms_agree originalDat parentsToCandidates :
  FixdatCreator.gamesWithMissingRoms originalDat parentsToCandidates
  = FixdatCreatorLegacy.gamesWithMissingRoms originalDat parentsToCandidates
  ∧ ∀ opts,
      DAT.getGames <$> FixdatCreator.create opts originalDat parentsToCandidates
      = DAT.getGames <$> FixdatCreatorLegacy.write opts originalDat parentsToCandidates.
Proof.
  assert (FixdatCreator.gamesWithMissingRoms originalDat parentsToCandidates
          = FixdatCreatorLegacy.gamesWithMissingRoms originalDat parentsToCandidates)
    as Heq.
  { unfold FixdatCreator.gamesWithMissingRoms, FixdatCreatorLegacy.gamesWithMissingRoms.
    cbv zeta. apply filter_ext. intros game. f_equal.
    induction (Game.getRoms game) as [|rom roms IH]; simpl; [done|].
    by rewrite IH, has_agrees. }
  split; [done|]. intros opts.
  unfold FixdatCreator.create, FixdatCreatorLegacy.write. cbv zeta. rewrite <- Heq.
  destruct (negb (FixdatOptions.shouldFixdat opts)); [done|].
  by destruct (Z.of_nat _ =? 0).
Qed.
End revisions.
End FixdatRevisions.

(** ** Arrays: [sort], [indexOf] and [filter] by index *)

Module JSArrayFacts.
Section sort.
Context {A : Type} (compareFn : A → A → Z).

Lemma sort_cons x l :
  JSArray.sort compareFn (x :: l) = JSArray.insert compareFn x (JSArray.sort compareFn l).
Proof. done. Qed.

Lemma insert_perm x l : Permutation (JSArray.insert compareFn x l) (x :: l).
Proof.
  induction l as [|y l IH]; simpl; [done|].
  destruct (compareFn x y <=? 0); [done|].
  rewrite IH. apply perm_swap.
Qed.

Lemma sort_perm l : Permutation (JSArray.sort compareFn l) l.
Proof.
  induction l as [|x l IH]; [done|].
  by rewrite sort_cons, insert_perm, IH.
Qed.

Lemma sort_In x l : In x (JSArray.sort compareFn l) ↔ In x l.
Proof.
  split; apply Permutation_in; [apply sort_perm | symmetry; apply sort_perm].
Qed.

Lemma sort_length l : length (JSArray.sort compareFn l) = length l.
Proof. apply Permutation_length, sort_perm. Qed.

Lemma insert_sorted `{!Consistent compareFn} x l :
  Sorted (JSArray.before compareFn) l → Sorted (JSArray.before compareFn) (JSArray.insert compareFn x l).
Proof.
  induction 1 as [|y l Hsorted IH Hhd]; simpl; [by repeat constructor|].
  destruct (Z.leb_spec (compareFn x y) 0) as [Hle|Hgt].
  - by repeat constructor.
  - constructor; [done|].
    assert (JSArray.before compareFn y x) as Hyx.
    { destruct (consistent_total x y) as [?|?]; [lia | done]. }
    destruct l as [|z l]; simpl; [by repeat constructor|].
    destruct (compareFn x z <=? 0); constructor; [done|].
    by inversion Hhd.
Qed.

Lemma sort_sorted `{!Consistent compareFn} l : Sorted (JSArray.before compareFn) (JSArray.sort compareFn l).
Proof.
  induction l as [|x l IH]; [constructor | by apply insert_sorted].
Qed.

(** Sorting leaves a sorted array as it is. *)
Lemma sort_of_sorted l : Sorted (JSArray.before compareFn) l → JSArray.sort compareFn l = l.
Proof.
  induction 1 as [|x l Hsorted IH Hhd]; [done|].
  rewrite sort_cons, IH.
  destruct Hhd as [|y l Hxy]; simpl; [done|].
  unfold JSArray.before in Hxy. by destruct (Z.leb_spec (compareFn x y) 0); [|lia].
Qed.

Lemma before_trans `{!Consistent compareFn} : Transitive (JSArray.before compareFn).
Proof. intros a b c. apply consistent_trans. Qed.

Lemma sorted_filter `{!Consistent compareFn} (p : A → bool) l :
  Sorted (JSArray.before compareFn) l → Sorted (JSArray.before compareFn) (List.filter p l).
Proof.
  intros Hsorted. apply Sorted_StronglySorted in Hsorted; [|apply before_trans].
  apply StronglySorted_Sorted.
  induction Hsorted as [|x l Hsorted IH Hall]; simpl; [constructor|].
  destruct (p x); [|done]. constructor; [done|].
  rewrite Forall_forall in *. intros y Hy. apply Hall.
  apply list_elem_of_In in Hy. apply list_elem_of_In.
  by apply filter_In in Hy as [? _].
Qed.

Lemma sort_idempotent `{!Consistent compareFn} l :
  JSArray.sort compareFn (JSArray.sort compareFn l) = JSArray.sort compareFn l.
Proof. apply sort_of_sorted, sort_sorted. Qed.
(** [Array.prototype.sort] is stable: elements none of which has to follow
    another keep their order. *)
Lemma insert_stable (p : A → bool) x l :
  (∀ a b, p a = true → p b = true → compareFn a b <= 0) →
  List.filter p (JSArray.insert compareFn x l) = List.filter p (x :: l).
Proof.
  intros Hties. induction l as [|y l IH]; [done|].
  cbn [JSArray.insert]. destruct (Z.leb_spec (compareFn x y) 0) as [Hle|Hgt]; [done|].
  cbn [List.filter] in *. rewrite IH.
  destruct (p x) eqn:Hx, (p y) eqn:Hy; try done.
  specialize (Hties x y Hx Hy). lia.
Qed.

Lemma sort_stable (p : A → bool) l :
  (∀ a b, p a = true → p b = true → compareFn a b <= 0) →
  List.filter p (JSArray.sort compareFn l) = List.filter p l.
Proof.
  intros Hties. induction l as [|x l IH]; [done|].
  rewrite sort_cons, insert_stable by done.
  cbn [List.filter]. by rewrite IH.
Qed.

End sort.

Lemma sort_ext {A} (f g : A → A → Z) (l : list A) :
  (∀ a b, f a b = g a b) → JSArray.sort f l = JSArray.sort g l.
Proof.
  intros Hfg. induction l as [|x l IH]; [done|].
  rewrite !sort_cons, IH. generalize (JSArray.sort g l). intros sorted.
  induction sorted as [|y sorted IH']; simpl; [done|]. by rewrite Hfg, IH'.
Qed.

Section indexOf.
Context {A : Type} (eqb : A → A → bool).
Hypothesis eqb_spec : ∀ x y, eqb x y = true ↔ x = y.

Lemma indexOfFrom_notin i x l :
  ¬ In x l → JSArray.indexOfFrom eqb i x l = -1.
Proof.
  revert i. induction l as [|y l IH]; intros i Hnot; simpl; [done|].
  destruct (eqb y x) eqn:Heq.
  - apply eqb_spec in Heq. destruct Hnot. by left.
  - apply IH. intros Hin. apply Hnot. by right.
Qed.

Lemma indexOfFrom_in i x l :
  In x l →
  i <= JSArray.indexOfFrom eqb i x l < i + Z.of_nat (length l).
Proof.
  revert i. induction l as [|y l IH]; intros i Hin; simpl; [done|].
  destruct (eqb y x) eqn:Heq; [lia|].
  destruct Hin as [-> | Hin].
  - assert (eqb x x = true) by by apply eqb_spec. congruence.
  - specialize (IH (i + 1) Hin). lia.
Qed.

Lemma indexOfFrom_app i x pre l :
  ¬ In x pre →
  JSArray.indexOfFrom eqb i x (pre ++ l)
  = JSArray.indexOfFrom eqb (i + Z.of_nat (length pre)) x l.
Proof.
  revert i. induction pre as [|y pre IH]; intros i Hnot; simpl.
  - f_equal. lia.
  - destruct (eqb y x) eqn:Heq.
    + apply eqb_spec in Heq. destruct Hnot. by left.
    + rewrite IH by (intros ?; apply Hnot; by right). f_equal. lia.
Qed.

(** The element at an index is the first of its kind exactly when
    [indexOf] answers that index. *)
Lemma indexOf_at pre x l :
  (JSArray.indexOf eqb x (pre ++ x :: l) =? Z.of_nat (length pre))
  = negb (existsb (eqb x) pre).
Proof.
  unfold JSArray.indexOf. destruct (existsb (eqb x) pre) eqn:Hex; simpl.
  - apply existsb_exists in Hex as (y & Hy & Heq). apply eqb_spec in Heq. subst y.
    apply Z.eqb_neq.
    assert (0 <= JSArray.indexOfFrom eqb 0 x pre < 0 + Z.of_nat (length pre))
      as Hrange by by apply indexOfFrom_in.
    assert (JSArray.indexOfFrom eqb 0 x (pre ++ x :: l)
            = JSArray.indexOfFrom eqb 0 x pre) as ->; [|lia].
    clear Hrange. generalize 0. induction pre as [|y pre IH]; intros i; [done|].
    simpl. destruct (eqb y x) eqn:Heq; [done|]. apply IH.
    destruct Hy as [-> | Hy]; [|done].
    assert (eqb x x = true) by by apply eqb_spec. congruence.
  - apply Z.eqb_eq. rewrite indexOfFrom_app.
    + simpl. assert (eqb x x = true) as -> by by apply eqb_spec. lia.
    + intros Hin. apply not_true_iff_false in Hex. apply Hex.
      apply existsb_exists. exists x. split; [done | by apply eqb_spec].
Qed.
End indexOf.

Section dedup.
Context {A : Type} (key : A → string).

Lemma string_eqb_iff (x y : string) : String.eqb x y = true ↔ x = y.
Proof. apply String.eqb_eq. Qed.

Lemma existsb_eqb_In (k : string) (seen : list string) :
  existsb (String.eqb k) seen = true ↔ In k seen.
Proof.
  rewrite existsb_exists. split.
  - intros (y & Hy & Heq). apply String.eqb_eq in Heq. by subst y.
  - intros Hin. exists k. split; [done | apply String.eqb_refl].
Qed.

(** Filtering on [indexOf(key) === idx] keeps the first occurrence of each
    key. *)
Lemma filterFrom_indexOf pre l :
  JSArray.filterFrom
    (λ x idx, JSArray.indexOf String.eqb (key x) (map key (pre ++ l)) =? idx)
    (Z.of_nat (length pre)) l
  = JSArray.dedupFirst key (map key pre) l.
Proof.
  revert pre. induction l as [|x l IH]; intros pre; simpl; [done|].
  rewrite map_app. simpl.
  rewrite <- (length_map key pre) at 1.
  rewrite (indexOf_at String.eqb string_eqb_iff).
  specialize (IH (pre ++ [x])).
  rewrite length_app, Nat2Z.inj_add, <- app_assoc in IH.
  rewrite !map_app in IH. simpl in IH. change (Z.of_nat 1) with 1 in IH.
  destruct (existsb (String.eqb (key x)) (map key pre)); simpl; by rewrite <- IH.
Qed.

Lemma filterIdx_indexOf l :
  JSArray.filterIdx
    (λ x idx, JSArray.indexOf String.eqb (key x) (map key l) =? idx) l
  = JSArray.dedupFirst key [] l.
Proof. apply (filterFrom_indexOf []). Qed.

Lemma dedupFirst_In seen l x :
  In x (JSArray.dedupFirst key seen l) → In x l ∧ ¬ In (key x) seen.
Proof.
  revert seen. induction l as [|y l IH]; intros seen; simpl; [done|].
  destruct (existsb (String.eqb (key y)) seen) eqn:Hex.
  - intros Hin. apply IH in Hin as [Hin Hseen]. split; [by right|].
    intros Hs. apply Hseen, in_or_app. by left.
  - intros [-> | Hin].
    + split; [by left|]. rewrite <- existsb_eqb_In. by rewrite Hex.
    + apply IH in Hin as [Hin Hseen]. split; [by right|].
      intros Hs. apply Hseen, in_or_app. by left.
Qed.

Lemma dedupFirst_NoDup seen l : NoDup (map key (JSArray.dedupFirst key seen l)).
Proof.
  revert seen. induction l as [|y l IH]; intros seen; simpl; [constructor|].
  destruct (existsb (String.eqb (key y)) seen); [done|].
  simpl. constructor; [|done].
  intros Hin. apply list_elem_of_In, in_map_iff in Hin as (x & Hkey & Hin).
  apply dedupFirst_In in Hin as [_ Hseen]. apply Hseen, in_or_app.
  right. left. done.
Qed.

(** Every key of the array is seen or kept. *)
Lemma dedupFirst_covers seen l x :
  In x l → In (key x) seen ∨ In (key x) (map key (JSArray.dedupFirst key seen l)).
Proof.
  revert seen. induction l as [|y l IH]; intros seen; simpl; [done|].
  intros [-> | Hin].
  - destruct (existsb (String.eqb (key x)) seen) eqn:Hex.
    + left. by apply existsb_eqb_In.
    + right. by left.
  - destruct (IH (seen ++ [key y]) Hin) as [Hseen | Hkept].
    + apply in_app_or in Hseen as [Hseen | [Heq | []]]; [by left|].
      destruct (existsb (String.eqb (key y)) seen) eqn:Hex.
      * left. rewrite <- Heq. by apply existsb_eqb_In.
      * right. by left.
    + right. destruct (existsb (String.eqb (key y)) seen); [done | by right].
Qed.

(** An array without duplicate keys is left as it is. *)
Lemma dedupFirst_id seen l :
  NoDup (map key l) → (∀ x, In x l → ¬ In (key x) seen) →
  JSArray.dedupFirst key seen l = l.
Proof.
  revert seen. induction l as [|y l IH]; intros seen Hnodup Hseen; simpl; [done|].
  apply NoDup_cons in Hnodup as [Hy Hnodup].
  assert (existsb (String.eqb (key y)) seen = false) as ->.
  { apply not_true_iff_false. rewrite existsb_eqb_In. apply Hseen. by left. }
  f_equal. apply IH; [done|]. intros x Hx Hin.
  apply in_app_or in Hin as [Hin | [Heq | []]].
  - apply (Hseen x); [by right | done].
  - apply Hy. rewrite Heq. apply list_elem_of_In, in_map. done.
Qed.

Lemma dedupFirst_idempotent l :
  JSArray.dedupFirst key [] (JSArray.dedupFirst key [] l) = JSArray.dedupFirst key [] l.
Proof. apply dedupFirst_id; [apply dedupFirst_NoDup | by intros x _ []]. Qed.
End dedup.

(** *** A [Map] filled by [reduce] *)

Section reduce.
Context {A V : Type} (key : A → string) (val : A → V).

Lemma find_app_first (f : A → bool) (l1 l2 : list A) :
  List.find f (l1 ++ l2)
  = match List.find f l1 with Some x => Some x | None => List.find f l2 end.
Proof. induction l1 as [|x l1 IH]; simpl; [done|]. by destruct (f x). Qed.

(** The entry of a key is set by the last element with that key. *)
Lemma foldl_insert_lookup (l : list A) (init : gmap string V) n :
  foldl (λ map x, <[key x := val x]> map) init l !! n
  = match List.find (λ x, String.eqb (key x) n) (rev l) with
    | Some x => Some (val x)
    | None => init !! n
    end.
Proof.
  revert init. induction l as [|x l IH]; intros init; simpl; [done|].
  rewrite IH, find_app_first.
  destruct (List.find _ (rev l)) as [last|]; [done|]. simpl.
  destruct (String.eqb_spec (key x) n) as [->|Hne].
  - by rewrite lookup_insert_eq.
  - by rewrite lookup_insert_ne.
Qed.

Lemma foldl_insert_Some (l : list A) n v :
  foldl (λ map x, <[key x := val x]> map) (∅ : gmap string V) l !! n = Some v →
  ∃ x, In x l ∧ key x = n ∧ val x = v.
Proof.
  rewrite foldl_insert_lookup.
  destruct (List.find _ _) as [x|] eqn:Hfind; [|done]. intros [= <-].
  apply find_some in Hfind as [Hin Hkey]. exists x.
  split; [by apply in_rev | split; [by apply String.eqb_eq | done]].
Qed.

Lemma foldl_insert_None (l : list A) n :
  foldl (λ map x, <[key x := val x]> map) (∅ : gmap string V) l !! n = None →
  ∀ x, In x l → key x ≠ n.
Proof.
  rewrite foldl_insert_lookup.
  destruct (List.find _ _) as [?|] eqn:Hfind; [done|]. intros _ x Hin Hkey.
  apply in_rev in Hin. pose proof (find_none _ _ Hfind x Hin) as Hno.
  simpl in Hno. by apply String.eqb_neq in Hno.
Qed.

Lemma NoDup_map_inj (l : list A) a b :
  NoDup (map key l) → In a l → In b l → key a = key b → a = b.
Proof.
  induction l as [|x l IH]; simpl; [done|]. intros Hnodup Ha Hb Hkey.
  apply NoDup_cons in Hnodup as [Hx Hnodup].
  destruct Ha as [-> | Ha], Hb as [-> | Hb]; [done | | | by apply IH].
  - destruct Hx. rewrite Hkey. by apply list_elem_of_In, in_map.
  - destruct Hx. rewrite <- Hkey. by apply list_elem_of_In, in_map.
Qed.

(** With distinct keys every element sets its own entry. *)
Lemma foldl_insert_unique (l : list A) x :
  NoDup (map key l) → In x l →
  foldl (λ map x, <[key x := val x]> map) (∅ : gmap string V) l !! key x = Some (val x).
Proof.
  intros Hnodup Hin.
  destruct (foldl (λ map x, <[key x := val x]> map) (∅ : gmap string V) l !! key x) as [v|] eqn:Hlook.
  - apply foldl_insert_Some in Hlook as (y & Hy & Hkey & <-).
    by rewrite (NoDup_map_inj l y x).
  - by destruct (foldl_insert_None l (key x) Hlook x Hin).
Qed.
End reduce.

Lemma NoDup_map_filter {A} (key : A → string) (p : A → bool) (l : list A) :
  NoDup (map key l) → NoDup (map key (List.filter p l)).
Proof.
  induction l as [|x l IH]; simpl; [done|]. intros Hnodup.
  apply NoDup_cons in Hnodup as [Hx Hnodup].
  destruct (p x); simpl; [|by apply IH]. apply NoDup_cons. split; [|by apply IH].
  intros Hin. apply Hx. apply list_elem_of_In, in_map_iff in Hin as (y & Hkey & Hy).
  apply filter_In in Hy as [Hy _]. rewrite <- Hkey. by apply list_elem_of_In, in_map.
Qed.

Lemma NoDup_map_perm {A} (key : A → string) (l l' : list A) :
  Permutation l l' → NoDup (map key l') → NoDup (map key l).
Proof.
  intros Hperm Hnodup. pose proof (Permutation_map key Hperm) as Hmap.
  by rewrite Hmap.
Qed.

(** The comparison by code units is a consistent comparator. *)
Lemma codeUnitCompare_consistent : Consistent Examples.codeUnitCompare.
Proof.
  split.
  - intros a. induction a as [|x a IH]; intros [|y b]; simpl; try lia.
    destruct (Z.eqb_spec (Z.of_nat (nat_of_ascii x) - Z.of_nat (nat_of_ascii y)) 0),
      (Z.eqb_spec (Z.of_nat (nat_of_ascii y) - Z.of_nat (nat_of_ascii x)) 0);
      try lia.
    apply IH.
  - intros a. induction a as [|x a IH]; intros [|y b] [|z c]; simpl; try lia.
    destruct (Z.eqb_spec (Z.of_nat (nat_of_ascii x) - Z.of_nat (nat_of_ascii y)) 0),
      (Z.eqb_spec (Z.of_nat (nat_of_ascii y) - Z.of_nat (nat_of_ascii z)) 0),
      (Z.eqb_spec (Z.of_nat (nat_of_ascii x) - Z.of_nat (nat_of_ascii z)) 0);
      try lia.
    apply IH.
Qed.
End JSArrayFacts.

(** ** Parent classes *)

Module DATModelFacts.

Lemma Forall2_map_self {A B} (R : A → B → Prop) (f : A → B) (l : list A) :
  (∀ x, R x (f x)) → Forall2 R l (map f l).
Proof. intros HR. induction l; simpl; by constructor. Qed.

Lemma Forall2_self {A} (R : A → A → Prop) (l : list A) :
  (∀ x, R x x) → Forall2 R l l.
Proof. intros HR. induction l; by constructor. Qed.

Lemma filter_partition_perm {A} (p : A → bool) (l : list A) :
  Permutation (List.filter p l ++ List.filter (λ x, negb (p x)) l) l.
Proof.
  induction l as [|x l IH]; simpl; [done|].
  destruct (p x); simpl.
  - by constructor.
  - rewrite <- Permutation_middle. by constructor.
Qed.

Lemma filter_disjoint_perm {A} (p q : A → bool) (l : list A) :
  (∀ x, p x && q x = false) →
  Permutation (List.filter p l ++ List.filter q l) (List.filter (λ x, p x || q x) l).
Proof.
  intros Hdisj. induction l as [|x l IH]; simpl; [done|].
  specialize (Hdisj x). destruct (p x), (q x); simpl in *; try done.
  - by constructor.
  - rewrite <- Permutation_middle. by constructor.
Qed.

(** A clone is taken by the first parent game that bears the name it refers
    to, provided no earlier parent game did. *)
Lemma clonesOf_filter seen p clones :
  DATModel.clonesOf seen p clones
  = List.filter
      (λ c, String.eqb (Game.getParent c) (Game.getName p)
            && negb (bool_decide (Game.getParent c ∈ seen)))
      clones.
Proof.
  unfold DATModel.clonesOf. case_bool_decide as Hseen.
  - induction clones as [|c clones IH]; simpl; [done|].
    destruct (String.eqb_spec (Game.getParent c) (Game.getName p)) as [Heq|_]; [|done].
    rewrite Heq, bool_decide_eq_true_2 by done. done.
  - apply filter_ext_in. intros c _.
    destruct (String.eqb_spec (Game.getParent c) (Game.getName p)) as [Heq|_]; [|done].
    rewrite Heq, bool_decide_eq_false_2 by done. done.
Qed.

Lemma parentClasses_games seen parents clones :
  Permutation
    (flat_map Parent.getGames (DATModel.parentClasses seen parents clones))
    (parents
       ++ List.filter
            (λ c, existsb (λ p, String.eqb (Game.getParent c) (Game.getName p)) parents
                  && negb (bool_decide (Game.getParent c ∈ seen)))
            clones).
Proof.
  revert seen. induction parents as [|p ps IH]; intros seen; simpl.
  - induction clones as [|c clones IHc]; simpl; done.
  - constructor. rewrite IH, clonesOf_filter.
    rewrite Permutation_app_comm, <- app_assoc. apply Permutation_app_head.
    rewrite Permutation_app_comm, filter_disjoint_perm.
    + apply Permutation_refl'. apply filter_ext. intros c.
      destruct (String.eqb_spec (Game.getParent c) (Game.getName p)) as [Heq|Hne]; simpl.
      * rewrite (bool_decide_eq_true_2 (Game.getParent c ∈ Game.getName p :: seen))
          by (rewrite Heq; by left).
        simpl. by rewrite andb_false_r, orb_false_r.
      * destruct (existsb _ ps); simpl; [|done].
        apply f_equal, bool_decide_ext. rewrite elem_of_cons.
        split; [by intros [?|?] | by right].
    + intros c.
      destruct (String.eqb_spec (Game.getParent c) (Game.getName p)) as [Heq|Hne];
        simpl; [|done].
      rewrite (bool_decide_eq_true_2 (Game.getParent c ∈ Game.getName p :: seen))
        by (rewrite Heq; by left).
      simpl. by rewrite andb_false_r, andb_false_r.
Qed.

(** Every game belongs to exactly one parent class. *)
Lemma classGames_perm dat : Permutation (DATModel.classGames dat) (DAT.getGames dat).
Proof.
  unfold DATModel.classGames, DATModel.getParents. cbv zeta.
  rewrite flat_map_app, parentClasses_games.
  set (parents := List.filter Game.isParent (DAT.getGames dat)).
  set (clones := List.filter Game.isClone (DAT.getGames dat)).
  assert (flat_map Parent.getGames
            (map (λ c, Parent.mk (Game.getName c) [c])
                 (List.filter (DATModel.isOrphan parents) clones))
          = List.filter (DATModel.isOrphan parents) clones) as ->.
  { induction (List.filter _ clones) as [|c l IH]; simpl; [done | by rewrite IH]. }
  rewrite <- app_assoc.
  assert (Permutation
            (List.filter
               (λ c, existsb (λ p, String.eqb (Game.getParent c) (Game.getName p)) parents
                     && negb (bool_decide (Game.getParent c ∈ [])))
               clones
             ++ List.filter (DATModel.isOrphan parents) clones)
            clones) as ->.
  { rewrite <- (filter_partition_perm
                 (λ c, existsb (λ p, String.eqb (Game.getParent c) (Game.getName p))
                         parents) clones) at 3.
    apply Permutation_app; apply Permutation_refl'; apply filter_ext; intros c.
    - rewrite bool_decide_eq_false_2 by apply not_elem_of_nil. simpl.
      by rewrite andb_true_r.
    - done. }
  subst parents clones.
  rewrite <- (filter_partition_perm Game.isClone (DAT.getGames dat)) at 3.
  rewrite Permutation_app_comm. apply Permutation_app; [done|].
  apply Permutation_refl'. apply filter_ext. intros g. unfold Game.isParent. done.
Qed.

Lemma classGames_length dat :
  length (DATModel.classGames dat) = length (DAT.getGames dat).
Proof. apply Permutation_length, classGames_perm. Qed.

(** In every class only the first game can be a parent game. *)
Lemma parentClasses_tail seen parents clones cls :
  Forall (λ c, Game.isClone c = true) clones →
  In cls (DATModel.parentClasses seen parents clones) →
  Forall (λ c, Game.isClone c = true) (tail (Parent.getGames cls)).
Proof.
  intros Hclones. revert seen. induction parents as [|p ps IH]; intros seen; simpl; [done|].
  intros [<- | Hin]; [|by eapply IH]. simpl. rewrite clonesOf_filter.
  rewrite Forall_forall in *. intros c Hc. apply Hclones.
  apply list_elem_of_In in Hc. apply list_elem_of_In.
  by apply filter_In in Hc as [? _].
Qed.

Lemma getParents_tail dat cls :
  In cls (DATModel.getParents dat) →
  Forall (λ c, Game.isClone c = true) (tail (Parent.getGames cls)).
Proof.
  unfold DATModel.getParents. cbv zeta. intros Hin.
  apply in_app_or in Hin as [Hin | Hin].
  - eapply parentClasses_tail; [|done].
    rewrite Forall_forall. intros c Hc. apply list_elem_of_In in Hc.
    by apply filter_In in Hc as [_ ?].
  - apply in_map_iff in Hin as (c & <- & _). simpl. constructor.
Qed.



(** *** The classes of a DAT whose games stand in class order *)

Lemma filter_map_comm {A B} (p : B → bool) (q : A → bool) (f : A → B) (l : list A) :
  (∀ x, p (f x) = q x) → List.filter p (map f l) = map f (List.filter q l).
Proof.
  intros Hpq. induction l as [|x l IH]; simpl; [done|].
  rewrite Hpq. destruct (q x); simpl; by rewrite IH.
Qed.

Lemma filter_filter {A} (p q : A → bool) (l : list A) :
  List.filter p (List.filter q l) = List.filter (λ x, q x && p x) l.
Proof.
  induction l as [|x l IH]; simpl; [done|].
  destruct (q x); simpl; [|done]. destruct (p x); by rewrite IH.
Qed.

Lemma filter_none {A} (p : A → bool) (l : list A) :
  (∀ x, In x l → p x = false) → List.filter p l = [].
Proof.
  induction l as [|x l IH]; intros Hp; simpl; [done|].
  rewrite (Hp x) by (by left). apply IH. intros y Hy. apply Hp. by right.
Qed.

Lemma filter_all {A} (p : A → bool) (l : list A) :
  (∀ x, In x l → p x = true) → List.filter p l = l.
Proof.
  induction l as [|x l IH]; intros Hp; simpl; [done|].
  rewrite (Hp x) by (by left). f_equal. apply IH. intros y Hy. apply Hp. by right.
Qed.

Lemma named_In (n : string) (parents : list Game.t) :
  existsb (λ p, String.eqb n (Game.getName p)) parents = true
  ↔ In n (map Game.getName parents).
Proof.
  rewrite existsb_exists, in_map_iff. split.
  - intros (p & Hp & Heq). apply String.eqb_eq in Heq. by exists p.
  - intros (p & Heq & Hp). exists p. split; [done|]. by apply String.eqb_eq.
Qed.

(** The clones of the classes that refer to the name [n]. *)
Lemma cloneGroups_named seen parents clones n :
  List.filter (λ c, String.eqb (Game.getParent c) n)
              (DATModel.cloneGroups seen parents clones)
  = if existsb (λ p, String.eqb n (Game.getName p)) parents
       && negb (bool_decide (n ∈ seen))
    then List.filter (λ c, String.eqb (Game.getParent c) n) clones
    else [].
Proof.
  unfold DATModel.cloneGroups.
  revert seen. induction parents as [|p ps IH]; intros seen; simpl; [done|].
  rewrite List.filter_app, IH, clonesOf_filter, filter_filter.
  destruct (String.eqb_spec n (Game.getName p)) as [->|Hne]; simpl.
  - rewrite (bool_decide_eq_true_2 (Game.getName p ∈ Game.getName p :: seen))
      by (by left).
    rewrite andb_false_r, app_nil_r.
    destruct (bool_decide_reflect (Game.getName p ∈ seen)) as [Hseen|Hseen]; simpl.
    + apply filter_none. intros c _.
      destruct (String.eqb_spec (Game.getParent c) (Game.getName p)) as [->|]; [|done].
      by rewrite bool_decide_eq_true_2.
    + apply filter_ext. intros c.
      destruct (String.eqb_spec (Game.getParent c) (Game.getName p)) as [->|]; [|done].
      by rewrite bool_decide_eq_false_2.
  - rewrite (filter_none _ clones).
    + simpl. destruct (existsb _ ps); [|done]. simpl.
      destruct (bool_decide_reflect (n ∈ seen)) as [Hseen|Hseen].
      * by rewrite bool_decide_eq_true_2 by (by right).
      * rewrite bool_decide_eq_false_2; [done|].
        rewrite elem_of_cons. by intros [?|?].
    + intros c _.
      destruct (String.eqb_spec (Game.getParent c) (Game.getName p)) as [Hc|];
        [|done].
      destruct (String.eqb_spec (Game.getParent c) n) as [Hn|]; [|by rewrite andb_false_r].
      congruence.
Qed.

Lemma cloneGroups_In seen parents clones c :
  In c (DATModel.cloneGroups seen parents clones) →
  In c clones ∧ In (Game.getParent c) (map Game.getName parents).
Proof.
  unfold DATModel.cloneGroups.
  revert seen. induction parents as [|p ps IH]; intros seen; simpl; [done|].
  intros Hin. apply in_app_or in Hin as [Hin | Hin].
  - rewrite clonesOf_filter in Hin. apply filter_In in Hin as [Hin Hc].
    apply andb_true_iff in Hc as [Hc _]. apply String.eqb_eq in Hc.
    split; [done | by left].
  - apply IH in Hin as [? ?]. split; [done | by right].
Qed.

Lemma parentClasses_ext seen parents clones clones' :
  (∀ p, In p parents →
     List.filter (λ c, String.eqb (Game.getParent c) (Game.getName p)) clones'
     = List.filter (λ c, String.eqb (Game.getParent c) (Game.getName p)) clones) →
  DATModel.parentClasses seen parents clones'
  = DATModel.parentClasses seen parents clones.
Proof.
  revert seen. induction parents as [|p ps IH]; intros seen Hsame; simpl; [done|].
  rewrite IH by (intros q Hq; apply Hsame; by right).
  unfold DATModel.clonesOf. by rewrite Hsame by (by left).
Qed.

Lemma isOrphan_false parents c :
  In (Game.getParent c) (map Game.getName parents) → DATModel.isOrphan parents c = false.
Proof.
  intros Hin. unfold DATModel.isOrphan. apply negb_false_iff. by apply named_In.
Qed.

Lemma classes_games_split seen parents clones :
  Forall (λ p, Game.isParent p = true) parents →
  Forall (λ c, Game.isClone c = true) clones →
  List.filter Game.isParent
    (flat_map Parent.getGames (DATModel.parentClasses seen parents clones)) = parents
  ∧ List.filter Game.isClone
      (flat_map Parent.getGames (DATModel.parentClasses seen parents clones))
    = DATModel.cloneGroups seen parents clones.
Proof.
  intros Hparents Hclones. unfold DATModel.cloneGroups. revert seen.
  induction Hparents as [|p ps Hp _ IH]; intros seen; simpl; [done|].
  destruct (IH (Game.getName p :: seen)) as [IHp IHc].
  assert (Forall (λ c, Game.isClone c = true) (DATModel.clonesOf seen p clones))
    as Hgroup.
  { rewrite clonesOf_filter. rewrite Forall_forall in *. intros c Hc.
    apply Hclones. apply list_elem_of_In in Hc. apply list_elem_of_In.
    by apply filter_In in Hc as [? _]. }
  rewrite !List.filter_app, IHp, IHc, Hp.
  unfold Game.isParent in Hp. apply negb_true_iff in Hp. rewrite Hp.
  split.
  - rewrite filter_none; [done|]. intros c Hc. unfold Game.isParent.
    rewrite Forall_forall in Hgroup. rewrite (Hgroup c); [done|].
    by apply list_elem_of_In.
  - rewrite filter_all; [done|]. intros c Hc.
    rewrite Forall_forall in Hgroup. apply Hgroup. by apply list_elem_of_In.
Qed.

(** The classes only read the names and the parents of the games, and the
    games of a DAT in class order form the same classes. *)
Lemma getParents_classGames header header' games :
  DATModel.getParents (DAT.mk header' (DATModel.classGames (DAT.mk header games)))
  = DATModel.getParents (DAT.mk header games).
Proof.
  unfold DATModel.classGames, DATModel.getParents. cbv zeta. simpl.
  set (parents := List.filter Game.isParent games).
  set (clones := List.filter Game.isClone games).
  set (orphans := List.filter (DATModel.isOrphan parents) clones).
  assert (Forall (λ p, Game.isParent p = true) parents) as Hparents.
  { rewrite Forall_forall. intros p Hp. apply list_elem_of_In in Hp.
    by apply filter_In in Hp as [_ ?]. }
  assert (Forall (λ c, Game.isClone c = true) clones) as Hclones.
  { rewrite Forall_forall. intros c Hc. apply list_elem_of_In in Hc.
    by apply filter_In in Hc as [_ ?]. }
  assert (∀ c, In c orphans → Game.isClone c = true ∧ DATModel.isOrphan parents c = true)
    as Horphans.
  { intros c Hc. apply filter_In in Hc as [Hc ?]. split; [|done].
    by apply filter_In in Hc as [_ ?]. }
  assert (flat_map Parent.getGames
            (map (λ c, Parent.mk (Game.getName c) [c]) orphans) = orphans) as Hflat.
  { clear. induction orphans as [|c l IH]; simpl; [done | by rewrite IH]. }
  rewrite flat_map_app, Hflat, !List.filter_app.
  destruct (classes_games_split [] parents clones Hparents Hclones) as [-> ->].
  rewrite (filter_none Game.isParent orphans), app_nil_r.
  2: { intros c Hc. unfold Game.isParent. by rewrite (proj1 (Horphans c Hc)). }
  rewrite (filter_all Game.isClone orphans) by (intros c Hc; by apply Horphans).
  f_equal.
  - apply parentClasses_ext. intros p Hp.
    rewrite List.filter_app, cloneGroups_named.
    assert (existsb (λ q, String.eqb (Game.getName p) (Game.getName q)) parents = true)
      as ->.
    { apply named_In, in_map. done. }
    simpl. rewrite (filter_none _ orphans), app_nil_r; [done|].
    intros c Hc. destruct (String.eqb_spec (Game.getParent c) (Game.getName p)) as [Heq|];
      [|done].
    destruct (Horphans c Hc) as [_ Horphan].
    rewrite isOrphan_false in Horphan; [done|]. rewrite Heq. by apply in_map.
  - f_equal.
    rewrite (filter_none _ (DATModel.cloneGroups [] parents clones)).
    + simpl. apply filter_all. intros c Hc. by apply Horphans.
    + intros c Hc. apply cloneGroups_In in Hc as [_ Hc]. by apply isOrphan_false.
Qed.

Lemma classGames_classGames header header' games :
  DATModel.classGames (DAT.mk header' (DATModel.classGames (DAT.mk header games)))
  = DATModel.classGames (DAT.mk header games).
Proof.
  unfold DATModel.classGames at 1. by rewrite getParents_classGames.
Qed.

Lemma parentClasses_map (f : Game.t → Game.t) seen parents clones :
  (∀ g, Game.sameIdentity (f g) g) →
  DATModel.parentClasses seen (map f parents) (map f clones)
  = map (λ cls, Parent.mk (Parent.getName cls) (map f (Parent.getGames cls)))
        (DATModel.parentClasses seen parents clones).
Proof.
  intros Hf. revert seen. induction parents as [|p ps IH]; intros seen; simpl; [done|].
  destruct (Hf p) as (Hname & _). rewrite Hname, IH. do 2 f_equal.
  unfold DATModel.clonesOf. rewrite Hname.
  destruct (bool_decide _); [done|]. simpl. f_equal.
  apply filter_map_comm. intros c. by destruct (Hf c) as (_ & -> & _).
Qed.

(** Changing the ROMs of the games does not change the classes. *)
Lemma classGames_map (f : Game.t → Game.t) header header' games :
  (∀ g, Game.sameIdentity (f g) g) →
  DATModel.classGames (DAT.mk header' (map f games))
  = map f (DATModel.classGames (DAT.mk header games)).
Proof.
  intros Hf. unfold DATModel.classGames, DATModel.getParents. cbv zeta. simpl.
  assert (∀ g, Game.isClone (f g) = Game.isClone g) as Hclone.
  { intros g. destruct (Hf g) as (_ & Hparent & _). unfold Game.isClone.
    by rewrite Hparent. }
  assert (∀ g, Game.isParent (f g) = Game.isParent g) as Hparent.
  { intros g. unfold Game.isParent. by rewrite Hclone. }
  rewrite (filter_map_comm _ Game.isParent f games Hparent).
  rewrite (filter_map_comm _ Game.isClone f games Hclone).
  set (parents := List.filter Game.isParent games).
  set (clones := List.filter Game.isClone games).
  rewrite (filter_map_comm _ (DATModel.isOrphan parents) f clones).
  2: { intros c. unfold DATModel.isOrphan. f_equal.
       destruct (Hf c) as (_ & -> & _).
       induction parents as [|p ps IH]; simpl; [done|].
       destruct (Hf p) as (-> & _). by rewrite IH. }
  rewrite parentClasses_map by done.
  rewrite !flat_map_app, map_app. f_equal.
  - induction (DATModel.parentClasses [] parents clones) as [|cls l IH]; simpl; [done|].
    by rewrite IH, map_app.
  - induction (List.filter _ clones) as [|c l IH]; simpl; [done | by rewrite IH].
Qed.
End DATModelFacts.

(** ** How [sort] and the removal of duplicates go together *)

Module SortAlgebra.
Section sort.
Context {A : Type} (compareFn : A → A → Z) `{!Consistent compareFn}.

Lemma after_before x y : compareFn x y > 0 → compareFn y x <= 0.
Proof. intros Hgt. destruct (consistent_total x y); [lia | done]. Qed.

(** Two insertions of elements that do not tie commute. *)
Lemma insert_comm x y l :
  compareFn x y > 0 →
  JSArray.insert compareFn y (JSArray.insert compareFn x l)
  = JSArray.insert compareFn x (JSArray.insert compareFn y l).
Proof.
  intros Hxy. pose proof (after_before x y Hxy) as Hyx.
  induction l as [|u l IH]; cbn [JSArray.insert].
  - destruct (Z.leb_spec (compareFn y x) 0); [|lia].
    by destruct (Z.leb_spec (compareFn x y) 0); [lia|].
  - destruct (Z.leb_spec (compareFn x u) 0) as [Hxu|Hxu]; cbn [JSArray.insert].
    + pose proof (consistent_trans y x u Hyx Hxu) as Hyu.
      destruct (Z.leb_spec (compareFn y x) 0); [|lia].
      destruct (Z.leb_spec (compareFn y u) 0); [|lia]. cbn [JSArray.insert].
      destruct (Z.leb_spec (compareFn x y) 0); [lia|].
      by destruct (Z.leb_spec (compareFn x u) 0); [|lia].
    + destruct (Z.leb_spec (compareFn y u) 0) as [Hyu|Hyu]; cbn [JSArray.insert].
      * destruct (Z.leb_spec (compareFn x y) 0); [lia|].
        by destruct (Z.leb_spec (compareFn x u) 0); [lia|].
      * destruct (Z.leb_spec (compareFn x u) 0); [lia|]. by rewrite IH.
Qed.

Lemma foldr_insert_insert x sorted l :
  foldr (JSArray.insert compareFn) l (JSArray.insert compareFn x sorted)
  = JSArray.insert compareFn x (foldr (JSArray.insert compareFn) l sorted).
Proof.
  induction sorted as [|y sorted IH]; [done|]. cbn [JSArray.insert].
  destruct (Z.leb_spec (compareFn x y) 0) as [Hle|Hgt]; [reflexivity|].
  cbn [fold_right]. rewrite IH. apply insert_comm. lia.
Qed.

Lemma sort_app l1 l2 :
  JSArray.sort compareFn (l1 ++ l2)
  = foldr (JSArray.insert compareFn) (JSArray.sort compareFn l2) l1.
Proof. unfold JSArray.sort. by rewrite foldr_app. Qed.

(** Sorting a part of an array beforehand changes nothing. *)
Lemma sort_sort_app l1 l2 :
  JSArray.sort compareFn (JSArray.sort compareFn l1 ++ l2)
  = JSArray.sort compareFn (l1 ++ l2).
Proof.
  rewrite !sort_app. generalize (JSArray.sort compareFn l2). intros sorted.
  induction l1 as [|x l1 IH]; [done|].
  rewrite JSArrayFacts.sort_cons, foldr_insert_insert, IH. done.
Qed.

Lemma sort_app_sort l1 l2 :
  JSArray.sort compareFn (l1 ++ JSArray.sort compareFn l2)
  = JSArray.sort compareFn (l1 ++ l2).
Proof. by rewrite !sort_app, JSArrayFacts.sort_idempotent. Qed.

Lemma sort_flat_map_sort {B} (f : B → list A) (l : list B) (rest : list A) :
  JSArray.sort compareFn
    (flat_map (λ x, JSArray.sort compareFn (f x)) l ++ rest)
  = JSArray.sort compareFn (flat_map f l ++ rest).
Proof.
  induction l as [|x l IH]; [done|]. cbn [flat_map].
  rewrite <- !app_assoc, sort_sort_app.
  by rewrite (sort_app (f x)), IH, <- sort_app.
Qed.

(** An element that may stand before all others is inserted in front. *)
Lemma insert_first x l :
  (∀ y, In y l → compareFn x y <= 0) →
  JSArray.insert compareFn x l = x :: l.
Proof.
  destruct l as [|y l]; [done|]. intros Hall. cbn [JSArray.insert].
  destruct (Z.leb_spec (compareFn x y) 0) as [Hle|Hgt]; [done|].
  specialize (Hall y (or_introl eq_refl)). lia.
Qed.

Lemma sorted_head x l y :
  Sorted (JSArray.before compareFn) (x :: l) → In y l → compareFn x y <= 0.
Proof.
  intros Hsorted Hin.
  apply Sorted_StronglySorted in Hsorted; [|by apply JSArrayFacts.before_trans].
  apply StronglySorted_inv in Hsorted as [_ Hall].
  rewrite List.Forall_forall in Hall. by apply Hall.
Qed.

(** Filtering and sorting commute. *)
Lemma filter_insert (p : A → bool) x l :
  Sorted (JSArray.before compareFn) l →
  List.filter p (JSArray.insert compareFn x l)
  = if p x then JSArray.insert compareFn x (List.filter p l) else List.filter p l.
Proof.
  induction 1 as [|y l Hsorted IH Hhd]; [by simpl; destruct (p x)|].
  cbn [JSArray.insert].
  destruct (Z.leb_spec (compareFn x y) 0) as [Hle|Hgt].
  - cbn [List.filter]. destruct (p x); [|done].
    rewrite insert_first; [done|]. intros z Hz.
    assert (In z (y :: l)) as [<- | Hzl]; [| done |].
    { destruct (p y); [|by right; apply filter_In in Hz as [? _]].
      destruct Hz as [<- | Hz]; [by left|].
      right. by apply filter_In in Hz as [? _]. }
    apply (consistent_trans x y z); [done|].
    by apply (sorted_head y l z); [constructor|].
  - cbn [List.filter]. rewrite IH.
    destruct (p x), (p y); try done. cbn [JSArray.insert].
    by destruct (Z.leb_spec (compareFn x y) 0); [lia|].
Qed.

Lemma filter_sort (p : A → bool) l :
  List.filter p (JSArray.sort compareFn l)
  = JSArray.sort compareFn (List.filter p l).
Proof.
  induction l as [|x l IH]; [done|].
  rewrite JSArrayFacts.sort_cons, filter_insert by by apply JSArrayFacts.sort_sorted.
  cbn [List.filter]. destruct (p x); [|done].
  by rewrite JSArrayFacts.sort_cons, IH.
Qed.
End sort.

Section dedup.
Context {A : Type} (key : A → string).

(** What was seen before only filters what is kept. *)
Lemma dedupFirst_filter seen1 seen2 l :
  JSArray.dedupFirst key (seen1 ++ seen2) l
  = List.filter (λ x, negb (existsb (String.eqb (key x)) seen1))
      (JSArray.dedupFirst key seen2 l).
Proof.
  revert seen2. induction l as [|x l IH]; intros seen2; [done|].
  cbn [JSArray.dedupFirst]. rewrite existsb_app, <- app_assoc, IH.
  destruct (existsb (String.eqb (key x)) seen2) eqn:Hseen2.
  - by rewrite orb_true_r.
  - rewrite orb_false_r. cbn [List.filter].
    by destruct (existsb (String.eqb (key x)) seen1).
Qed.

Lemma dedupFirst_seen seen l :
  JSArray.dedupFirst key seen l
  = List.filter (λ x, negb (existsb (String.eqb (key x)) seen))
      (JSArray.dedupFirst key [] l).
Proof. by rewrite <- dedupFirst_filter, app_nil_r. Qed.

Lemma dedupFirst_seen_ext seen seen' l :
  (∀ n, In n seen ↔ In n seen') →
  JSArray.dedupFirst key seen l = JSArray.dedupFirst key seen' l.
Proof.
  intros Hsame. rewrite (dedupFirst_seen seen), (dedupFirst_seen seen').
  apply filter_ext. intros x. f_equal. apply eq_true_iff_eq.
  by rewrite !JSArrayFacts.existsb_eqb_In.
Qed.

Lemma dedupFirst_app seen l1 l2 :
  JSArray.dedupFirst key seen (l1 ++ l2)
  = JSArray.dedupFirst key seen l1
    ++ JSArray.dedupFirst key (seen ++ map key l1) l2.
Proof.
  revert seen. induction l1 as [|x l1 IH]; intros seen.
  - by rewrite app_nil_r.
  - cbn [app JSArray.dedupFirst map]. rewrite IH, <- app_assoc.
    by destruct (existsb (String.eqb (key x)) seen).
Qed.

Lemma dedupFirst_all_seen seen l :
  (∀ x, In x l → In (key x) seen) → JSArray.dedupFirst key seen l = [].
Proof.
  intros Hall. rewrite dedupFirst_seen. apply DATModelFacts.filter_none.
  intros x Hx. apply JSArrayFacts.dedupFirst_In in Hx as [Hx _].
  apply negb_false_iff, JSArrayFacts.existsb_eqb_In. by apply Hall.
Qed.

(** The keys that are kept are the keys of the array. *)
Lemma dedupFirst_keys l n :
  In n (map key (JSArray.dedupFirst key [] l)) ↔ In n (map key l).
Proof.
  rewrite !in_map_iff. split.
  - intros (x & Hkey & Hin). exists x. split; [done|].
    by apply JSArrayFacts.dedupFirst_In in Hin as [? _].
  - intros (x & <- & Hin).
    destruct (JSArrayFacts.dedupFirst_covers key [] l x Hin) as [[]|Hkept].
    by apply in_map_iff in Hkept.
Qed.

Lemma dedupFirst_dedupFirst seen l :
  JSArray.dedupFirst key seen (JSArray.dedupFirst key [] l)
  = JSArray.dedupFirst key seen l.
Proof.
  by rewrite (dedupFirst_seen seen), JSArrayFacts.dedupFirst_idempotent,
    <- dedupFirst_seen.
Qed.

(** Removing the duplicates of the parts of an array beforehand changes
    nothing. *)
Lemma dedupFirst_flat_map {B} (f : B → list A) (l : list B) (rest : list A) seen :
  JSArray.dedupFirst key seen
    (flat_map (λ x, JSArray.dedupFirst key [] (f x)) l ++ rest)
  = JSArray.dedupFirst key seen (flat_map f l ++ rest).
Proof.
  revert seen. induction l as [|x l IH]; intros seen; [done|].
  cbn [flat_map]. rewrite <- !app_assoc, !(dedupFirst_app seen).
  rewrite dedupFirst_dedupFirst, IH. f_equal.
  apply dedupFirst_seen_ext. intros n. rewrite !in_app_iff.
  by rewrite dedupFirst_keys.
Qed.

(** After an array, what is kept of the array and more is what is kept of
    the more. *)
Lemma dedupFirst_after l more :
  JSArray.dedupFirst key (map key l) (JSArray.dedupFirst key [] (l ++ more))
  = JSArray.dedupFirst key (map key l) more.
Proof.
  rewrite (dedupFirst_app [] l more), dedupFirst_app. cbn [app].
  rewrite dedupFirst_all_seen.
  2: { intros x Hx. apply dedupFirst_keys, in_map, Hx. }
  cbn [app]. apply JSArrayFacts.dedupFirst_id; [apply JSArrayFacts.dedupFirst_NoDup|].
  intros x Hx Hin. apply JSArrayFacts.dedupFirst_In in Hx as [_ Hfresh].
  apply Hfresh. apply in_app_or in Hin as [Hin | Hin]; [done|].
  by apply dedupFirst_keys.
Qed.

Section sorted.
Context (compareFn : A → A → Z) `{!Consistent compareFn}.
Hypothesis same_key_ties : ∀ x y, key x = key y → compareFn x y <= 0.

Lemma dedupFirst_sorted seen l :
  Sorted (JSArray.before compareFn) l →
  Sorted (JSArray.before compareFn) (JSArray.dedupFirst key seen l).
Proof.
  rewrite dedupFirst_seen. intros Hsorted.
  apply JSArrayFacts.sorted_filter; [done|].
  apply Sorted_StronglySorted in Hsorted; [|by apply JSArrayFacts.before_trans].
  apply StronglySorted_Sorted. clear seen.
  generalize (@nil string).
  induction Hsorted as [|x l Hsorted IH Hall]; intros seen; [constructor|].
  cbn [JSArray.dedupFirst].
  destruct (existsb (String.eqb (key x)) seen); [apply IH|].
  constructor; [apply IH|]. rewrite List.Forall_forall in *. intros y Hy.
  apply Hall. by apply JSArrayFacts.dedupFirst_In in Hy as [? _].
Qed.

Lemma dedupFirst_cons x l :
  JSArray.dedupFirst key [] (x :: l)
  = x :: List.filter (λ y, negb (existsb (String.eqb (key y)) [key x]))
           (JSArray.dedupFirst key [] l).
Proof. by rewrite <- dedupFirst_seen. Qed.

Lemma dedupFirst_insert x l :
  Sorted (JSArray.before compareFn) l →
  JSArray.dedupFirst key [] (JSArray.insert compareFn x l)
  = JSArray.insert compareFn x
      (List.filter (λ y, negb (existsb (String.eqb (key y)) [key x]))
         (JSArray.dedupFirst key [] l)).
Proof.
  induction 1 as [|y l Hsorted IH Hhd]; [done|].
  cbn [JSArray.insert].
  destruct (Z.leb_spec (compareFn x y) 0) as [Hle|Hgt].
  - rewrite dedupFirst_cons. symmetry. apply (SortAlgebra.insert_first compareFn).
    intros z Hz. apply filter_In in Hz as [Hz _].
    apply JSArrayFacts.dedupFirst_In in Hz as [Hz _].
    destruct Hz as [<- | Hz]; [done|].
    apply (consistent_trans x y z); [done|].
    by apply (SortAlgebra.sorted_head compareFn y l z); [constructor|].
  - assert (key y ≠ key x) as Hkey.
    { intros Heq. specialize (same_key_ties x y (eq_sym Heq)). lia. }
    rewrite !dedupFirst_cons, IH.
    rewrite SortAlgebra.filter_insert; [|done|].
    2: { apply JSArrayFacts.sorted_filter; [done|]. by apply dedupFirst_sorted. }
    cbn [existsb List.filter]. rewrite !orb_false_r.
    rewrite (proj2 (String.eqb_neq (key x) (key y))) by done.
    rewrite (proj2 (String.eqb_neq (key y) (key x))) by done.
    cbn [negb JSArray.insert].
    destruct (Z.leb_spec (compareFn x y) 0); [lia|]. do 2 f_equal.
    rewrite !DATModelFacts.filter_filter. apply filter_ext. intros z.
    apply andb_comm.
Qed.

(** Removing duplicates and sorting commute. *)
Lemma dedupFirst_sort l :
  JSArray.dedupFirst key [] (JSArray.sort compareFn l)
  = JSArray.sort compareFn (JSArray.dedupFirst key [] l).
Proof.
  induction l as [|x l IH]; [done|].
  rewrite JSArrayFacts.sort_cons, dedupFirst_insert
    by by apply JSArrayFacts.sort_sorted.
  rewrite IH, SortAlgebra.filter_sort by done.
  by rewrite dedupFirst_cons, JSArrayFacts.sort_cons.
Qed.

Lemma dedupFirst_seen_sort seen l :
  JSArray.dedupFirst key seen (JSArray.sort compareFn l)
  = JSArray.sort compareFn (JSArray.dedupFirst key seen l).
Proof.
  rewrite (dedupFirst_seen seen), dedupFirst_sort, SortAlgebra.filter_sort by done.
  by rewrite <- dedupFirst_seen.
Qed.

(** Sanitizing an array that was put together from sanitized parts and the
    sanitized whole gives the sanitized whole. *)
Lemma sanitized_again {B} (f : B → list A) (parts : list B) (own : list A) :
  let sanitized l := JSArray.sort compareFn (JSArray.dedupFirst key [] l) in
  let whole := JSArray.sort compareFn (flat_map f parts ++ own) in
  sanitized
    (JSArray.sort compareFn (flat_map (λ x, sanitized (f x)) parts ++ sanitized whole))
  = sanitized whole.
Proof.
  intros sanitized whole. subst sanitized whole. cbv beta.
  set (all := flat_map f parts).
  assert (JSArray.sort compareFn
            (JSArray.dedupFirst key [] (JSArray.sort compareFn (all ++ own)))
          = JSArray.sort compareFn (JSArray.dedupFirst key [] (all ++ own)))
    as Hwhole.
  { by rewrite dedupFirst_sort, JSArrayFacts.sort_idempotent. }
  rewrite Hwhole.
  rewrite (SortAlgebra.sort_flat_map_sort compareFn
             (λ x, JSArray.dedupFirst key [] (f x))) by done.
  rewrite dedupFirst_sort, JSArrayFacts.sort_idempotent by done.
  rewrite dedupFirst_flat_map. fold all.
  rewrite (dedupFirst_app [] all). cbn [app].
  rewrite dedupFirst_seen_sort, dedupFirst_after.
  rewrite SortAlgebra.sort_app_sort by done.
  by rewrite (dedupFirst_app [] all own).
Qed.
End sorted.
End dedup.
End SortAlgebra.

(** ** ROM diff *)

Module DiffSpec.
Section diff.
Context `{RomHasher}.

Lemma parentRomNamesToHashCodes_lookup parent n :
  DATMergerSplitter.parentRomNamesToHashCodes parent !! n
  = hashCode <$> List.find (λ rom, String.eqb (ROM.getName rom) n)
                   (rev (Game.getRoms parent)).
Proof.
  unfold DATMergerSplitter.parentRomNamesToHashCodes.
  rewrite (JSArrayFacts.foldl_insert_lookup ROM.getName hashCode).
  by destruct (List.find _ _).
Qed.

Lemma parentRomNamesToHashCodes_Some parent n h :
  DATMergerSplitter.parentRomNamesToHashCodes parent !! n = Some h →
  ∃ rom, In rom (Game.getRoms parent) ∧ ROM.getName rom = n ∧ hashCode rom = h.
Proof.
  rewrite parentRomNamesToHashCodes_lookup.
  destruct (List.find _ _) as [rom|] eqn:Hfind; [|done]. intros [= <-].
  apply find_some in Hfind as [Hin Hname]. exists rom.
  split; [by apply in_rev | split; [by apply String.eqb_eq | done]].
Qed.

Lemma parentRomNamesToHashCodes_None parent n :
  DATMergerSplitter.parentRomNamesToHashCodes parent !! n = None ↔
  ∀ rom, In rom (Game.getRoms parent) → ROM.getName rom ≠ n.
Proof.
  rewrite parentRomNamesToHashCodes_lookup. split.
  - destruct (List.find _ _) as [?|] eqn:Hfind; [done|]. intros _ rom Hin Hname.
    apply in_rev in Hin. pose proof (find_none _ _ Hfind rom Hin) as Hno.
    simpl in Hno. by apply String.eqb_neq in Hno.
  - intros Hnone. destruct (List.find _ _) as [rom|] eqn:Hfind; [|done].
    apply find_some in Hfind as [Hin Hname].
    apply in_rev in Hin. apply String.eqb_eq in Hname. by destruct (Hnone rom).
Qed.

Lemma keepRom_true (names : gmap string string) rom :
  (∀ n, names !! n ≠ Some EmptyString) →
  DATMergerSplitter.keepRom names rom = true
  ↔ names !! default (ROM.getName rom) (ROM.getMerge rom) ≠ Some (hashCode rom).
Proof.
  intros Hfull. unfold DATMergerSplitter.keepRom. cbv zeta.
  destruct (names !! default _ _) as [h|] eqn:Hlook; [|done].
  destruct (String.eqb_spec h EmptyString) as [->|_]; [by destruct (Hfull _ Hlook)|].
  destruct (String.eqb_spec h (hashCode rom)) as [->|Hne]; simpl.
  - split; [done | by intros []].
  - split; [by intros _ [= ?] | done].
Qed.

(** C2. With [names] the name-to-hash-code map built from the reference
    game (for each name, the hash code of the last ROM of that name),
    [diffGameRoms] keeps, in order, exactly the ROMs of the subject game
    whose effective name [merge ?? name] has no entry in [names] or an
    entry that differs from the ROM's hash code, and drops the others, as
    long as no ROM of the reference game has the empty hash code (which
    JavaScript takes for a missing entry).  On the scenario "SPLIT diff"
    the clone is left with the ROMs [b] and [c]. *)
Theorem diffGameRoms_keeps (R S : Game.t) :
  (∀ rom, In rom (Game.getRoms R) → hashCode rom ≠ EmptyString) →
  let names := DATMergerSplitter.parentRomNamesToHashCodes R in
  let e := λ rom, default (ROM.getName rom) (ROM.getMerge rom) in
  (∀ n, names !! n
        = hashCode <$> List.find (λ rom, String.eqb (ROM.getName rom) n)
                         (rev (Game.getRoms R)))
  ∧ DATMergerSplitter.diffGameRoms R S
    = List.filter (λ rom, bool_decide (names !! e rom ≠ Some (hashCode rom)))
                  (Game.getRoms S)
  ∧ (∀ rom, In rom (DATMergerSplitter.diffGameRoms R S) ↔
            In rom (Game.getRoms S)
            ∧ (names !! e rom = None
               ∨ ∃ h, names !! e rom = Some h ∧ h ≠ hashCode rom))
  ∧ (∀ rom, In rom (Game.getRoms S) →
            ¬ In rom (DATMergerSplitter.diffGameRoms R S) →
            names !! e rom = Some (hashCode rom))
  ∧ @DATMergerSplitter.diffGameRoms Examples.hasher Examples.splitP Examples.splitC
    = [Examples.rom "b" "H3"; Examples.rom "c" "H4"]
  ∧ DAT.getGames
      (@DATMergerSplitter.merge Examples.hasher Examples.collator (Some SPLIT)
         Examples.splitDat)
    = [ Game.withRoms [Examples.rom "a" "H1"; Examples.rom "b" "H2"] Examples.splitP;
        Game.withRoms [Examples.rom "b" "H3"; Examples.rom "c" "H4"] Examples.splitC ].
Proof.
  intros Hfull names e.
  assert (∀ n, names !! n ≠ Some EmptyString) as Hnames.
  { intros n Hn. apply parentRomNamesToHashCodes_Some in Hn as (rom & Hin & _ & Hh).
    by apply (Hfull rom). }
  assert (∀ rom, DATMergerSplitter.keepRom names rom
                 = bool_decide (names !! e rom ≠ Some (hashCode rom))) as Hkeep.
  { intros rom. apply eq_true_iff_eq.
    by rewrite keepRom_true, bool_decide_eq_true. }
  assert (∀ rom, In rom (DATMergerSplitter.diffGameRoms R S) ↔
                 In rom (Game.getRoms S) ∧ names !! e rom ≠ Some (hashCode rom))
    as Hin.
  { intros rom. unfold DATMergerSplitter.diffGameRoms.
    by rewrite filter_In, keepRom_true. }
  split; [apply parentRomNamesToHashCodes_lookup|].
  split; [by apply filter_ext|].
  split; [|split; [|split]].
  - intros rom. rewrite Hin. split; intros [HS Hne]; (split; [done|]).
    + destruct (names !! e rom) as [h|]; [right | by left].
      exists h. split; [done | by intros ->].
    + destruct Hne as [-> | (h & -> & Hne)]; [done | by intros [= ->]].
  - intros rom HS Hout.
    destruct (decide (names !! e rom = Some (hashCode rom))) as [|Hne]; [done|].
    destruct Hout. by apply Hin.
  - by vm_compute.
  - by vm_compute.
Qed.

End diff.

Lemma diffGameRoms_keeps_witness :
@DATMergerSplitter.diffGameRoms Examples.hasher Examples.splitP Examples.splitC
= List.filter
    (λ rom, bool_decide
              (@DATMergerSplitter.parentRomNamesToHashCodes Examples.hasher
                 Examples.splitP
                 !! default (ROM.getName rom) (ROM.getMerge rom)
               ≠ Some (Examples.hasher rom)))
    (Game.getRoms Examples.splitC).
Proof.
refine (proj1 (proj2
  (@diffGameRoms_keeps Examples.hasher Examples.splitP Examples.splitC _))).
intros rom Hin. simpl in Hin.
destruct Hin as [<- | [<- | []]]; by vm_compute.
Defined.
End DiffSpec.

(** ** DAT merger/splitter *)

Module MergeFacts.
Section facts.
Context `{RomHasher} `{Collator}.
Variable getMergeRoms : option MergeMode.

Lemma sameIdentity_withRoms roms g : Game.sameIdentity (Game.withRoms roms g) g.
Proof. by repeat split. Qed.

Lemma sameIdentity_trans a b c : Game.sameIdentity a b → Game.sameIdentity b c → Game.sameIdentity a c.
Proof.
  intros (? & ? & ? & ? & ?) (? & ? & ? & ? & ?). repeat split; congruence.
Qed.

Lemma sameIdentity_refl a : Game.sameIdentity a a.
Proof. by repeat split. Qed.

Lemma sanitize_identity g : Game.sameIdentity (DATMergerSplitter.sanitize g) g.
Proof. apply sameIdentity_withRoms. Qed.

Lemma includeDeviceRoms_identity names g :
  Game.sameIdentity (DATMergerSplitter.includeDeviceRoms names g) g.
Proof.
  unfold DATMergerSplitter.includeDeviceRoms.
  destruct (negb _); [apply sameIdentity_refl | apply sameIdentity_withRoms].
Qed.

Lemma excludeBiosRoms_identity names g :
  Game.sameIdentity (DATMergerSplitter.excludeBiosRoms names g) g.
Proof.
  unfold DATMergerSplitter.excludeBiosRoms.
  destruct (String.eqb _ _); [apply sameIdentity_refl|].
  destruct (names !! _); [apply sameIdentity_withRoms | apply sameIdentity_refl].
Qed.

Lemma excludeParentRoms_identity names g :
  Game.sameIdentity (DATMergerSplitter.excludeParentRoms names g) g.
Proof.
  unfold DATMergerSplitter.excludeParentRoms.
  destruct (String.eqb _ _); [apply sameIdentity_refl|].
  destruct (names !! _); [apply sameIdentity_withRoms | apply sameIdentity_refl].
Qed.

Lemma reshapeGame_identity names g :
  Game.sameIdentity (DATMergerSplitter.reshapeGame getMergeRoms names g) g.
Proof.
  unfold DATMergerSplitter.reshapeGame. cbv zeta.
  repeat match goal with
  | |- Game.sameIdentity (if ?b then _ else _) _ => destruct b
  | |- Game.sameIdentity (DATMergerSplitter.excludeParentRoms _ _) _ =>
      eapply sameIdentity_trans; [apply excludeParentRoms_identity|]
  | |- Game.sameIdentity (DATMergerSplitter.excludeBiosRoms _ _) _ =>
      eapply sameIdentity_trans; [apply excludeBiosRoms_identity|]
  | |- Game.sameIdentity (DATMergerSplitter.includeDeviceRoms _ _) _ =>
      eapply sameIdentity_trans; [apply includeDeviceRoms_identity|]
  end; apply sanitize_identity.
Qed.

Lemma sameIdentity_isClone a b : Game.sameIdentity a b → Game.isClone a = Game.isClone b.
Proof. intros (_ & Hparent & _). unfold Game.isClone. by rewrite Hparent. Qed.


Lemma reshape_map names games :
  DATMergerSplitter.reshape getMergeRoms names games
  = map (DATMergerSplitter.reshapeGame getMergeRoms names) games.
Proof.
  unfold DATMergerSplitter.reshape, DATMergerSplitter.reshapeGame. cbv zeta.
  destruct (DATMergerSplitter.isMode getMergeRoms FULLNONMERGED); simpl;
    destruct (DATMergerSplitter.isMode getMergeRoms SPLIT
              || DATMergerSplitter.isMode getMergeRoms MERGED);
    by rewrite !map_map.
Qed.

(** The games of a class come out in their order, as only the first game of
    a class can be a parent game. *)
Lemma find_filter_class (games : list Game.t) :
  Forall (λ c, Game.isClone c = true) (tail games) →
  match List.find Game.isParent games with
  | Some p => p :: List.filter Game.isClone games
  | None => List.filter Game.isClone games
  end = games.
Proof.
  destruct games as [|g cs]; simpl; [done|]. intros Hclones.
  assert (List.filter Game.isClone cs = cs ∧ List.find Game.isParent cs = None)
    as [Hcs Hnone].
  { induction Hclones as [|c cs Hc _ [IHf IHn]]; simpl; [done|].
    unfold Game.isParent at 1. by rewrite Hc, IHf, IHn. }
  rewrite Hnone, Hcs. unfold Game.isParent. by destruct (Game.isClone g).
Qed.

Lemma mergeParent_not_merged parent names :
  getMergeRoms ≠ Some MERGED →
  Forall (λ c, Game.isClone c = true) (tail (Parent.getGames parent)) →
  DATMergerSplitter.mergeParent getMergeRoms parent names
  = map (DATMergerSplitter.reshapeGame getMergeRoms names) (Parent.getGames parent).
Proof.
  intros Hmode Htail. unfold DATMergerSplitter.mergeParent. cbv zeta.
  unfold DATMergerSplitter.isMode at 1. rewrite bool_decide_eq_false_2 by done. simpl.
  rewrite reshape_map. apply find_filter_class.
  destruct (Parent.getGames parent) as [|g cs]; simpl in *; [done|].
  apply Forall_map. eapply Forall_impl; [done|]. intros c Hc. simpl.
  by rewrite (sameIdentity_isClone _ c) by apply reshapeGame_identity.
Qed.

Lemma merge_not_merged mode dat :
  getMergeRoms = Some mode → mode ≠ MERGED →
  DATModel.hasParentCloneInfo dat = true →
  DAT.getGames (DATMergerSplitter.merge getMergeRoms dat)
  = map (DATMergerSplitter.reshapeGame getMergeRoms
           (DATMergerSplitter.gameNamesToGames dat))
        (DATModel.classGames dat).
Proof.
  intros Hmode Hne Hinfo. unfold DATMergerSplitter.merge. rewrite Hmode, Hinfo. simpl.
  rewrite <- Hmode. unfold DATModel.classGames.
  pose proof (DATModelFacts.getParents_tail dat) as Htail.
  induction (DATModel.getParents dat) as [|cls classes IH]; simpl; [done|].
  rewrite map_app, <- IH by (intros c Hc; apply Htail; by right).
  f_equal. apply mergeParent_not_merged; [congruence|]. apply Htail. by left.
Qed.

Lemma merge_unchanged dat :
  getMergeRoms = None ∨ DATModel.hasParentCloneInfo dat = false →
  DATMergerSplitter.merge getMergeRoms dat = dat.
Proof.
  unfold DATMergerSplitter.merge. intros [-> | Hinfo]; [done|].
  rewrite Hinfo. by destruct getMergeRoms.
Qed.
End facts.
End MergeFacts.

Module MergeSpec.
Section spec.
Context `{RomHasher} `{Collator}.

(** C7. Without a merge mode option, or on a DAT without parent/clone
    info, [merge] returns the DAT it was given: same header, same games,
    same order. *)
Theorem merge_returns_input (getMergeRoms : option MergeMode) (dat : DAT.t) :
  getMergeRoms = None ∨ DATModel.hasParentCloneInfo dat = false →
  DATMergerSplitter.merge getMergeRoms dat = dat.
Proof.
  intros Hskip. unfold DATMergerSplitter.merge.
  destruct getMergeRoms as [mode|]; [|done].
  destruct Hskip as [Hnone | ->]; [done | by simpl].
Qed.






End spec.

Lemma merge_returns_input_witness :
  @DATMergerSplitter.merge Examples.hasher Examples.collator None Examples.splitDat
  = Examples.splitDat
  ∧ @DATMergerSplitter.merge Examples.hasher Examples.collator (Some SPLIT)
      Examples.standaloneDat
    = Examples.standaloneDat.
Proof.
  split.
  - apply (@merge_returns_input Examples.hasher Examples.collator). by left.
  - apply (@merge_returns_input Examples.hasher Examples.collator). right.
    reflexivity.
Defined.

End MergeSpec.

(** ** Mode NONE *)

Module NoneSpec.
Section none.
Context `{RomHasher} `{Collator}.

Lemma sanitize_roms g :
  Game.getRoms (DATMergerSplitter.sanitize g)
  = JSArray.sort DATMergerSplitter.romSortFunc
      (JSArray.dedupFirst ROM.getName [] (Game.getRoms g)).
Proof.
  unfold DATMergerSplitter.sanitize. cbv zeta. simpl.
  by rewrite (JSArrayFacts.filterIdx_indexOf ROM.getName).
Qed.

Lemma excludeBiosRoms_roms names g :
  Game.getRoms (DATMergerSplitter.excludeBiosRoms names g)
  = match DATMergerSplitter.biosGameOf names g with
    | None => Game.getRoms g
    | Some biosGame =>
        JSArray.sort DATMergerSplitter.romSortFunc
          (DATMergerSplitter.diffGameRoms (DATMergerSplitter.biosOnly biosGame) g)
    end.
Proof.
  unfold DATMergerSplitter.excludeBiosRoms, DATMergerSplitter.biosGameOf.
  destruct (String.eqb _ _); [done|]. by destruct (names !! _).
Qed.

Lemma excludeParentRoms_roms names g :
  Game.getRoms (DATMergerSplitter.excludeParentRoms names g)
  = match DATMergerSplitter.parentGameOf names g with
    | None => Game.getRoms g
    | Some parentGame =>
        JSArray.sort DATMergerSplitter.romSortFunc
          (DATMergerSplitter.diffGameRoms parentGame g)
    end.
Proof.
  unfold DATMergerSplitter.excludeParentRoms, DATMergerSplitter.parentGameOf.
  destruct (String.eqb _ _); [done|]. by destruct (names !! _).
Qed.

Lemma biosGameOf_identity names a b :
  Game.sameIdentity a b →
  DATMergerSplitter.biosGameOf names a = DATMergerSplitter.biosGameOf names b.
Proof.
  intros (_ & _ & Hbios & _). unfold DATMergerSplitter.biosGameOf. by rewrite Hbios.
Qed.

Lemma reshapeGame_none names g :
  DATMergerSplitter.reshapeGame (Some NONE) names g
  = DATMergerSplitter.excludeBiosRoms names (DATMergerSplitter.sanitize g).
Proof. done. Qed.

(** The ROMs that NONE leaves to a game. *)
Lemma reshapeGame_none_In names g rom :
  In rom (Game.getRoms (DATMergerSplitter.reshapeGame (Some NONE) names g)) ↔
  In rom (JSArray.dedupFirst ROM.getName [] (Game.getRoms g))
  ∧ match DATMergerSplitter.biosGameOf names g with
    | None => True
    | Some biosGame =>
        DATMergerSplitter.keepRom
          (DATMergerSplitter.parentRomNamesToHashCodes
             (DATMergerSplitter.biosOnly biosGame)) rom = true
    end.
Proof.
  rewrite reshapeGame_none, excludeBiosRoms_roms.
  rewrite (biosGameOf_identity names _ g) by apply MergeFacts.sanitize_identity.
  destruct (DATMergerSplitter.biosGameOf names g) as [biosGame|].
  - rewrite JSArrayFacts.sort_In. unfold DATMergerSplitter.diffGameRoms.
    by rewrite filter_In, sanitize_roms, JSArrayFacts.sort_In.
  - rewrite sanitize_roms, JSArrayFacts.sort_In. by split; [|intros [? _]].
Qed.

Lemma reshapeGame_none_perm names g :
  DATMergerSplitter.biosGameOf names g = None →
  NoDup (map ROM.getName (Game.getRoms g)) →
  Permutation (Game.getRoms (DATMergerSplitter.reshapeGame (Some NONE) names g))
              (Game.getRoms g).
Proof.
  intros Hbios Hnames. rewrite reshapeGame_none, excludeBiosRoms_roms.
  rewrite (biosGameOf_identity names _ g), Hbios by apply MergeFacts.sanitize_identity.
  rewrite sanitize_roms, JSArrayFacts.sort_perm.
  rewrite JSArrayFacts.dedupFirst_id; [done | done | by intros ? _ []].
Qed.

(** C3 (amended). In mode NONE [merge] keeps the number of games and the
    identity of every game, and it only removes ROMs.  When the DAT has
    parent/clone info, a game is left with the first ROM of each name, less
    the ROMs that the diff against the BIOS ROMs of its BIOS game drops.  A
    game whose ROM names are distinct and that has no BIOS game in the DAT
    keeps its ROMs up to their order, hence its set of (name, hash code)
    pairs. *)
Theorem merge_none_conserves (dat : DAT.t) :
  let names := DATMergerSplitter.gameNamesToGames dat in
  let out := DATMergerSplitter.merge (Some NONE) dat in
  length (DAT.getGames out) = length (DAT.getGames dat)
  ∧ ∃ ordered,
      Permutation ordered (DAT.getGames dat)
      ∧ Forall2
          (λ game game',
             Game.sameIdentity game' game
             ∧ (∀ rom, In rom (Game.getRoms game') → In rom (Game.getRoms game))
             ∧ (DATMergerSplitter.biosGameOf names game = None →
                NoDup (map ROM.getName (Game.getRoms game)) →
                Permutation (Game.getRoms game') (Game.getRoms game)
                ∧ ∀ pair, In pair (DATMergerSplitter.romPairs game')
                          ↔ In pair (DATMergerSplitter.romPairs game))
             ∧ (DATModel.hasParentCloneInfo dat = true →
                ∀ rom,
                  In rom (Game.getRoms game') ↔
                  In rom (JSArray.dedupFirst ROM.getName [] (Game.getRoms game))
                  ∧ match DATMergerSplitter.biosGameOf names game with
                    | None => True
                    | Some biosGame =>
                        DATMergerSplitter.keepRom
                          (DATMergerSplitter.parentRomNamesToHashCodes
                             (DATMergerSplitter.biosOnly biosGame)) rom = true
                    end))
          ordered (DAT.getGames out).
Proof.
  intros names out.
  assert (∀ a b : Game.t, Permutation (Game.getRoms a) (Game.getRoms b) →
            ∀ pair, In pair (DATMergerSplitter.romPairs a)
                    ↔ In pair (DATMergerSplitter.romPairs b)) as Hpairs.
  { intros a b Hperm pair. unfold DATMergerSplitter.romPairs.
    split; apply Permutation_in; by rewrite Hperm. }
  destruct (DATModel.hasParentCloneInfo dat) eqn:Hinfo.
  - assert (DAT.getGames out
            = map (DATMergerSplitter.reshapeGame (Some NONE) names)
                  (DATModel.classGames dat)) as Hout.
    { by apply (MergeFacts.merge_not_merged (Some NONE) NONE). }
    rewrite Hout. split.
    + by rewrite length_map, DATModelFacts.classGames_length.
    + exists (DATModel.classGames dat).
      split; [apply DATModelFacts.classGames_perm|].
      apply DATModelFacts.Forall2_map_self. intros game.
      split; [apply MergeFacts.reshapeGame_identity|].
      split.
      { intros rom Hrom. apply reshapeGame_none_In in Hrom as [Hrom _].
        by apply JSArrayFacts.dedupFirst_In in Hrom as [? _]. }
      split.
      { intros Hbios Hnodup.
        pose proof (reshapeGame_none_perm names game Hbios Hnodup) as Hperm.
        split; [done | by apply Hpairs]. }
      intros _ rom. apply reshapeGame_none_In.
  - assert (out = dat) as -> by (apply MergeFacts.merge_unchanged; by right).
    split; [done|]. exists (DAT.getGames dat). split; [done|].
    apply DATModelFacts.Forall2_self. intros game.
    split; [apply MergeFacts.sameIdentity_refl|].
    split; [done|]. split; [|done]. intros _ _. split; [done | by apply Hpairs].
Qed.
End none.

(** C3 (as stated) fails: the game of [Examples.biosDat] loses the BIOS ROM
    that it shares with its BIOS game, and the game of [Examples.dupDat]
    loses the second of its two ROMs named a, whose checksum differs from
    the first. *)
Lemma merge_none_drops_bios_roms :
  ¬ @DATMergerSplitter.conserved Examples.hasher Examples.biosDat
      (@DATMergerSplitter.merge Examples.hasher Examples.collator (Some NONE)
         Examples.biosDat)
  ∧ ¬ @DATMergerSplitter.conserved Examples.hasher Examples.dupDat
        (@DATMergerSplitter.merge Examples.hasher Examples.collator (Some NONE)
           Examples.dupDat).
Proof.
  split.
  - intros [_ Hgames].
    destruct (Hgames Examples.biosG) as (game' & Hin & Hname & Hpairs).
    { right. by left. }
    assert (In ("bios.bin", "HB|1")%string (DATMergerSplitter.romPairs game'))
      as Hlost.
    { apply Hpairs. by left. }
    vm_compute in Hin.
    destruct Hin as [<- | [<- | [<- | []]]]; try discriminate Hname.
    vm_compute in Hlost. by destruct Hlost as [[=] | []].
  - intros [_ Hgames].
    destruct (Hgames Examples.dupG) as (game' & Hin & Hname & Hpairs).
    { by left. }
    assert (In ("a", "H2|1")%string (DATMergerSplitter.romPairs game')) as Hlost.
    { apply Hpairs. right. by left. }
    vm_compute in Hin.
    destruct Hin as [<- | [<- | []]]; try discriminate Hname.
    vm_compute in Hlost. by destruct Hlost as [[=] | []].
Qed.
End NoneSpec.

(** ** Sanitization *)

Module SanitizeSpec.

Lemma substring_all (s : string) : String.substring 0 (String.length s) s = s.
Proof. induction s as [|c s IH]; simpl; [done | by rewrite IH]. Qed.

Lemma replaceAllChar_none (s : string) :
  JSString.occurrences "-" s = 0%nat → JSString.replaceAllChar "-" "__" s = s.
Proof.
  induction s as [|c s IH]; simpl; [done|].
  destruct (Ascii.eqb c "-"); [done|]. intros Hs. by rewrite IH.
Qed.

(** With at most one hyphen, substituting the first hyphen substitutes every
    hyphen. *)
Lemma replace_single_hyphen (s : string) :
  (JSString.occurrences "-" s <= 1)%nat →
  JSString.replace "-" "__" s = JSString.replaceAllChar "-" "__" s.
Proof.
  induction s as [|c s IH]; [done|]. intros Hs.
  change (JSString.replace "-" "__" (String c s))
    with (if String.prefix "-" (String c s)
          then ("__" ++ String.substring 1 (String.length (String c s) - 1)
                          (String c s))%string
          else String c (JSString.replace "-" "__" s)).
  cbn [String.prefix]. simpl in Hs.
  destruct (ascii_dec "-" c) as [<-|Hc].
  - simpl in Hs |- *.
    rewrite Nat.sub_0_r, substring_all, replaceAllChar_none by lia.
    by destruct s.
  - cbn [JSString.replaceAllChar].
    destruct (Ascii.eqb_spec c "-") as [->|_]; [done|]. by rewrite IH by lia.
Qed.

Section sanitize.
Context `{RomHasher} `{Collator}.

(** C5 (amended). Sanitization first drops the ROMs whose name occurred
    before (the first occurrence stays), then sorts the others with
    [localeCompare] and [numeric] on the ROM name in which the hyphen is
    substituted by two underscores, here for names with at most one hyphen:
    the result is in that order (for a consistent comparator) and holds the
    same ROMs.  A name with a hyphen thus compares as the name with two
    underscores in its place; under a collation that sorts the underscore
    first, a-b comes before a_b. *)
Theorem sanitize_dedups_then_sorts `{!Consistent localeCompareNumeric} (game : Game.t) :
  let kept := JSArray.dedupFirst ROM.getName [] (Game.getRoms game) in
  let compare := λ a b, localeCompareNumeric (DATMergerSplitter.romNameFunc a)
                                             (DATMergerSplitter.romNameFunc b) in
  Game.getRoms (DATMergerSplitter.sanitize game) = JSArray.sort compare kept
  ∧ Permutation (Game.getRoms (DATMergerSplitter.sanitize game)) kept
  ∧ Sorted (JSArray.before compare) (Game.getRoms (DATMergerSplitter.sanitize game))
  ∧ NoDup (map ROM.getName kept)
  ∧ (∀ rom, In rom kept → In rom (Game.getRoms game))
  ∧ (∀ rom, In rom (Game.getRoms game) →
       ∃ first, In first kept ∧ ROM.getName first = ROM.getName rom)
  ∧ (∀ rom, (JSString.occurrences "-" (ROM.getName rom) <= 1)%nat →
       DATMergerSplitter.romNameFunc rom = DATMergerSplitter.romNameAllHyphens rom)
  ∧ map ROM.getName
      (Game.getRoms
         (@DATMergerSplitter.sanitize Examples.underscoreFirst Examples.underscoreGame))
    = ["a-b"; "a_b"]%string.
Proof.
  intros kept compare.
  assert (Game.getRoms (DATMergerSplitter.sanitize game) = JSArray.sort compare kept)
    as Hroms.
  { unfold DATMergerSplitter.sanitize. cbv zeta. simpl.
    by rewrite (JSArrayFacts.filterIdx_indexOf ROM.getName). }
  assert (Consistent compare) as Hcompare.
  { split; unfold compare.
    - intros a b. apply consistent_total.
    - intros a b c. apply consistent_trans. }
  rewrite Hroms.
  split; [done|]. split; [apply JSArrayFacts.sort_perm|].
  split; [by apply JSArrayFacts.sort_sorted|].
  split; [apply JSArrayFacts.dedupFirst_NoDup|].
  split; [intros rom Hrom; by apply JSArrayFacts.dedupFirst_In in Hrom as [? _]|].
  split.
  { intros rom Hrom.
    destruct (JSArrayFacts.dedupFirst_covers ROM.getName [] _ rom Hrom) as [[]|Hkept].
    apply in_map_iff in Hkept as (first & ? & ?). by exists first. }
  split; [|by vm_compute].
  intros rom Hrom. by apply replace_single_hyphen.
Qed.
End sanitize.

Lemma sanitize_dedups_then_sorts_witness :
  map ROM.getName
    (Game.getRoms (@DATMergerSplitter.sanitize Examples.collator Examples.splitC))
  = ["a"; "b"; "c"]%string.
Proof.
  rewrite (proj1 (@sanitize_dedups_then_sorts Examples.collator
                    JSArrayFacts.codeUnitCompare_consistent Examples.splitC)).
  reflexivity.
Defined.

(** C5 (as stated) fails.  [replace] with a string pattern substitutes the
    first hyphen only: the key of a-b-c is a__b-c and not a__b__c, and under
    a collation that sorts the underscore before the hyphen the ROMs a-b-c
    and a-b_c come out as a-b_c, a-b-c, where substituting every hyphen gives
    a-b-c, a-b_c.  And the substitution does not make hyphens sort after
    underscores: under that collation a-b comes before a_b. *)
Lemma sanitize_key_keeps_later_hyphens :
  DATMergerSplitter.romNameFunc (Examples.rom "a-b-c" "H1")
  ≠ DATMergerSplitter.romNameAllHyphens (Examples.rom "a-b-c" "H1")
  ∧ Game.getRoms
      (@DATMergerSplitter.sanitize Examples.underscoreFirst Examples.hyphenGame)
    ≠ @DATMergerSplitter.sanitizeAllHyphens Examples.underscoreFirst Examples.hyphenGame
  ∧ map ROM.getName
      (Game.getRoms
         (@DATMergerSplitter.sanitize Examples.underscoreFirst Examples.hyphenGame))
    = ["a-b_c"; "a-b-c"]%string
  ∧ map ROM.getName
      (@DATMergerSplitter.sanitizeAllHyphens Examples.underscoreFirst Examples.hyphenGame)
    = ["a-b-c"; "a-b_c"]%string
  ∧ map ROM.getName
      (Game.getRoms
         (@DATMergerSplitter.sanitize Examples.underscoreFirst Examples.underscoreGame))
    = ["a-b"; "a_b"]%string.
Proof.
  split; [by vm_compute|]. split; [|repeat split; by vm_compute].
  intros Heq. apply (f_equal (map ROM.getName)) in Heq. vm_compute in Heq.
  discriminate Heq.
Qed.
End SanitizeSpec.

(** ** Running the merger twice *)

Module IdempotenceSpec.
Section merged.
Context `{RomHasher} `{Collator}.

Lemma newMachine_not_clone games roms :
  Game.isClone (DATMergerSplitter.newMachine (List.find Game.isParent games) roms)
  = false.
Proof.
  destruct (List.find Game.isParent games) as [p|] eqn:Hfind; simpl; [|done].
  apply find_some in Hfind as [_ Hparent].
  unfold Game.isParent in Hparent. apply negb_true_iff in Hparent.
  by unfold Game.isClone in *.
Qed.

(** A merged DAT has no clone left. *)
Lemma merged_no_clones dat :
  DATModel.hasParentCloneInfo dat = true →
  DATModel.hasParentCloneInfo (DATMergerSplitter.merge (Some MERGED) dat) = false.
Proof.
  intros Hinfo. unfold DATMergerSplitter.merge. rewrite Hinfo. simpl.
  unfold DATModel.hasParentCloneInfo. simpl.
  induction (DATModel.getParents dat) as [|cls classes IH]; simpl; [done|].
  by rewrite newMachine_not_clone, IH.
Qed.

Lemma merged_idempotent dat :
  DATMergerSplitter.merge (Some MERGED) (DATMergerSplitter.merge (Some MERGED) dat)
  = DATMergerSplitter.merge (Some MERGED) dat.
Proof.
  destruct (DATModel.hasParentCloneInfo dat) eqn:Hinfo.
  - apply MergeFacts.merge_unchanged. right. by apply merged_no_clones.
  - by rewrite !(MergeFacts.merge_unchanged (Some MERGED) dat) by (by right).
Qed.
End merged.

Section stable.
Context `{RomHasher} `{Collator} `{!Consistent localeCompareNumeric}.

Lemma romSortFunc_consistent : Consistent DATMergerSplitter.romSortFunc.
Proof.
  split; unfold DATMergerSplitter.romSortFunc.
  - intros a b. apply consistent_total.
  - intros a b c. apply consistent_trans.
Qed.

Lemma withRoms_same roms g : roms = Game.getRoms g → Game.withRoms roms g = g.
Proof. intros ->. by destruct g. Qed.

Lemma excludeBiosRoms_alt names g :
  DATMergerSplitter.excludeBiosRoms names g
  = match DATMergerSplitter.biosGameOf names g with
    | None => g
    | Some biosGame =>
        Game.withRoms
          (JSArray.sort DATMergerSplitter.romSortFunc
             (DATMergerSplitter.diffGameRoms (DATMergerSplitter.biosOnly biosGame) g))
          g
    end.
Proof.
  unfold DATMergerSplitter.excludeBiosRoms, DATMergerSplitter.biosGameOf.
  destruct (String.eqb _ _); [done|]. by destruct (names !! _).
Qed.

Lemma excludeParentRoms_alt names g :
  DATMergerSplitter.excludeParentRoms names g
  = match DATMergerSplitter.parentGameOf names g with
    | None => g
    | Some parentGame =>
        Game.withRoms
          (JSArray.sort DATMergerSplitter.romSortFunc
             (DATMergerSplitter.diffGameRoms parentGame g))
          g
    end.
Proof.
  unfold DATMergerSplitter.excludeParentRoms, DATMergerSplitter.parentGameOf.
  destruct (String.eqb _ _); [done|]. by destruct (names !! _).
Qed.

(** *** What each step leaves unchanged *)

Lemma sanitize_fixed g : DATMergerSplitter.sanitized g → DATMergerSplitter.sanitize g = g.
Proof.
  intros [Hsorted Hnames]. unfold DATMergerSplitter.sanitize. cbv zeta.
  apply withRoms_same.
  rewrite (JSArrayFacts.filterIdx_indexOf ROM.getName).
  rewrite JSArrayFacts.dedupFirst_id; [|done | by intros ? _ []].
  by apply JSArrayFacts.sort_of_sorted.
Qed.

Lemma includeDeviceRoms_fixed names g :
  Game.getDeviceRefs g = [] → DATMergerSplitter.sanitized g →
  DATMergerSplitter.includeDeviceRoms names g = g.
Proof.
  intros Hrefs [Hsorted _]. unfold DATMergerSplitter.includeDeviceRoms.
  destruct (negb _); [done|]. apply withRoms_same. rewrite Hrefs. simpl.
  by apply JSArrayFacts.sort_of_sorted.
Qed.

Lemma diff_fixed reference g :
  DATMergerSplitter.sanitized g →
  (∀ rom, In rom (Game.getRoms g) →
     DATMergerSplitter.keepRom
       (DATMergerSplitter.parentRomNamesToHashCodes reference) rom = true) →
  JSArray.sort DATMergerSplitter.romSortFunc (DATMergerSplitter.diffGameRoms reference g)
  = Game.getRoms g.
Proof.
  intros [Hsorted _] Hkept. unfold DATMergerSplitter.diffGameRoms.
  rewrite DATModelFacts.filter_all by done. by apply JSArrayFacts.sort_of_sorted.
Qed.

Lemma excludeBiosRoms_fixed names g :
  DATMergerSplitter.sanitized g →
  (∀ biosGame rom,
     DATMergerSplitter.biosGameOf names g = Some biosGame →
     In rom (Game.getRoms g) →
     DATMergerSplitter.keepRom
       (DATMergerSplitter.parentRomNamesToHashCodes
          (DATMergerSplitter.biosOnly biosGame)) rom = true) →
  DATMergerSplitter.excludeBiosRoms names g = g.
Proof.
  intros Hclean Hkept. rewrite excludeBiosRoms_alt.
  destruct (DATMergerSplitter.biosGameOf names g) as [biosGame|]; [|done].
  apply withRoms_same, diff_fixed; [done|]. intros rom. by apply Hkept.
Qed.

Lemma excludeParentRoms_fixed names g :
  DATMergerSplitter.sanitized g →
  (∀ parentGame rom,
     DATMergerSplitter.parentGameOf names g = Some parentGame →
     In rom (Game.getRoms g) →
     DATMergerSplitter.keepRom
       (DATMergerSplitter.parentRomNamesToHashCodes parentGame) rom = true) →
  DATMergerSplitter.excludeParentRoms names g = g.
Proof.
  intros Hclean Hkept. rewrite excludeParentRoms_alt.
  destruct (DATMergerSplitter.parentGameOf names g) as [parentGame|]; [|done].
  apply withRoms_same, diff_fixed; [done|]. intros rom. by apply Hkept.
Qed.

(** *** What each step establishes *)

Lemma sanitize_sanitized g : DATMergerSplitter.sanitized (DATMergerSplitter.sanitize g).
Proof.
  unfold DATMergerSplitter.sanitized. rewrite NoneSpec.sanitize_roms. split.
  - apply JSArrayFacts.sort_sorted, romSortFunc_consistent.
  - eapply JSArrayFacts.NoDup_map_perm; [apply JSArrayFacts.sort_perm|].
    apply JSArrayFacts.dedupFirst_NoDup.
Qed.

Lemma sanitize_subset g rom :
  In rom (Game.getRoms (DATMergerSplitter.sanitize g)) → In rom (Game.getRoms g).
Proof.
  rewrite NoneSpec.sanitize_roms, JSArrayFacts.sort_In. intros Hin.
  by apply JSArrayFacts.dedupFirst_In in Hin as [? _].
Qed.

Lemma sorted_diff_sanitized reference g :
  DATMergerSplitter.sanitized g →
  DATMergerSplitter.sanitized
    (Game.withRoms
       (JSArray.sort DATMergerSplitter.romSortFunc
          (DATMergerSplitter.diffGameRoms reference g)) g).
Proof.
  intros [_ Hnames]. split; simpl.
  - apply JSArrayFacts.sort_sorted, romSortFunc_consistent.
  - eapply JSArrayFacts.NoDup_map_perm; [apply JSArrayFacts.sort_perm|].
    by apply JSArrayFacts.NoDup_map_filter.
Qed.

Lemma excludeBiosRoms_sanitized names g :
  DATMergerSplitter.sanitized g →
  DATMergerSplitter.sanitized (DATMergerSplitter.excludeBiosRoms names g).
Proof.
  intros Hclean. rewrite excludeBiosRoms_alt.
  destruct (DATMergerSplitter.biosGameOf names g); [|done].
  by apply sorted_diff_sanitized.
Qed.

Lemma excludeParentRoms_sanitized names g :
  DATMergerSplitter.sanitized g →
  DATMergerSplitter.sanitized (DATMergerSplitter.excludeParentRoms names g).
Proof.
  intros Hclean. rewrite excludeParentRoms_alt.
  destruct (DATMergerSplitter.parentGameOf names g); [|done].
  by apply sorted_diff_sanitized.
Qed.

Lemma excludeBiosRoms_In names g rom :
  In rom (Game.getRoms (DATMergerSplitter.excludeBiosRoms names g)) →
  In rom (Game.getRoms g)
  ∧ ∀ biosGame, DATMergerSplitter.biosGameOf names g = Some biosGame →
      DATMergerSplitter.keepRom
        (DATMergerSplitter.parentRomNamesToHashCodes
           (DATMergerSplitter.biosOnly biosGame)) rom = true.
Proof.
  rewrite NoneSpec.excludeBiosRoms_roms.
  destruct (DATMergerSplitter.biosGameOf names g) as [biosGame|]; [|done].
  rewrite JSArrayFacts.sort_In. unfold DATMergerSplitter.diffGameRoms.
  rewrite filter_In. intros [? ?]. split; [done|]. by intros ? [= <-].
Qed.

Lemma excludeParentRoms_In names g rom :
  In rom (Game.getRoms (DATMergerSplitter.excludeParentRoms names g)) →
  In rom (Game.getRoms g)
  ∧ ∀ parentGame, DATMergerSplitter.parentGameOf names g = Some parentGame →
      DATMergerSplitter.keepRom
        (DATMergerSplitter.parentRomNamesToHashCodes parentGame) rom = true.
Proof.
  rewrite NoneSpec.excludeParentRoms_roms.
  destruct (DATMergerSplitter.parentGameOf names g) as [parentGame|]; [|done].
  rewrite JSArrayFacts.sort_In. unfold DATMergerSplitter.diffGameRoms.
  rewrite filter_In. intros [? ?]. split; [done|]. by intros ? [= <-].
Qed.

(** *** The diff against a game that lost ROMs keeps what it kept before *)

Lemma keepRom_mono (m m' : gmap string string) rom :
  (∀ n h, m' !! n = Some h → m !! n = Some h) →
  DATMergerSplitter.keepRom m rom = true → DATMergerSplitter.keepRom m' rom = true.
Proof.
  intros Hsub. unfold DATMergerSplitter.keepRom. cbv zeta.
  destruct (m' !! _) as [h|] eqn:Hlook; [|done].
  by rewrite (Hsub _ _ Hlook).
Qed.

Lemma names_submap (smaller larger : Game.t) n h :
  MergeConditions.sameHashPerName larger →
  (∀ rom, In rom (Game.getRoms smaller) → In rom (Game.getRoms larger)) →
  DATMergerSplitter.parentRomNamesToHashCodes smaller !! n = Some h →
  DATMergerSplitter.parentRomNamesToHashCodes larger !! n = Some h.
Proof.
  intros Hsame Hsub Hlook. unfold DATMergerSplitter.parentRomNamesToHashCodes in *.
  apply (JSArrayFacts.foldl_insert_Some ROM.getName hashCode) in Hlook
    as (rom & Hin & <- & <-).
  destruct (foldl _ ∅ (Game.getRoms larger) !! ROM.getName rom) as [h|] eqn:Hlarger.
  - apply (JSArrayFacts.foldl_insert_Some ROM.getName hashCode) in Hlarger
      as (last & Hlast & Hname & <-).
    f_equal. apply Hsame; [done | by apply Hsub | done].
  - by destruct (JSArrayFacts.foldl_insert_None ROM.getName hashCode _ _ Hlarger rom
                   (Hsub rom Hin)).
Qed.

Lemma withRoms_identity roms a b :
  Game.sameIdentity a b → Game.withRoms roms a = Game.withRoms roms b.
Proof.
  intros (Hname & Hparent & Hbios & Hrefs & Hmachine). unfold Game.withRoms.
  by rewrite Hname, Hparent, Hbios, Hrefs, Hmachine.
Qed.

Lemma sanitize_alt g :
  DATMergerSplitter.sanitize g
  = Game.withRoms
      (JSArray.sort DATMergerSplitter.romSortFunc
         (JSArray.dedupFirst ROM.getName [] (Game.getRoms g))) g.
Proof.
  unfold DATMergerSplitter.sanitize. cbv zeta.
  by rewrite (JSArrayFacts.filterIdx_indexOf ROM.getName).
Qed.

Lemma same_name_ties (a b : ROM.t) :
  ROM.getName a = ROM.getName b → DATMergerSplitter.romSortFunc a b <= 0.
Proof.
  intros Hname. unfold DATMergerSplitter.romSortFunc, DATMergerSplitter.romNameFunc.
  rewrite Hname.
  by destruct (consistent_total (JSString.replace "-" "__" (ROM.getName b))
                 (JSString.replace "-" "__" (ROM.getName b))).
Qed.

Lemma flat_map_ext_In {A B} (f g : A → list B) (l : list A) :
  (∀ x, In x l → f x = g x) → flat_map f l = flat_map g l.
Proof.
  induction l as [|x l IH]; [done|]. intros Hfg. cbn [flat_map].
  rewrite (Hfg x) by by left. rewrite IH; [done|].
  intros y Hy. apply Hfg. by right.
Qed.

Lemma omap_In {A B} (f : A → option B) (l : list A) (y : B) :
  In y (omap f l) → ∃ x, In x l ∧ f x = Some y.
Proof.
  induction l as [|x l IH]; [done|]. cbn [omap list_omap].
  destruct (f x) as [z|] eqn:Hfx.
  - intros [<- | Hin]; [exists x; split; [by left | done]|].
    destruct (IH Hin) as (x' & ? & ?). exists x'. split; [by right | done].
  - intros Hin. destruct (IH Hin) as (x' & ? & ?). exists x'.
    split; [by right | done].
Qed.

Lemma omap_None {A B} (f : A → option B) (l : list A) :
  (∀ x, In x l → f x = None) → omap f l = [].
Proof.
  induction l as [|x l IH]; [done|]. intros Hnone. cbn [omap list_omap].
  rewrite (Hnone x) by by left. apply IH. intros y Hy. apply Hnone. by right.
Qed.

Lemma omap_pointwise {A B} (f g : A → option B) (l : list A) :
  (∀ x, f x = g x) → omap f l = omap g l.
Proof.
  intros Hfg. induction l as [|x l IH]; [done|]. cbn [omap list_omap].
  by rewrite Hfg, IH.
Qed.

Lemma omap_fmap {A B C} (f : A → option B) (g : B → C) (l : list A) :
  omap (λ x, g <$> f x) l = map g (omap f l).
Proof.
  induction l as [|x l IH]; [done|]. cbn [omap list_omap].
  destruct (f x); simpl; by rewrite IH.
Qed.

(** *** The second run on one game *)

Section second.
Variable mode : MergeMode.
Variables names names' : gmap string Game.t.
Hypothesis names'_lookup :
  ∀ n, names' !! n = DATMergerSplitter.reshapeGame (Some mode) names <$> names !! n.

Lemma biosGameOf_second g :
  DATMergerSplitter.biosGameOf names'
    (DATMergerSplitter.reshapeGame (Some mode) names g)
  = DATMergerSplitter.reshapeGame (Some mode) names
      <$> DATMergerSplitter.biosGameOf names g.
Proof.
  destruct (MergeFacts.reshapeGame_identity (Some mode) names g) as (_ & _ & Hbios & _).
  unfold DATMergerSplitter.biosGameOf. rewrite Hbios.
  destruct (String.eqb _ _); [done | apply names'_lookup].
Qed.

Lemma parentGameOf_second g :
  DATMergerSplitter.parentGameOf names'
    (DATMergerSplitter.reshapeGame (Some mode) names g)
  = DATMergerSplitter.reshapeGame (Some mode) names
      <$> DATMergerSplitter.parentGameOf names g.
Proof.
  destruct (MergeFacts.reshapeGame_identity (Some mode) names g) as (_ & Hparent & _).
  unfold DATMergerSplitter.parentGameOf. rewrite Hparent.
  destruct (String.eqb _ _); [done | apply names'_lookup].
Qed.

Lemma reshapeGame_subset g rom :
  mode = NONE ∨ mode = SPLIT →
  In rom (Game.getRoms (DATMergerSplitter.reshapeGame (Some mode) names g)) →
  In rom (Game.getRoms g).
Proof.
  intros [-> | ->] Hin.
  - change (DATMergerSplitter.reshapeGame (Some NONE) names g)
      with (DATMergerSplitter.excludeBiosRoms names (DATMergerSplitter.sanitize g))
      in Hin.
    apply excludeBiosRoms_In in Hin as [Hin _]. by apply sanitize_subset.
  - change (DATMergerSplitter.reshapeGame (Some SPLIT) names g)
      with (DATMergerSplitter.excludeParentRoms names
              (DATMergerSplitter.excludeBiosRoms names (DATMergerSplitter.sanitize g)))
      in Hin.
    apply excludeParentRoms_In in Hin as [Hin _].
    apply excludeBiosRoms_In in Hin as [Hin _]. by apply sanitize_subset.
Qed.

(** The BIOS ROMs of the reshaped BIOS game drop nothing new. *)
Lemma bios_kept_second biosGame rom :
  mode = NONE ∨ mode = SPLIT →
  MergeConditions.sameHashPerName (DATMergerSplitter.biosOnly biosGame) →
  DATMergerSplitter.keepRom
    (DATMergerSplitter.parentRomNamesToHashCodes
       (DATMergerSplitter.biosOnly biosGame)) rom = true →
  DATMergerSplitter.keepRom
    (DATMergerSplitter.parentRomNamesToHashCodes
       (DATMergerSplitter.biosOnly
          (DATMergerSplitter.reshapeGame (Some mode) names biosGame))) rom = true.
Proof.
  intros Hmode Hsame. apply keepRom_mono. intros n h.
  apply names_submap; [done|].
  intros r. simpl. rewrite !filter_In. intros [Hr ?]. split; [|done].
    by apply reshapeGame_subset in Hr.
Qed.

Lemma parent_kept_second parentGame rom :
  mode = NONE ∨ mode = SPLIT →
  MergeConditions.sameHashPerName parentGame →
  DATMergerSplitter.keepRom
    (DATMergerSplitter.parentRomNamesToHashCodes parentGame) rom = true →
  DATMergerSplitter.keepRom
    (DATMergerSplitter.parentRomNamesToHashCodes
       (DATMergerSplitter.reshapeGame (Some mode) names parentGame)) rom = true.
Proof.
  intros Hmode Hsame. apply keepRom_mono. intros n h.
  apply names_submap; [done|].
  intros r Hr. by apply reshapeGame_subset in Hr.
Qed.

Lemma second_bios_fixed g x :
  mode = NONE ∨ mode = SPLIT →
  MergeConditions.sameHashInReferences mode names g →
  x = DATMergerSplitter.reshapeGame (Some mode) names g →
  DATMergerSplitter.sanitized x →
  (∀ rom, In rom (Game.getRoms x) →
     In rom (Game.getRoms
               (DATMergerSplitter.excludeBiosRoms names (DATMergerSplitter.sanitize g)))) →
  DATMergerSplitter.excludeBiosRoms names' x = x.
Proof.
  intros Hmode [Hsame _] -> Hclean Hsub. apply excludeBiosRoms_fixed; [done|].
  intros biosGame' rom. rewrite biosGameOf_second.
  destruct (DATMergerSplitter.biosGameOf names g) as [biosGame|] eqn:Hbios; [|done].
  intros [= <-] Hrom. apply bios_kept_second; [done | by apply Hsame |].
  apply Hsub, excludeBiosRoms_In in Hrom as [_ Hkept]. apply Hkept.
  by rewrite (NoneSpec.biosGameOf_identity names _ g)
    by apply MergeFacts.sanitize_identity.
Qed.

Lemma none_second g :
  mode = NONE →
  MergeConditions.sameHashInReferences mode names g →
  DATMergerSplitter.reshapeGame (Some mode) names'
    (DATMergerSplitter.reshapeGame (Some mode) names g)
  = DATMergerSplitter.reshapeGame (Some mode) names g.
Proof.
  intros Hmode Hsame.
  assert (DATMergerSplitter.sanitized
            (DATMergerSplitter.reshapeGame (Some mode) names g)) as Hclean.
  { subst mode. apply excludeBiosRoms_sanitized, sanitize_sanitized. }
  set (x := DATMergerSplitter.reshapeGame (Some mode) names g) in *.
  assert (DATMergerSplitter.reshapeGame (Some mode) names' x
          = DATMergerSplitter.excludeBiosRoms names' (DATMergerSplitter.sanitize x))
    as -> by (by subst mode).
  rewrite sanitize_fixed by done.
  apply (second_bios_fixed g); [by left | done | done | done |].
  intros rom. subst x. by subst mode.
Qed.

Lemma split_second g :
  mode = SPLIT →
  MergeConditions.sameHashInReferences mode names g →
  DATMergerSplitter.reshapeGame (Some mode) names'
    (DATMergerSplitter.reshapeGame (Some mode) names g)
  = DATMergerSplitter.reshapeGame (Some mode) names g.
Proof.
  intros Hmode Hreferences.
  assert (DATMergerSplitter.reshapeGame (Some mode) names g
          = DATMergerSplitter.excludeParentRoms names
              (DATMergerSplitter.excludeBiosRoms names (DATMergerSplitter.sanitize g)))
    as Hx by (by subst mode).
  assert (DATMergerSplitter.sanitized
            (DATMergerSplitter.reshapeGame (Some mode) names g)) as Hclean.
  { rewrite Hx.
    apply excludeParentRoms_sanitized, excludeBiosRoms_sanitized, sanitize_sanitized. }
  set (x := DATMergerSplitter.reshapeGame (Some mode) names g) in *.
  assert (DATMergerSplitter.reshapeGame (Some mode) names' x
          = DATMergerSplitter.excludeParentRoms names'
              (DATMergerSplitter.excludeBiosRoms names' (DATMergerSplitter.sanitize x)))
    as -> by (by subst mode).
  rewrite sanitize_fixed by done.
  rewrite (second_bios_fixed g); [|by right | done | done | done |].
  2: { intros rom. rewrite Hx. intros Hrom.
       by apply excludeParentRoms_In in Hrom as [? _]. }
  apply excludeParentRoms_fixed; [done|].
  intros parentGame' rom. subst x. rewrite parentGameOf_second.
  destruct (DATMergerSplitter.parentGameOf names g) as [parentGame|] eqn:Hparent;
    [|done].
  intros [= <-] Hrom.
  apply parent_kept_second; [by right | by apply (proj2 Hreferences) |].
  rewrite Hx in Hrom. apply excludeParentRoms_In in Hrom as [_ Hkept]. apply Hkept.
  assert (Game.sameIdentity
            (DATMergerSplitter.excludeBiosRoms names (DATMergerSplitter.sanitize g)) g)
    as (_ & Hsame & _).
  { eapply MergeFacts.sameIdentity_trans;
      [apply MergeFacts.excludeBiosRoms_identity | apply MergeFacts.sanitize_identity]. }
  unfold DATMergerSplitter.parentGameOf in *. by rewrite Hsame.
Qed.

Lemma full_second g :
  mode = FULLNONMERGED → Game.getDeviceRefs g = [] →
  DATMergerSplitter.reshapeGame (Some mode) names'
    (DATMergerSplitter.reshapeGame (Some mode) names g)
  = DATMergerSplitter.reshapeGame (Some mode) names g.
Proof.
  intros Hmode Hrefs.
  assert (∀ table x, DATMergerSplitter.reshapeGame (Some mode) table x
                     = DATMergerSplitter.includeDeviceRoms table
                         (DATMergerSplitter.sanitize x)) as Hshape
    by (by subst mode).
  rewrite !Hshape.
  rewrite (includeDeviceRoms_fixed names (DATMergerSplitter.sanitize g))
    by (done || apply sanitize_sanitized).
  rewrite (sanitize_fixed (DATMergerSplitter.sanitize g)) by apply sanitize_sanitized.
  apply includeDeviceRoms_fixed; [done | apply sanitize_sanitized].
Qed.

(** A game that resolves no device reference of its own is only sanitized. *)
Lemma full_plain_device device :
  (Game.isMachine device = true →
   ∀ deviceRef, In deviceRef (Game.getDeviceRefs device) → names !! deviceRef = None) →
  Game.getRoms (DATMergerSplitter.reshapeGame (Some FULLNONMERGED) names device)
  = Game.getRoms (DATMergerSplitter.sanitize device).
Proof.
  intros Hplain.
  change (DATMergerSplitter.reshapeGame (Some FULLNONMERGED) names device)
    with (DATMergerSplitter.includeDeviceRoms names (DATMergerSplitter.sanitize device)).
  unfold DATMergerSplitter.includeDeviceRoms.
  change (Game.isMachine (DATMergerSplitter.sanitize device))
    with (Game.isMachine device).
  change (Game.getDeviceRefs (DATMergerSplitter.sanitize device))
    with (Game.getDeviceRefs device).
  destruct (Game.isMachine device); simpl negb; cbv iota; [|done].
  rewrite omap_None by by apply Hplain.
  cbn [flat_map app Game.getRoms Game.withRoms].
  apply JSArrayFacts.sort_of_sorted, sanitize_sanitized.
Qed.

(** In mode FULLNONMERGED the second run includes the ROMs of the devices
    once more; sanitization takes them away again. *)
Lemma full_second_sanitized g :
  mode = FULLNONMERGED →
  MergeConditions.plainDevices names g →
  DATMergerSplitter.sanitize
    (DATMergerSplitter.reshapeGame (Some mode) names'
       (DATMergerSplitter.reshapeGame (Some mode) names g))
  = DATMergerSplitter.sanitize (DATMergerSplitter.reshapeGame (Some mode) names g).
Proof.
  intros Hmode Hplain.
  assert (∀ table x, DATMergerSplitter.reshapeGame (Some mode) table x
                     = DATMergerSplitter.includeDeviceRoms table
                         (DATMergerSplitter.sanitize x)) as Hshape
    by (by subst mode).
  set (once := DATMergerSplitter.reshapeGame (Some mode) names g).
  assert (Game.sameIdentity once g) as Honce
    by apply MergeFacts.reshapeGame_identity.
  rewrite (Hshape names').
  assert (Game.sameIdentity (DATMergerSplitter.sanitize once) g) as Hclean.
  { eapply MergeFacts.sameIdentity_trans; [apply MergeFacts.sanitize_identity | done]. }
  unfold DATMergerSplitter.includeDeviceRoms at 1.
  destruct Hclean as (Hname & Hparent & Hbios & Hrefs & Hmachine).
  rewrite Hmachine, Hrefs.
  destruct (Game.isMachine g) eqn:Hg; simpl negb; cbv iota.
  2: { apply sanitize_fixed, sanitize_sanitized. }
  rewrite (sanitize_alt (Game.withRoms _ _)), (sanitize_alt once).
  cbn [Game.getRoms Game.withRoms].
  rewrite (withRoms_identity _ _ once).
  2: { eapply MergeFacts.sameIdentity_trans;
         [apply MergeFacts.sameIdentity_withRoms | apply MergeFacts.sanitize_identity]. }
  f_equal.
  assert (Game.getRoms once
          = JSArray.sort DATMergerSplitter.romSortFunc
              (flat_map Game.getRoms
                 (omap (λ deviceRef, names !! deviceRef) (Game.getDeviceRefs g))
               ++ Game.getRoms (DATMergerSplitter.sanitize g))) as Hroms.
  { subst once. rewrite Hshape. unfold DATMergerSplitter.includeDeviceRoms.
    change (Game.isMachine (DATMergerSplitter.sanitize g)) with (Game.isMachine g).
    by rewrite Hg. }
  rewrite Hroms.
  rewrite (omap_pointwise _ (λ deviceRef,
             DATMergerSplitter.reshapeGame (Some mode) names <$> names !! deviceRef))
    by apply names'_lookup.
  rewrite omap_fmap, flat_map_concat_map, map_map, <- flat_map_concat_map.
  rewrite (flat_map_ext_In _
             (λ device,
                JSArray.sort DATMergerSplitter.romSortFunc
                  (JSArray.dedupFirst ROM.getName [] (Game.getRoms device)))).
  2: { intros device Hdevice. apply omap_In in Hdevice as (deviceRef & Href & Hlook).
       subst mode. rewrite full_plain_device, sanitize_alt; [done|].
       intros Hmachine'. by apply (Hplain Hg deviceRef device). }
  apply (SortAlgebra.sanitized_again ROM.getName DATMergerSplitter.romSortFunc
           (Consistent0 := romSortFunc_consistent) same_name_ties Game.getRoms).
Qed.
End second.
End stable.

Section twice.
Context `{RomHasher} `{Collator}.

Lemma merge_not_merged_eq mode dat :
  mode ≠ MERGED → DATModel.hasParentCloneInfo dat = true →
  DATMergerSplitter.merge (Some mode) dat
  = DAT.mk (DATMergerSplitter.newHeader (Some mode) (DAT.getHeader dat))
      (map (DATMergerSplitter.reshapeGame (Some mode)
              (DATMergerSplitter.gameNamesToGames dat))
           (DATModel.classGames dat)).
Proof.
  intros Hmode Hinfo.
  rewrite <- (MergeFacts.merge_not_merged (Some mode) mode dat) by done.
  unfold DATMergerSplitter.merge. by rewrite Hinfo.
Qed.

Lemma existsb_perm {A} (p : A → bool) (l l' : list A) :
  Permutation l l' → existsb p l = existsb p l'.
Proof.
  intros Hperm. apply eq_true_iff_eq. rewrite !existsb_exists.
  split; intros (x & Hx & ?); exists x; (split; [|done]).
  - by apply (Permutation_in _ Hperm).
  - apply (Permutation_in x (Permutation_sym Hperm)). done.
Qed.

Lemma hasParentCloneInfo_reshaped (f : Game.t → Game.t) header dat :
  (∀ g, Game.sameIdentity (f g) g) →
  DATModel.hasParentCloneInfo (DAT.mk header (map f (DATModel.classGames dat)))
  = DATModel.hasParentCloneInfo dat.
Proof.
  intros Hf. unfold DATModel.hasParentCloneInfo. simpl.
  rewrite <- (existsb_perm _ _ _ (DATModelFacts.classGames_perm dat)).
  induction (DATModel.classGames dat) as [|g gs IH]; simpl; [done|].
  by rewrite IH, (MergeFacts.sameIdentity_isClone _ g).
Qed.

(** The table of the second run holds the reshaped games of the first. *)
Lemma gameNamesToGames_reshaped (f : Game.t → Game.t) header dat n :
  (∀ g, Game.sameIdentity (f g) g) →
  NoDup (map Game.getName (DAT.getGames dat)) →
  DATMergerSplitter.gameNamesToGames (DAT.mk header (map f (DATModel.classGames dat)))
    !! n
  = f <$> DATMergerSplitter.gameNamesToGames dat !! n.
Proof.
  intros Hf Hnames. unfold DATMergerSplitter.gameNamesToGames. simpl.
  pose proof (DATModelFacts.classGames_perm dat) as Hperm.
  assert (NoDup (map Game.getName (map f (DATModel.classGames dat)))) as Hnames'.
  { rewrite map_map.
    rewrite (map_ext (λ g, Game.getName (f g)) Game.getName)
      by (intros g; by destruct (Hf g) as (? & _)).
    by eapply JSArrayFacts.NoDup_map_perm. }
  destruct (foldl _ ∅ (DAT.getGames dat) !! n) as [g|] eqn:Hlook; simpl.
  - apply (JSArrayFacts.foldl_insert_Some Game.getName (λ g, g)) in Hlook
      as (g' & Hin & <- & <-).
    destruct (Hf g') as (<- & _).
    apply (JSArrayFacts.foldl_insert_unique Game.getName (λ g, g)); [done|].
    apply in_map. by apply (Permutation_in g' (Permutation_sym Hperm)).
  - destruct (foldl _ ∅ (map f _) !! n) as [g'|] eqn:Hlook'; [|done].
    apply (JSArrayFacts.foldl_insert_Some Game.getName (λ g, g)) in Hlook'
      as (g'' & Hin & Hname & <-).
    apply in_map_iff in Hin as (g & <- & Hin).
    destruct (Hf g) as (Hsame & _). rewrite Hsame in Hname.
    apply (Permutation_in _ Hperm) in Hin.
    by destruct (JSArrayFacts.foldl_insert_None Game.getName (λ g, g) _ n Hlook g Hin).
Qed.

Lemma gameNamesToGames_In dat n g :
  DATMergerSplitter.gameNamesToGames dat !! n = Some g → In g (DAT.getGames dat).
Proof.
  unfold DATMergerSplitter.gameNamesToGames. intros Hlook.
  by apply (JSArrayFacts.foldl_insert_Some Game.getName (λ g, g)) in Hlook
    as (g' & Hin & _ & <-).
Qed.

(** After a first run in a mode other than MERGED, the second run reshapes
    the reshaped games, against the table of the reshaped games. *)
Lemma merge_merge_eq mode dat :
  mode ≠ MERGED → DATModel.hasParentCloneInfo dat = true →
  NoDup (map Game.getName (DAT.getGames dat)) →
  let names := DATMergerSplitter.gameNamesToGames dat in
  let once := DATMergerSplitter.reshapeGame (Some mode) names in
  ∃ names',
    (∀ n, names' !! n = once <$> names !! n)
    ∧ DATMergerSplitter.merge (Some mode) (DATMergerSplitter.merge (Some mode) dat)
      = DAT.mk (DATMergerSplitter.newHeader (Some mode) (DAT.getHeader dat))
          (map (λ g, DATMergerSplitter.reshapeGame (Some mode) names' (once g))
               (DATModel.classGames dat)).
Proof.
  intros Hmode Hinfo Hnames names T.
  assert (∀ g, Game.sameIdentity (T g) g) as HT
    by (intros g; apply MergeFacts.reshapeGame_identity).
  rewrite (merge_not_merged_eq mode dat) by done. fold names T.
  set (header' := DATMergerSplitter.newHeader (Some mode) (DAT.getHeader dat)).
  exists (DATMergerSplitter.gameNamesToGames
            (DAT.mk header' (map T (DATModel.classGames dat)))).
  split; [intros n; by apply gameNamesToGames_reshaped|].
  rewrite merge_not_merged_eq; [|done | by rewrite hasParentCloneInfo_reshaped].
  simpl. f_equal.
  assert (DATModel.classGames (DAT.mk header' (map T (DATModel.classGames dat)))
          = map T (DATModel.classGames dat)) as ->.
  { destruct dat as [header games].
    rewrite (DATModelFacts.classGames_map T header) by done.
    by rewrite DATModelFacts.classGames_classGames. }
  by rewrite map_map.
Qed.

(** C8 (amended). A second run of [merge] in the same mode gives the DAT
    of the first run, both taken with every game sanitized,
    - in mode MERGED, always (the merged DAT has no clone left);
    - in the modes NONE and SPLIT, when the comparator is consistent, no two
      games of the DAT share a name and the ROMs of one name have one hash
      code among the BIOS ROMs of a game that is named as a BIOS and, in
      SPLIT, in a game that is named as a parent;
    - in mode FULLNONMERGED, when the comparator is consistent, no two games
      of the DAT share a name and no device of a machine resolves a device
      reference of its own.
    In every mode but FULLNONMERGED, and in FULLNONMERGED when no game has a
    device reference, the second run returns the DAT of the first run as
    it is. *)
Theorem merge_twice (mode : MergeMode) (dat : DAT.t) :
  mode = MERGED
  ∨ (Consistent localeCompareNumeric
     ∧ NoDup (map Game.getName (DAT.getGames dat))
     ∧ (mode ≠ FULLNONMERGED →
        ∀ game, In game (DAT.getGames dat) →
          MergeConditions.sameHashInReferences mode
            (DATMergerSplitter.gameNamesToGames dat) game)
     ∧ (mode = FULLNONMERGED →
        ∀ game, In game (DAT.getGames dat) →
          MergeConditions.plainDevices (DATMergerSplitter.gameNamesToGames dat) game)) →
  DATMergerSplitter.idempotentOn (Some mode) dat
  ∧ (mode ≠ FULLNONMERGED
     ∨ (∀ game, In game (DAT.getGames dat) → Game.getDeviceRefs game = []) →
     DATMergerSplitter.merge (Some mode) (DATMergerSplitter.merge (Some mode) dat)
     = DATMergerSplitter.merge (Some mode) dat).
Proof.
  intros Hyp.
  assert (mode = MERGED ∨ DATModel.hasParentCloneInfo dat = false →
          DATMergerSplitter.merge (Some mode) (DATMergerSplitter.merge (Some mode) dat)
          = DATMergerSplitter.merge (Some mode) dat) as Heasy.
  { intros [-> | Hinfo]; [apply merged_idempotent|].
    by rewrite !(MergeFacts.merge_unchanged (Some mode) dat) by (by right). }
  destruct (decide (mode = MERGED)) as [Hmerged | Hmode].
  { split; [|intros _; apply Heasy; by left].
    unfold DATMergerSplitter.idempotentOn. rewrite Heasy; [done | by left]. }
  destruct (DATModel.hasParentCloneInfo dat) eqn:Hinfo.
  2: { split; [|intros _; apply Heasy; by right].
       unfold DATMergerSplitter.idempotentOn. rewrite Heasy; [done | by right]. }
  destruct Hyp as [-> | (Hcmp & Hnames & Hroms & Hplain)]; [done|].
  destruct (merge_merge_eq mode dat Hmode Hinfo Hnames) as (names' & Hlookup & Htwice).
  rewrite Htwice, (merge_not_merged_eq mode dat) by done.
  set (names := DATMergerSplitter.gameNamesToGames dat) in *.
  assert (∀ g, In g (DATModel.classGames dat) →
            mode ≠ FULLNONMERGED ∨ Game.getDeviceRefs g = [] →
            DATMergerSplitter.reshapeGame (Some mode) names'
              (DATMergerSplitter.reshapeGame (Some mode) names g)
            = DATMergerSplitter.reshapeGame (Some mode) names g) as Hstrict.
  { intros g Hg Hcase.
    destruct (decide (mode = FULLNONMERGED)) as [Hfull | Hfull].
    - destruct Hcase as [Hcase | Hrefs]; [done|].
      by apply (full_second mode names names').
    - assert (MergeConditions.sameHashInReferences mode names g) as Hsame.
      { apply (Hroms Hfull).
        by apply (Permutation_in _ (DATModelFacts.classGames_perm dat)). }
      destruct mode; [done | by apply none_second | by apply split_second | done]. }
  split.
  - unfold DATMergerSplitter.idempotentOn, DATMergerSplitter.normalize.
    rewrite Htwice, (merge_not_merged_eq mode dat) by done. fold names.
    cbn [DAT.getHeader DAT.getGames]. f_equal. rewrite !map_map.
    apply map_ext_in. intros g Hg.
    destruct (decide (mode = FULLNONMERGED)) as [Hfull | Hfull].
    + apply (full_second_sanitized mode names names' Hlookup); [done|].
      apply (Hplain Hfull).
      by apply (Permutation_in _ (DATModelFacts.classGames_perm dat)).
    + rewrite Hstrict; [done | done | by left].
  - intros Hcase. fold names. f_equal. apply map_ext_in. intros g Hg.
    apply Hstrict; [done|]. destruct Hcase as [Hfull | Hrefs]; [by left|].
    right. apply Hrefs.
    by apply (Permutation_in _ (DATModelFacts.classGames_perm dat)).
Qed.
End twice.

Lemma merge_twice_witness :
  (@DATMergerSplitter.idempotentOn Examples.hasher Examples.collator
     (Some FULLNONMERGED) MergeConditions.plainDeviceDat
   ∧ (FULLNONMERGED ≠ FULLNONMERGED
      ∨ (∀ game, In game (DAT.getGames MergeConditions.plainDeviceDat) →
           Game.getDeviceRefs game = []) →
      @DATMergerSplitter.merge Examples.hasher Examples.collator (Some FULLNONMERGED)
        (@DATMergerSplitter.merge Examples.hasher Examples.collator
           (Some FULLNONMERGED) MergeConditions.plainDeviceDat)
      = @DATMergerSplitter.merge Examples.hasher Examples.collator
          (Some FULLNONMERGED) MergeConditions.plainDeviceDat))
  ∧ (@DATMergerSplitter.idempotentOn Examples.hasher Examples.collator
       (Some SPLIT) MergeConditions.twoHashesInCloneDat
     ∧ (SPLIT ≠ FULLNONMERGED
        ∨ (∀ game, In game (DAT.getGames MergeConditions.twoHashesInCloneDat) →
             Game.getDeviceRefs game = []) →
        @DATMergerSplitter.merge Examples.hasher Examples.collator (Some SPLIT)
          (@DATMergerSplitter.merge Examples.hasher Examples.collator
             (Some SPLIT) MergeConditions.twoHashesInCloneDat)
        = @DATMergerSplitter.merge Examples.hasher Examples.collator
            (Some SPLIT) MergeConditions.twoHashesInCloneDat)).
Proof.
  split.
  - apply (@merge_twice Examples.hasher Examples.collator FULLNONMERGED
             MergeConditions.plainDeviceDat).
    right. split; [apply JSArrayFacts.codeUnitCompare_consistent|].
    split; [by apply (bool_decide_unpack _); vm_compute|].
    split; [done|].
    intros _ game Hgame Hmachine deviceRef device Href Hdevice _ deviceRef' Href'.
    simpl in Hgame.
    destruct Hgame as [<- | [<- | [<- | []]]]; simpl in Href; try done.
    destruct Href as [<- | []].
    vm_compute in Hdevice. injection Hdevice as <-. done.
  - apply (@merge_twice Examples.hasher Examples.collator SPLIT
             MergeConditions.twoHashesInCloneDat).
    right. split; [apply JSArrayFacts.codeUnitCompare_consistent|].
    split; [by apply (bool_decide_unpack _); vm_compute|].
    split; [|done].
    intros _ game Hgame. simpl in Hgame.
    destruct Hgame as [<- | [<- | []]]; (split; [done|]); intros _ parentGame Hparent;
      [done|].
    vm_compute in Hparent. injection Hparent as <-.
    intros a b Ha Hb _. simpl in Ha, Hb.
    by destruct Ha as [<- | []], Hb as [<- | []].
Defined.

(** C8 (as stated) fails: in mode FULLNONMERGED the second run includes the
    device ROMs once more.  The machine M of [Examples.deviceDat] has the
    ROMs d1 and m1 after one run and d1, d1, e1 and m1 after two; the normal
    form of the latter still holds e1. *)
Lemma fullnonmerged_twice_differs :
  ¬ @DATMergerSplitter.idempotentOn Examples.hasher Examples.collator
      (Some FULLNONMERGED) Examples.deviceDat
  ∧ @DATMergerSplitter.merge Examples.hasher Examples.collator (Some FULLNONMERGED)
      (@DATMergerSplitter.merge Examples.hasher Examples.collator
         (Some FULLNONMERGED) Examples.deviceDat)
    ≠ @DATMergerSplitter.merge Examples.hasher Examples.collator
        (Some FULLNONMERGED) Examples.deviceDat.
Proof.
  split.
  - unfold DATMergerSplitter.idempotentOn. intros Heq.
    apply (f_equal (λ dat, map (λ game, length (Game.getRoms game))
                               (DAT.getGames dat))) in Heq.
    vm_compute in Heq. discriminate Heq.
  - intros Heq.
    apply (f_equal (λ dat, map (λ game, length (Game.getRoms game))
                               (DAT.getGames dat))) in Heq.
    vm_compute in Heq. discriminate Heq.
Qed.

(** The other conditions matter as well.  With two ROMs of one name and
    different checksums in the parent, SPLIT diffs the clone against the
    last of them in the first run and against the first of them, the one
    sanitization kept, in the second.  With two games of one name, the name
    resolves to the one that stands last, which is another one once the
    first run has put the games in the order of their classes. *)
Lemma split_twice_differs_on_duplicate_names :
  let merge := @DATMergerSplitter.merge Examples.hasher Examples.collator (Some SPLIT) in
  let roms dat := map Game.getRoms (DAT.getGames dat) in
  ¬ @DATMergerSplitter.idempotentOn Examples.hasher Examples.collator
      (Some SPLIT) MergeConditions.twoHashesDat
  ∧ roms (merge MergeConditions.twoHashesDat)
    = [[Examples.rom "a" "H1"]; [Examples.rom "a" "H1"]]
  ∧ roms (merge (merge MergeConditions.twoHashesDat))
    = [[Examples.rom "a" "H1"]; []]
  ∧ ¬ @DATMergerSplitter.idempotentOn Examples.hasher Examples.collator
        (Some SPLIT) MergeConditions.twoGamesOfOneNameDat
  ∧ roms (merge MergeConditions.twoGamesOfOneNameDat)
    = [[Examples.rom "a" "H1"]; [Examples.rom "a" "H9"]; [Examples.rom "a" "H9"]]
  ∧ roms (merge (merge MergeConditions.twoGamesOfOneNameDat))
    = [[Examples.rom "a" "H1"]; []; [Examples.rom "a" "H9"]].
Proof.
  assert (∀ dat,
            map (λ game, length (Game.getRoms game))
              (DAT.getGames
                 (@DATMergerSplitter.normalize Examples.collator
                    (@DATMergerSplitter.merge Examples.hasher Examples.collator
                       (Some SPLIT)
                       (@DATMergerSplitter.merge Examples.hasher Examples.collator
                          (Some SPLIT) dat))))
            ≠ map (λ game, length (Game.getRoms game))
                (DAT.getGames
                   (@DATMergerSplitter.normalize Examples.collator
                      (@DATMergerSplitter.merge Examples.hasher Examples.collator
                         (Some SPLIT) dat))) →
            ¬ @DATMergerSplitter.idempotentOn Examples.hasher Examples.collator
                (Some SPLIT) dat) as Hdiffer.
  { intros dat Hne Hsame. apply Hne.
    unfold DATMergerSplitter.idempotentOn in Hsame. by rewrite Hsame. }
  repeat split; try (by vm_compute); apply Hdiffer; by vm_compute.
Qed.
End IdempotenceSpec.

(** ** File indexer *)

Module FileIndexerSpec.

Lemma lexCompare_total (k1 k2 : list Z) (t12 t21 : Z) :
  length k1 = length k2 →
  t12 <= 0 ∨ t21 <= 0 →
  FileIndexer.lexCompare k1 k2 t12 <= 0 ∨ FileIndexer.lexCompare k2 k1 t21 <= 0.
Proof.
  revert k2. induction k1 as [|x k1 IH]; intros [|y k2] Hlen Ht; simpl in *;
    try done.
  destruct (Z.eqb_spec x y) as [->|Hne].
  - rewrite Z.eqb_refl. apply IH; [lia | done].
  - destruct (Z.eqb_spec y x) as [->|_]; [done | lia].
Qed.

Lemma lexCompare_trans (k1 k2 k3 : list Z) (t12 t23 t13 : Z) :
  length k1 = length k2 → length k2 = length k3 →
  (t12 <= 0 → t23 <= 0 → t13 <= 0) →
  FileIndexer.lexCompare k1 k2 t12 <= 0 →
  FileIndexer.lexCompare k2 k3 t23 <= 0 →
  FileIndexer.lexCompare k1 k3 t13 <= 0.
Proof.
  revert k2 k3.
  induction k1 as [|x k1 IH]; intros [|y k2] [|z k3] Hlen12 Hlen23 Ht; simpl in *;
    try done.
  destruct (Z.eqb_spec x y) as [->|Hxy]; destruct (Z.eqb_spec y z) as [->|Hyz].
  - apply IH; [lia | lia | done].
  - by intros _ Hle.
  - intros Hle _. by destruct (Z.eqb_spec x z).
  - intros H12 H23. destruct (Z.eqb_spec x z); lia.
Qed.

Section index.
Context `{Collator}.
Variable env : IndexerEnv.t.

(** The comparator of the module is the five-step preference of the
    specification: each of the four values is computed as the specification
    words it, from the file, the key, the output directory and the mounts. *)
Lemma compareFiles_fiveStep key a b :
  FileIndexer.compareFiles env key a b = IndexerPreference.fiveStep env key a b.
Proof.
  assert (∀ file, FileIndexer.headered key file
                  = IndexerPreference.headerMatched key file) as Hheadered.
  { intros file. unfold FileIndexer.headered, IndexerPreference.headerMatched.
    destruct (bool_decide_reflect (is_Some (File.getFileHeader file))) as [Hh|Hh],
      (String.eqb_spec (File.hashCodeWithoutHeader file) key) as [Hk|Hk]; simpl.
    - by rewrite bool_decide_eq_true_2.
    - by rewrite bool_decide_eq_false_2 by (by intros [_ ?]).
    - by rewrite bool_decide_eq_false_2 by (by intros [? _]).
    - by rewrite bool_decide_eq_false_2 by (by intros [? _]). }
  unfold FileIndexer.compareFiles, IndexerPreference.fiveStep,
    IndexerPreference.steps. cbv zeta. rewrite !Hheadered.
  cbn [FileIndexer.lexCompare].
  destruct (IndexerPreference.headerMatched key a
            =? IndexerPreference.headerMatched key b); simpl; [|done].
  change (FileIndexer.archiveEntryPriority a)
    with (IndexerPreference.archivePriority a).
  change (FileIndexer.archiveEntryPriority b)
    with (IndexerPreference.archivePriority b).
  destruct (IndexerPreference.archivePriority a =? IndexerPreference.archivePriority b);
    simpl; [|done].
  change (FileIndexer.inOutput env a) with (IndexerPreference.withinOutput env a).
  change (FileIndexer.inOutput env b) with (IndexerPreference.withinOutput env b).
  destruct (IndexerPreference.withinOutput env a =? IndexerPreference.withinOutput env b);
    simpl; [|done].
  unfold IndexerPreference.offOutputVolume, IndexerPreference.outputVolume,
    FileIndexer.outputDirDisk, FileIndexer.outputDir, FileIndexer.inOutputDisk.
  destruct (List.find _ _) as [disk|]; [|by rewrite Z.eqb_refl].
  destruct (String.eqb disk EmptyString); [by rewrite Z.eqb_refl|].
  by destruct (_ =? _).
Qed.

Lemma lexCompare_zero (k1 k2 : list Z) (tiebreak : Z) :
  length k1 = length k2 →
  FileIndexer.lexCompare k1 k2 tiebreak = 0 ↔ k1 = k2 ∧ tiebreak = 0.
Proof.
  revert k2. induction k1 as [|x k1 IH]; intros [|y k2] Hlen; simpl in *; try done.
  - split; [done | by intros [_ ?]].
  - destruct (Z.eqb_spec x y) as [->|Hne].
    + rewrite IH by lia. split; [by intros [-> ?] | by intros [[= ->] ?]].
    + split; [lia | by intros [[= ?] _]].
Qed.

Lemma fiveStep_consistent `{!Consistent localeCompare} key :
  Consistent (IndexerPreference.fiveStep env key).
Proof.
  split.
  - intros a b. unfold IndexerPreference.fiveStep.
    apply lexCompare_total; [done | apply consistent_total].
  - intros a b c. unfold IndexerPreference.fiveStep.
    apply lexCompare_trans; [done | done | apply consistent_trans].
Qed.

Lemma compareFiles_consistent `{!Consistent localeCompare} key :
  Consistent (FileIndexer.compareFiles env key).
Proof.
  destruct (fiveStep_consistent key) as [Htotal Htrans].
  split.
  - intros a b. rewrite !compareFiles_fiveStep. apply Htotal.
  - intros a b c. rewrite !compareFiles_fiveStep. apply Htrans.
Qed.

Lemma setFileInMap_lookup (results : gmap string (list File.t)) key file k :
  default [] (FileIndexer.setFileInMap results key file !! k)
  = default [] (results !! k) ++ (if String.eqb key k then [file] else []).
Proof.
  unfold FileIndexer.setFileInMap.
  destruct (String.eqb_spec key k) as [->|Hne].
  - by rewrite lookup_insert_eq.
  - rewrite lookup_insert_ne by done. by rewrite app_nil_r.
Qed.

Lemma setFileInMap_None (results : gmap string (list File.t)) key file k :
  FileIndexer.setFileInMap results key file !! k = None
  ↔ results !! k = None ∧ key ≠ k.
Proof.
  unfold FileIndexer.setFileInMap.
  destruct (decide (key = k)) as [->|Hne].
  - rewrite lookup_insert_eq. split; [done | by intros [_ ?]].
  - rewrite lookup_insert_ne by done. split; [done | by intros [? _]].
Qed.

Lemma indexFile_lookup (results : gmap string (list File.t)) file k :
  default [] (FileIndexer.indexFile results file !! k)
  = default [] (results !! k) ++ FileIndexer.filesUnder k [file].
Proof.
  unfold FileIndexer.indexFile, FileIndexer.filesUnder. cbv zeta. simpl.
  rewrite app_nil_r.
  destruct (bool_decide (is_Some (File.getFileHeader file))); simpl.
  - by rewrite !setFileInMap_lookup, <- app_assoc.
  - by rewrite setFileInMap_lookup, app_nil_r.
Qed.

Lemma indexFile_None (results : gmap string (list File.t)) file k :
  FileIndexer.indexFile results file !! k = None
  ↔ results !! k = None ∧ FileIndexer.filesUnder k [file] = [].
Proof.
  unfold FileIndexer.indexFile, FileIndexer.filesUnder. cbv zeta. simpl.
  rewrite app_nil_r.
  destruct (bool_decide (is_Some (File.getFileHeader file))); simpl.
  - rewrite !setFileInMap_None.
    destruct (String.eqb_spec (File.hashCodeWithHeader file) k),
      (String.eqb_spec (File.hashCodeWithoutHeader file) k); simpl;
      split; try done; try (by intros [[? ?] ?]); by intros [? ?].
  - rewrite setFileInMap_None, app_nil_r.
    destruct (String.eqb_spec (File.hashCodeWithHeader file) k);
      split; try done; by intros [? ?].
Qed.

Lemma filesUnder_app k l1 l2 :
  FileIndexer.filesUnder k (l1 ++ l2)
  = FileIndexer.filesUnder k l1 ++ FileIndexer.filesUnder k l2.
Proof. unfold FileIndexer.filesUnder. apply flat_map_app. Qed.

Lemma foldl_indexFile_lookup files (results : gmap string (list File.t)) k :
  default [] (foldl FileIndexer.indexFile results files !! k)
  = default [] (results !! k) ++ FileIndexer.filesUnder k files
  ∧ (foldl FileIndexer.indexFile results files !! k = None
     ↔ results !! k = None ∧ FileIndexer.filesUnder k files = []).
Proof.
  revert results. induction files as [|file files IH]; intros results.
  - simpl. rewrite app_nil_r. split; [done|]. split; [done | by intros [? _]].
  - destruct (IH (FileIndexer.indexFile results file)) as [IHl IHn].
    change (file :: files) with ([file] ++ files).
    rewrite filesUnder_app, foldl_app.
    change (foldl FileIndexer.indexFile results [file])
      with (FileIndexer.indexFile results file).
    split.
    + by rewrite IHl, indexFile_lookup, <- app_assoc.
    + rewrite IHn, indexFile_None. split.
      * intros [[? Hfile] Hfiles]. split; [done|]. by rewrite Hfile, Hfiles.
      * intros [? Happ]. apply app_eq_nil in Happ as [? ?]. done.
Qed.

(** The unsorted index: each key holds the files inserted under it, in
    insertion order. *)
Lemma foldl_indexFile_empty files k :
  foldl FileIndexer.indexFile ∅ files !! k
  = match FileIndexer.filesUnder k files with
    | [] => None
    | under => Some under
    end.
Proof.
  destruct (foldl_indexFile_lookup files ∅ k) as [Hl Hn].
  rewrite lookup_empty in Hl, Hn. simpl in Hl.
  destruct (foldl FileIndexer.indexFile ∅ files !! k) as [l|] eqn:Hlook.
  - simpl in Hl. subst l.
    destruct (FileIndexer.filesUnder k files) as [|f fs] eqn:Hunder; [|done].
    assert (Some (@nil File.t) = None) as Habs by (by apply Hn). done.
  - assert (FileIndexer.filesUnder k files = []) as -> by (by apply Hn). done.
Qed.

Lemma index_lookup files k :
  FileIndexer.index env files !! k
  = match FileIndexer.filesUnder k files with
    | [] => None
    | under => Some (JSArray.sort (FileIndexer.compareFiles env k) under)
    end.
Proof.
  unfold FileIndexer.index. destruct files as [|file files]; [done|].
  replace (Z.of_nat (length (file :: files)) =? 0) with false
    by (symmetry; apply Z.eqb_neq; simpl; lia).
  rewrite map_lookup_imap, foldl_indexFile_empty.
  by destruct (FileIndexer.filesUnder k (file :: files)).
Qed.

Lemma filesUnder_In k files file :
  In file (FileIndexer.filesUnder k files) ↔
  In file files
  ∧ (File.hashCodeWithHeader file = k
     ∨ is_Some (File.getFileHeader file) ∧ File.hashCodeWithoutHeader file = k).
Proof.
  unfold FileIndexer.filesUnder. rewrite in_flat_map. split.
  - intros (f & Hf & Hin). apply in_app_or in Hin as [Hin | Hin].
    + destruct (String.eqb_spec (File.hashCodeWithHeader f) k); [|done].
      destruct Hin as [<- | []]. split; [done | by left].
    + destruct (bool_decide_reflect (is_Some (File.getFileHeader f))); [|done].
      destruct (String.eqb_spec (File.hashCodeWithoutHeader f) k); [|done].
      destruct Hin as [<- | []]. split; [done | by right].
  - intros [Hin Hkey]. exists file. split; [done|]. apply in_or_app.
    destruct Hkey as [<- | [Hheader <-]].
    + left. rewrite String.eqb_refl. by left.
    + right. rewrite bool_decide_eq_true_2, String.eqb_refl by done. by left.
Qed.

(** C6. [index] files every file under its fingerprint with header and, when
    the file has a ROM header, also under its fingerprint without header.
    The list of a key holds the files filed under it, sorted by the
    preference of the specification: header-matched form first, then the
    archive priority, then not in the output directory, then on the volume
    of the output directory when that volume is known, then the comparison
    of the file paths.  Any two files compare one way or the other, and two
    files tie exactly when they agree in the four values and their paths
    compare equal; files that tie stay in the order in which they were
    given.  Without files the index is empty. *)
Theorem index_sorted_by_preference `{!Consistent localeCompare} (files : list File.t) :
  FileIndexer.index env [] = ∅
  ∧ (∀ key file,
       In file (FileIndexer.filesUnder key files) ↔
       In file files
       ∧ (File.hashCodeWithHeader file = key
          ∨ is_Some (File.getFileHeader file) ∧ File.hashCodeWithoutHeader file = key))
  ∧ (∀ key,
       FileIndexer.index env files !! key
       = match FileIndexer.filesUnder key files with
         | [] => None
         | under => Some (JSArray.sort (IndexerPreference.fiveStep env key) under)
         end)
  ∧ (∀ key filesForHash,
       FileIndexer.index env files !! key = Some filesForHash →
       Permutation filesForHash (FileIndexer.filesUnder key files)
       ∧ Sorted (JSArray.before (IndexerPreference.fiveStep env key)) filesForHash)
  ∧ (∀ key a b,
       FileIndexer.compareFiles env key a b = IndexerPreference.fiveStep env key a b
       ∧ (IndexerPreference.fiveStep env key a b <= 0
          ∨ IndexerPreference.fiveStep env key b a <= 0)
       ∧ (IndexerPreference.fiveStep env key a b = 0
          ↔ IndexerPreference.steps env key a = IndexerPreference.steps env key b
            ∧ localeCompare (File.getFilePath a) (File.getFilePath b) = 0))
  ∧ (∀ key filesForHash (tied : File.t → bool),
       (∀ a b, tied a = true → tied b = true →
          IndexerPreference.fiveStep env key a b <= 0) →
       FileIndexer.index env files !! key = Some filesForHash →
       List.filter tied filesForHash
       = List.filter tied (FileIndexer.filesUnder key files))
  ∧ @FileIndexer.index Examples.collator IndexerPreference.volumeEnv
      [IndexerPreference.inOutput; IndexerPreference.offVolume;
       IndexerPreference.onVolume] !! "H"%string
    = Some [IndexerPreference.onVolume; IndexerPreference.offVolume;
            IndexerPreference.inOutput].
Proof.
  assert (∀ key l, JSArray.sort (FileIndexer.compareFiles env key) l
                   = JSArray.sort (IndexerPreference.fiveStep env key) l) as Hsort.
  { intros key l. apply JSArrayFacts.sort_ext. apply compareFiles_fiveStep. }
  split; [done|]. split; [intros key file; apply filesUnder_In|].
  split.
  { intros key. rewrite index_lookup.
    destruct (FileIndexer.filesUnder key files); [done | by rewrite Hsort]. }
  split.
  { intros key filesForHash. rewrite index_lookup.
    destruct (FileIndexer.filesUnder key files) as [|f fs] eqn:Hunder; [done|].
    rewrite Hsort. intros Heq. apply (inj Some) in Heq. subst filesForHash.
    split; [apply JSArrayFacts.sort_perm|].
    apply JSArrayFacts.sort_sorted, fiveStep_consistent. }
  split.
  { intros key a b. split; [apply compareFiles_fiveStep|].
    split; [apply (fiveStep_consistent key)|].
    by apply lexCompare_zero. }
  split; [|by vm_compute].
  intros key filesForHash tied Hties. rewrite index_lookup.
  destruct (FileIndexer.filesUnder key files) as [|f fs] eqn:Hunder; [done|].
  rewrite Hsort. intros Heq. apply (inj Some) in Heq. subst filesForHash.
  by apply JSArrayFacts.sort_stable.
Qed.
End index.

Lemma index_sorted_by_preference_witness :
  @FileIndexer.index Examples.collator Examples.indexerEnv
    [Examples.headeredFile; Examples.zipEntry; Examples.rawFile] !! "H"%string
  = Some [Examples.rawFile; Examples.zipEntry; Examples.headeredFile].
Proof.
  rewrite (proj1 (proj2 (proj2
    (@index_sorted_by_preference Examples.collator Examples.indexerEnv
       JSArrayFacts.codeUnitCompare_consistent
       [Examples.headeredFile; Examples.zipEntry; Examples.rawFile]))) "H"%string).
  reflexivity.
Defined.

(** C6 (as stated) fails: the comparison of the paths is no total
    tiebreaker.  The two entries [a.rom] and [copy.rom] of the archive
    [/input/b.zip] have the same content and the path of their archive, so
    that they tie, and each stands first in the index when it is given
    first. *)
Lemma same_path_files_tie :
  ¬ @IndexerPreference.totalTiebreaker Examples.collator
  ∧ Examples.zipEntry ≠ MoreExamples.zipCopy
  ∧ @FileIndexer.compareFiles Examples.collator Examples.indexerEnv "H"
      Examples.zipEntry MoreExamples.zipCopy = 0
  ∧ @FileIndexer.index Examples.collator Examples.indexerEnv
      [Examples.zipEntry; MoreExamples.zipCopy] !! "H"%string
    = Some [Examples.zipEntry; MoreExamples.zipCopy]
  ∧ @FileIndexer.index Examples.collator Examples.indexerEnv
      [MoreExamples.zipCopy; Examples.zipEntry] !! "H"%string
    = Some [MoreExamples.zipCopy; Examples.zipEntry].
Proof.
  split.
  - intros Htotal.
    by apply (Htotal Examples.zipEntry MoreExamples.zipCopy).
  - split; [done|]. split; [done|].
    split; by rewrite index_lookup.
Qed.
End FileIndexerSpec.

(** ** Path sanitizer *)

Module MakeLegalSpec.

Lemma get_mapChars (f : ascii → ascii) (s : string) (i : nat) :
  String.get i (fsPoly.mapChars f s) = f <$> String.get i s.
Proof.
  revert i. induction s as [|c s IH]; intros [|i]; simpl; done.
Qed.

Lemma length_mapChars (f : ascii → ascii) (s : string) :
  String.length (fsPoly.mapChars f s) = String.length s.
Proof. induction s as [|c s IH]; simpl; [done | by rewrite IH]. Qed.

(** A letter is legal on every platform. *)
Lemma legalChar_letter pathSep c :
  fsPoly.isLetter c = true → fsPoly.legalChar pathSep c = c.
Proof.
  unfold fsPoly.legalChar. destruct (fsPoly.isWindows pathSep);
    destruct c as [[] [] [] [] [] [] [] []]; by vm_compute.
Qed.

Lemma legalChar_backslash pathSep : fsPoly.legalChar pathSep "\" = "\"%char.
Proof. unfold fsPoly.legalChar. by destruct (fsPoly.isWindows pathSep). Qed.

Lemma legalChar_separator pathSep c :
  c = "/"%char ∨ c = "\"%char → fsPoly.legalChar pathSep c = c.
Proof.
  unfold fsPoly.legalChar.
  intros [-> | ->]; by destruct (fsPoly.isWindows pathSep).
Qed.

Lemma hasDrive_true filePath :
  fsPoly.hasDrive filePath = true →
  ∃ drive rest,
    filePath = String drive (String ":" (String "\" rest))
    ∧ fsPoly.isLetter drive = true.
Proof.
  unfold fsPoly.hasDrive.
  destruct filePath as [|drive [|colon rest]]; try done.
  destruct (Ascii.eqb_spec colon ":") as [->|Hcolon].
  2: { by destruct colon as [[] [] [] [] [] [] [] []]. }
  destruct rest as [|slash rest]; try done.
  destruct (Ascii.eqb_spec slash "\") as [->|Hslash].
  2: { by destruct slash as [[] [] [] [] [] [] [] []]. }
  intros Hletter. by exists drive, rest.
Qed.

Lemma makeLegal_no_drive filePath pathSep :
  fsPoly.isWindows pathSep && fsPoly.hasDrive filePath = false →
  fsPoly.makeLegal filePath pathSep
  = fsPoly.mapChars (fsPoly.legalChar pathSep) filePath.
Proof.
  unfold fsPoly.makeLegal, fsPoly.hasDrive.
  destruct filePath as [|drive [|colon rest]]; try done.
  destruct (Ascii.eqb_spec colon ":") as [->|Hcolon].
  2: { by destruct colon as [[] [] [] [] [] [] [] []]. }
  destruct rest as [|slash rest]; try done.
  destruct (Ascii.eqb_spec slash "\") as [->|Hslash].
  2: { by destruct slash as [[] [] [] [] [] [] [] []]. }
  by intros ->.
Qed.

(** C9. [makeLegal] keeps the length of the path and rewrites it character
    by character: with the backslash as separator the colon after a leading
    drive letter (followed by a backslash) stays and every other colon
    becomes a semicolon; every other illegal character (double quote,
    asterisk, colon, less-than, greater-than, question mark, pipe) becomes
    an underscore; every other character, the separators among them, stays.
    The paths of the tests come out as the tests expect. *)
Theorem makeLegal_characters (filePath pathSep : string) :
  String.length (fsPoly.makeLegal filePath pathSep) = String.length filePath
  ∧ (∀ i c, String.get i filePath = Some c →
       String.get i (fsPoly.makeLegal filePath pathSep)
       = Some (if fsPoly.isWindows pathSep && fsPoly.hasDrive filePath && (i =? 1)%nat
               then ":"%char
               else if Ascii.eqb c ":" && fsPoly.isWindows pathSep then ";"%char
               else if fsPoly.illegal c then "_"%char
               else c))
  ∧ (∀ c, fsPoly.illegal c = true ↔
          c = fsPoly.quote ∨ c = "*"%char ∨ c = ":"%char ∨ c = "<"%char
          ∨ c = ">"%char ∨ c = "?"%char ∨ c = "|"%char)
  ∧ (∀ i c, String.get i filePath = Some c → c = "/"%char ∨ c = "\"%char →
       String.get i (fsPoly.makeLegal filePath pathSep) = Some c)
  ∧ Forall (λ test, fsPoly.makeLegal test.1 "/" = test.2) Examples.unixPaths
  ∧ Forall (λ test, fsPoly.makeLegal test.1 "\" = test.2) Examples.windowsPaths.
Proof.
  assert (∀ i c, String.get i filePath = Some c →
       String.get i (fsPoly.makeLegal filePath pathSep)
       = Some (if fsPoly.isWindows pathSep && fsPoly.hasDrive filePath && (i =? 1)%nat
               then ":"%char
               else fsPoly.legalChar pathSep c)) as Hget.
  { intros i c Hc.
    destruct (fsPoly.isWindows pathSep && fsPoly.hasDrive filePath) eqn:Hdrive.
    - apply andb_true_iff in Hdrive as [Hwin Hdrive].
      destruct (hasDrive_true filePath Hdrive) as (drive & rest & -> & Hletter).
      unfold fsPoly.makeLegal. rewrite Hwin, Hletter. simpl.
      destruct i as [|[|[|i]]]; simpl in *.
      + injection Hc as <-. by rewrite legalChar_letter.
      + by injection Hc as <-.
      + injection Hc as <-. by rewrite legalChar_backslash.
      + by rewrite get_mapChars, Hc.
    - rewrite makeLegal_no_drive by done. simpl. by rewrite get_mapChars, Hc. }
  split.
  { destruct (fsPoly.isWindows pathSep && fsPoly.hasDrive filePath) eqn:Hdrive.
    - apply andb_true_iff in Hdrive as [Hwin Hdrive].
      destruct (hasDrive_true filePath Hdrive) as (drive & rest & -> & Hletter).
      unfold fsPoly.makeLegal. rewrite Hwin, Hletter. simpl.
      by rewrite length_mapChars.
    - rewrite makeLegal_no_drive by done. apply length_mapChars. }
  split; [done|]. split.
  { intros c. unfold fsPoly.illegal. simpl. rewrite !orb_true_iff.
    rewrite !(Ascii.eqb_eq c). intuition discriminate. }
  split.
  { intros i c Hc Hsep. rewrite (Hget i c Hc).
    rewrite legalChar_separator by done.
    destruct (fsPoly.isWindows pathSep && fsPoly.hasDrive filePath && (i =? 1)%nat)
      eqn:Hdrive; [|done].
    apply andb_true_iff in Hdrive as [Hdrive Hi].
    apply andb_true_iff in Hdrive as [_ Hdrive]. apply Nat.eqb_eq in Hi. subst i.
    unfold fsPoly.hasDrive in Hdrive.
    destruct (hasDrive_true filePath Hdrive) as (drive & rest & -> & _).
    simpl in Hc. injection Hc as <-.
    by destruct Hsep as [? | ?]. }
  split; by repeat constructor.
Qed.
End MakeLegalSpec.

(** ** 7z archives: listing with retries *)

Module SevenZipSpec.
Section listing.
Variable filePath : string.
Variable list7z : nat → SevenZip.Listing.
Variable parseInt : string → option Z.

Abbreviation listed := (SevenZip.listed filePath list7z parseInt).
Abbreviation attempts := (SevenZip.attempts filePath list7z parseInt).
Abbreviation listWithRetries := (SevenZip.listWithRetries filePath list7z parseInt).
Abbreviation getArchiveEntries := (SevenZip.getArchiveEntries filePath list7z parseInt).

Lemma notCached_listed checksumBitmask w :
  SevenZip.getArchiveEntriesNotCached filePath list7z parseInt checksumBitmask w
  = (SevenZip.mkWorld (S (SevenZip.listCalls w)) (SevenZip.timeouts w)
       (SevenZip.memoized w),
     listed checksumBitmask (SevenZip.listCalls w)).
Proof.
  unfold SevenZip.listed, SevenZip.getArchiveEntriesNotCached. simpl.
  by destruct (list7z (SevenZip.listCalls w)).
Qed.

(** The scales of the timeouts that follow the attempts [attempt],
    [attempt + 1], ... *)
Lemma attempts_decisive remaining attempt checksumBitmask w k promise :
  (k < remaining)%nat →
  (∀ j, (j < k)%nat →
     listed checksumBitmask (SevenZip.listCalls w + j) = Resolved []) →
  listed checksumBitmask (SevenZip.listCalls w + k) = promise →
  SevenZip.decisive promise →
  attempts remaining attempt checksumBitmask w
  = (SevenZip.mkWorld (SevenZip.listCalls w + k + 1)
       (SevenZip.timeouts w
          ++ map (λ j, 2 ^ (attempt + Z.of_nat j - 1) * 100) (seq 0 k))
       (SevenZip.memoized w),
     promise).
Proof.
  revert attempt w k.
  induction remaining as [|remaining IH]; intros attempt w k Hk Hempty Hpromise Hdec;
    [lia|].
  cbn [SevenZip.attempts]. rewrite notCached_listed.
  destruct k as [|k].
  - rewrite Nat.add_0_r in Hpromise. rewrite Hpromise. simpl.
    rewrite app_nil_r, Nat.add_0_r, Nat.add_1_r.
    destruct promise as [entries|reason]; [|done].
    destruct entries as [|entry entries]; [done|]. done.
  - rewrite <- (Nat.add_0_r (SevenZip.listCalls w)) at 1.
    rewrite (Hempty 0%nat) by lia. simpl.
    rewrite (IH (attempt + 1) _ k); simpl.
    + f_equal. f_equal; [lia|]. rewrite <- app_assoc. f_equal. simpl.
      rewrite Z.add_0_r. f_equal. rewrite <- seq_shift, map_map.
      apply map_ext. intros j. do 2 f_equal. lia.
    + lia.
    + intros j Hj. rewrite <- (Hempty (S j)) by lia. f_equal. lia.
    + rewrite <- Hpromise. f_equal. lia.
    + done.
Qed.

Lemma attempts_exhausted remaining attempt checksumBitmask w :
  (∀ j, (j < remaining)%nat →
     listed checksumBitmask (SevenZip.listCalls w + j) = Resolved []) →
  attempts remaining attempt checksumBitmask w
  = (SevenZip.mkWorld (SevenZip.listCalls w + remaining)
       (SevenZip.timeouts w
          ++ map (λ j, 2 ^ (attempt + Z.of_nat j - 1) * 100) (seq 0 remaining))
       (SevenZip.memoized w),
     Resolved []).
Proof.
  revert attempt w.
  induction remaining as [|remaining IH]; intros attempt w Hempty.
  - simpl. rewrite app_nil_r, Nat.add_0_r. by destruct w.
  - cbn [SevenZip.attempts]. rewrite notCached_listed.
    rewrite <- (Nat.add_0_r (SevenZip.listCalls w)) at 1.
    rewrite (Hempty 0%nat) by lia. simpl.
    rewrite (IH (attempt + 1)); simpl.
    + f_equal. f_equal; [lia|]. rewrite <- app_assoc. f_equal. simpl.
      rewrite Z.add_0_r. f_equal. rewrite <- seq_shift, map_map.
      apply map_ext. intros j. do 2 f_equal. lia.
    + intros j Hj. rewrite <- (Hempty (S j)) by lia. f_equal. lia.
Qed.

(** A listing without a named entry that is no directory counts as empty. *)
Lemma no_files_filtered (result : list SevenZip.Result) :
  Forall (λ r, SevenZip.isDirectory r = true ∨ SevenZip.name r = EmptyString) result →
  List.filter (λ r, negb (SevenZip.isDirectory r))
    (List.filter SevenZip.hasName result) = [].
Proof.
  induction 1 as [|r result Hr _ IH]; simpl; [done|].
  unfold SevenZip.hasName at 1.
  destruct (String.eqb_spec (SevenZip.name r) EmptyString) as [Hname|Hname]; simpl;
    [done|].
  destruct Hr as [-> | Hr]; [done | by destruct Hname].
Qed.

Lemma listed_empty checksumBitmask n result :
  list7z n = SevenZip.ListResult result →
  Forall (λ r, SevenZip.isDirectory r = true ∨ SevenZip.name r = EmptyString) result →
  listed checksumBitmask n = Resolved [].
Proof.
  intros Hlist Hall. unfold SevenZip.listed, SevenZip.getArchiveEntriesNotCached.
  simpl. rewrite Hlist. simpl. by rewrite no_files_filtered.
Qed.

(** X1. [getArchiveEntries] lists until a listing has entries or fails, at
    most three times: when the first [k] listings (k < 3) come back empty and
    the next one has entries or fails, that one is the result, after [k + 1]
    listings and [k] timeouts of up to 100, 200, ... milliseconds. *)
Theorem listWithRetries_stops_at_first_result checksumBitmask w k promise :
  (k < 3)%nat →
  (∀ j, (j < k)%nat →
     listed checksumBitmask (SevenZip.listCalls w + j) = Resolved []) →
  listed checksumBitmask (SevenZip.listCalls w + k) = promise →
  SevenZip.decisive promise →
  listWithRetries checksumBitmask w
  = (SevenZip.mkWorld (SevenZip.listCalls w + k + 1)
       (SevenZip.timeouts w ++ take k [100; 200; 400])
       (SevenZip.memoized w),
     promise).
Proof.
  intros Hk Hempty Hpromise Hdec. unfold SevenZip.listWithRetries.
  rewrite (attempts_decisive 3 1 checksumBitmask w k promise) by done.
  do 3 f_equal. destruct k as [|[|[|k]]]; try done. lia.
Qed.

(** X2. When three listings in a row hold nothing but directories and
    entries without a name (or nothing at all), [getArchiveEntries] gives up
    with no entries, after three listings and three timeouts of up to 100,
    200 and 400 milliseconds: it also waits after the last attempt. *)
Theorem listWithRetries_gives_up checksumBitmask w :
  (∀ j, (j < 3)%nat →
     ∃ result,
       list7z (SevenZip.listCalls w + j) = SevenZip.ListResult result
       ∧ Forall (λ r, SevenZip.isDirectory r = true ∨ SevenZip.name r = EmptyString)
                result) →
  listWithRetries checksumBitmask w
  = (SevenZip.mkWorld (SevenZip.listCalls w + 3)
       (SevenZip.timeouts w ++ [100; 200; 400])
       (SevenZip.memoized w),
     Resolved []).
Proof.
  intros Hlists. unfold SevenZip.listWithRetries.
  rewrite attempts_exhausted; [done|].
  intros j Hj. destruct (Hlists j Hj) as (result & Hlist & Hall).
  by apply (listed_empty _ _ result).
Qed.

Lemma attempts_last remaining attempt checksumBitmask w :
  (0 < remaining)%nat →
  let settled := attempts remaining attempt checksumBitmask w in
  (SevenZip.listCalls w < SevenZip.listCalls settled.1
                        <= SevenZip.listCalls w + remaining)%nat
  ∧ SevenZip.memoized settled.1 = SevenZip.memoized w
  ∧ settled.2 = listed checksumBitmask (SevenZip.listCalls settled.1 - 1)
  ∧ (settled.2 = Resolved [] →
     SevenZip.listCalls settled.1 = (SevenZip.listCalls w + remaining)%nat).
Proof.
  revert attempt w.
  induction remaining as [|remaining IH]; intros attempt w Hpos; [lia|].
  cbn [SevenZip.attempts]. rewrite notCached_listed.
  destruct (listed checksumBitmask (SevenZip.listCalls w)) as [entries|reason] eqn:Hl.
  - destruct entries as [|entry entries].
    + simpl. destruct remaining as [|remaining].
      * simpl. rewrite Nat.sub_0_r. repeat split; try lia; try done.
      * specialize (IH (attempt + 1)
                       (SevenZip.setTimeout (2 ^ (attempt - 1) * 100)
                          (SevenZip.mkWorld (S (SevenZip.listCalls w))
                             (SevenZip.timeouts w) (SevenZip.memoized w)))).
        destruct IH as (Hcalls & Hmemo & Hlast & Hempty); [lia|].
        simpl in *. repeat split; try lia; try done.
        intros Hnil. rewrite Hempty by done. lia.
    + change (Z.of_nat (length (entry :: entries)) >? 0) with true.
      cbn [fst snd SevenZip.listCalls SevenZip.memoized].
      rewrite Nat.sub_succ, Nat.sub_0_r, Hl. repeat split; try lia; try done.
  - cbn [fst snd SevenZip.listCalls SevenZip.memoized].
    rewrite Nat.sub_succ, Nat.sub_0_r, Hl. repeat split; try lia; try done.
Qed.

Lemma listed_cases checksumBitmask n :
  match listed checksumBitmask n with
  | Resolved archiveEntries =>
      ∃ result,
        list7z n = SevenZip.ListResult result
        ∧ archiveEntries
          = map (SevenZip.entryOf filePath parseInt checksumBitmask)
              (List.filter
                 (λ r, negb (String.eqb (SevenZip.name r) EmptyString)
                       && negb (SevenZip.isDirectory r))
                 result)
  | Rejected reason =>
      ∃ err, list7z n = SevenZip.ListError err ∧ reason = SevenZip.errorMessage err
  end.
Proof.
  unfold SevenZip.listed, SevenZip.getArchiveEntriesNotCached. simpl.
  destruct (list7z n) as [err|result]; simpl.
  - by exists err.
  - exists result. split; [done|]. by rewrite DATModelFacts.filter_filter.
Qed.

(** X3. Whatever the listings are, [getArchiveEntries] calls [_7z.list] at
    least once and at most three times, and what it settles with is the
    outcome of the last listing it made: the named entries of that listing
    that are no directories, in the order of the listing, or the message of
    its error.  It gives no entries only after the third listing. *)
Theorem listWithRetries_returns_last_listing checksumBitmask w :
  let settled := listWithRetries checksumBitmask w in
  let last := list7z (SevenZip.listCalls settled.1 - 1) in
  (SevenZip.listCalls w < SevenZip.listCalls settled.1 <= SevenZip.listCalls w + 3)%nat
  ∧ match settled.2 with
    | Resolved archiveEntries =>
        ∃ result,
          last = SevenZip.ListResult result
          ∧ archiveEntries
            = map (SevenZip.entryOf filePath parseInt checksumBitmask)
                (List.filter
                   (λ r, negb (String.eqb (SevenZip.name r) EmptyString)
                         && negb (SevenZip.isDirectory r))
                   result)
          ∧ (archiveEntries = [] →
             SevenZip.listCalls settled.1 = (SevenZip.listCalls w + 3)%nat)
    | Rejected reason =>
        ∃ err, last = SevenZip.ListError err ∧ reason = SevenZip.errorMessage err
    end.
Proof.
  intros settled last.
  destruct (attempts_last 3 1 checksumBitmask w) as (Hcalls & _ & Hlast & Hempty);
    [lia|].
  fold (listWithRetries checksumBitmask w) in Hcalls, Hlast, Hempty.
  fold settled in Hcalls, Hlast, Hempty. split; [done|].
  pose proof (listed_cases checksumBitmask (SevenZip.listCalls settled.1 - 1))
    as Hcases.
  rewrite <- Hlast in Hcases. fold last in Hcases.
  destruct (settled.2) as [archiveEntries|reason]; [|done].
  destruct Hcases as (result & Hresult & Hentries). exists result.
  split; [done|]. split; [done|]. intros ->. by apply Hempty.
Qed.

(** X4. [@Memoize()] keeps what [getArchiveEntries] returned for a checksum
    bitmask, entries or none or a rejection: the next call with that bitmask
    returns it without listing, and a call lists only when the bitmask was
    not asked for before. *)
Theorem getArchiveEntries_memoized checksumBitmask w :
  let first := getArchiveEntries checksumBitmask w in
  getArchiveEntries checksumBitmask first.1 = first
  ∧ SevenZip.memoized first.1 !! checksumBitmask = Some first.2
  ∧ (is_Some (SevenZip.memoized w !! checksumBitmask) → first.1 = w)
  ∧ (SevenZip.memoized w !! checksumBitmask = None →
     (SevenZip.listCalls w < SevenZip.listCalls first.1)%nat
     ∧ ∀ other, other ≠ checksumBitmask →
         SevenZip.memoized first.1 !! other = SevenZip.memoized w !! other).
Proof.
  intros first. subst first. unfold SevenZip.getArchiveEntries.
  destruct (SevenZip.memoized w !! checksumBitmask) as [promise|] eqn:Hmemo.
  - simpl. rewrite Hmemo. by repeat split.
  - destruct (attempts_last 3 1 checksumBitmask w) as (Hcalls & Hsame & _); [lia|].
    fold (listWithRetries checksumBitmask w) in Hcalls, Hsame.
    destruct (listWithRetries checksumBitmask w) as [w' promise]. simpl in *.
    rewrite lookup_insert_eq. repeat split; try done; try lia.
    intros other Hother. by rewrite lookup_insert_ne, Hsame.
Qed.
End listing.

Lemma listWithRetries_stops_at_first_result_witness :
  SevenZip.listWithRetries "a.7z" MoreExamples.flakyList MoreExamples.parseDigits 1
    MoreExamples.freshWorld
  = (SevenZip.mkWorld 2 [100] ∅,
     Resolved [SevenZip.mkEntry "a.7z" "game.rom" (Some 1024) (Some "12345678") 1]).
Proof.
  apply (listWithRetries_stops_at_first_result "a.7z" MoreExamples.flakyList
           MoreExamples.parseDigits 1 MoreExamples.freshWorld 1).
  - lia.
  - intros [|j] Hj; [reflexivity | lia].
  - reflexivity.
  - discriminate.
Defined.

Lemma listWithRetries_gives_up_witness :
  SevenZip.listWithRetries "a.7z" MoreExamples.dirOnlyList MoreExamples.parseDigits 1
    MoreExamples.freshWorld
  = (SevenZip.mkWorld 3 [100; 200; 400] ∅, Resolved []).
Proof.
  apply (listWithRetries_gives_up "a.7z" MoreExamples.dirOnlyList
           MoreExamples.parseDigits 1 MoreExamples.freshWorld).
  intros j Hj. exists [MoreExamples.dirResult]. split; [reflexivity|].
  constructor; [by left | constructor].
Defined.
End SevenZipSpec.

(** ** 7z archives: extraction of one entry *)

Module ExtractSpec.
Import SevenZip.

(** Case analysis on every answer that [extractEntryToFile] awaits. *)
Ltac answer :=
  match goal with
  | |- context [match ?o with Resolved _ => _ | Rejected _ => _ end] =>
      lazymatch o with
      | Resolved _ => fail
      | Rejected _ => fail
      | _ => destruct o as [?|?] eqn:?
      end
  | |- context [if ?b then _ else _] =>
      lazymatch b with
      | true => fail
      | false => fail
      | _ => destruct b eqn:?
      end
  end.

Ltac run :=
  unfold extractEntryToFile, mbind, Async_bind, andThen, tryFinally, await, throw,
    resolve.

Section extraction.
Variable sys : System.
Variables filePath entryPath extractedFilePath : string.

Abbreviation extract := (extractEntryToFile sys filePath entryPath extractedFilePath).

(** X5. [extractEntryToFile] always cleans up after itself: when the
    temporary directory cannot be made nothing else is called; when it is
    made, removing it is the last call on every path (7z failing, nothing or
    too much extracted, the move failing, or success), it is removed once,
    and a failure to remove it is what the caller sees. *)
Theorem extractEntryToFile_removes_tempDir (log : list Call) :
  match mkdtemp sys (tempPrefix sys) with
  | Rejected reason =>
      extract log = ((log ++ [Mkdtemp (tempPrefix sys)])%list, Rejected reason)
  | Resolved tempDir =>
      ∃ body,
        (extract log).1
        = (log ++ Mkdtemp (tempPrefix sys) :: body ++ [Rm tempDir])%list
        ∧ forallb (λ call, negb (isTempDirCall call)) body = true
        ∧ ∀ reason, rm sys tempDir = Rejected reason →
            (extract log).2 = Rejected reason
  end.
Proof.
  run. destruct (mkdtemp sys (tempPrefix sys)) as [tempDir|reason]; [|done].
  repeat (simpl; answer); repeat rewrite <- app_assoc; simpl;
    match goal with
    | |- ∃ body, (_ ++ _ :: ?calls)%list = @?rhs body ∧ @?rest body =>
        exists (removelast calls)
    end; simpl; (split; [done|]); (split; [done|]); congruence.
Qed.

(** X6. The only thing [extractEntryToFile] ever moves is the extracted
    entry, and only to [extractedFilePath]: a move happens only after 7z
    succeeded, from the entry's path under the temporary directory, or, on
    Windows when no file is at that path, from the single file found under
    the temporary directory. *)
Theorem extractEntryToFile_moves_entry (log : list Call) (oldPath newPath : string) :
  In (Mv oldPath newPath) (extract log).1 →
  ¬ In (Mv oldPath newPath) log →
  newPath = extractedFilePath
  ∧ ∃ tempDir,
      mkdtemp sys (tempPrefix sys) = Resolved tempDir
      ∧ cmd sys (extractArgs filePath tempDir entryPath) = Resolved tt
      ∧ (oldPath = join sys tempDir entryPath
         ∧ (platform sys ≠ "win32"
            ∨ exists_ sys (join sys tempDir entryPath) = Resolved true)
         ∨ platform sys = "win32"
           ∧ exists_ sys (join sys tempDir entryPath) = Resolved false
           ∧ walk sys tempDir = Resolved [oldPath]).
Proof.
  intros Hin Hnot. revert Hin. run.
  destruct (mkdtemp sys (tempPrefix sys)) as [tempDir|reason];
  repeat (simpl; answer); repeat rewrite <- app_assoc; simpl;
    rewrite in_app_iff; (intros [Hin|Hin]; [done|]); simpl in Hin;
    repeat (destruct Hin as [Hin|Hin]; try discriminate Hin); try done;
    injection Hin as <- <-;
    (split; [done|]); exists tempDir; (split; [done|]);
    (split; [match goal with H : cmd _ _ = Resolved ?u |- _ => by destruct u end|]);
    try (left; split; [done|]; left; by apply String.eqb_neq);
    match goal with H : negb ?found = _ |- _ => destruct found; try discriminate H end;
    try (left; split; [done|]; by right);
    right; (split; [by apply String.eqb_eq|]); (split; [done|]);
    match goal with
    | H : (Z.of_nat (length ?files) =? 0) = false,
      H' : (Z.of_nat (length ?files) >? 1) = false |- _ =>
        destruct files as [|file [|file' files]]; [discriminate H | done |];
        rewrite Z.gtb_ltb, Z.ltb_ge in H'; simpl length in H'; lia
    end.
Qed.

(** X7. On Windows, when 7z succeeded but no file is at the entry's path
    under the temporary directory, the directory is walked: no file found is
    the error [failed to extract any files], more than one is the error
    [extracted too many files], both without any move, and exactly one file
    is the one moved to [extractedFilePath]. *)
Theorem extractEntryToFile_windows_fallback (log : list Call) (tempDir : string)
    (files : list string) :
  platform sys = "win32" →
  mkdtemp sys (tempPrefix sys) = Resolved tempDir →
  cmd sys (extractArgs filePath tempDir entryPath) = Resolved tt →
  exists_ sys (join sys tempDir entryPath) = Resolved false →
  walk sys tempDir = Resolved files →
  rm sys tempDir = Resolved tt →
  extract log
  = ((log ++ [Mkdtemp (tempPrefix sys);
              Cmd (extractArgs filePath tempDir entryPath);
              Exists (join sys tempDir entryPath);
              Walk tempDir]
          ++ match files with
             | [file] => [Mv file extractedFilePath]
             | _ => []
             end
          ++ [Rm tempDir])%list,
     match files with
     | [] => Rejected "failed to extract any files"
     | [file] => mv sys file extractedFilePath
     | _ => Rejected "extracted too many files"
     end).
Proof.
  intros Hplatform Hmkdtemp Hcmd Hexists Hwalk Hrm. run.
  rewrite Hmkdtemp. simpl. rewrite Hcmd, Hplatform. simpl.
  rewrite Hexists. simpl. rewrite Hwalk.
  destruct files as [|file [|file' files]]; simpl.
  - rewrite Hrm. by repeat rewrite <- app_assoc.
  - rewrite Hrm. repeat rewrite <- app_assoc. simpl.
    by destruct (mv sys file extractedFilePath).
  - change (Z.of_nat (S (S (length files))) >? 1) with
      (Z.pos (Pos.of_succ_nat (S (length files))) >? 1).
    replace (Z.pos (Pos.of_succ_nat (S (length files))) >? 1) with true
      by (symmetry; rewrite Z.gtb_ltb, Z.ltb_lt; lia).
    simpl. rewrite Hrm. by repeat rewrite <- app_assoc.
Qed.

(** X8. Off Windows [extractEntryToFile] never looks for the extracted
    file: it calls neither [fsPoly.exists] nor [fsPoly.walk]. *)
Theorem extractEntryToFile_probes_only_on_windows (log : list Call) :
  platform sys ≠ "win32" →
  List.filter isProbe (extract log).1 = List.filter isProbe log.
Proof.
  intros Hplatform. apply String.eqb_neq in Hplatform. run. rewrite Hplatform.
  destruct (mkdtemp sys (tempPrefix sys)) as [tempDir|reason];
    repeat (simpl; answer); repeat rewrite <- app_assoc;
    cbn [fst]; rewrite List.filter_app; simpl; by rewrite app_nil_r.
Qed.
End extraction.

Lemma extractEntryToFile_moves_entry_witness :
  let sys := MoreExamples.system "win32" ["/tmp/7zXXXXXX/found.rom"] in
  "out.rom" = "out.rom"
  ∧ ∃ tempDir,
      mkdtemp sys (tempPrefix sys) = Resolved tempDir
      ∧ cmd sys (extractArgs "a.7z" tempDir "game.rom") = Resolved tt
      ∧ ("/tmp/7zXXXXXX/found.rom" = join sys tempDir "game.rom"
         ∧ (platform sys ≠ "win32"
            ∨ exists_ sys (join sys tempDir "game.rom") = Resolved true)
         ∨ platform sys = "win32"
           ∧ exists_ sys (join sys tempDir "game.rom") = Resolved false
           ∧ walk sys tempDir = Resolved ["/tmp/7zXXXXXX/found.rom"]).
Proof.
  intros sys.
  apply (extractEntryToFile_moves_entry sys "a.7z" "game.rom" "out.rom" []
           "/tmp/7zXXXXXX/found.rom" "out.rom").
  - vm_compute. tauto.
  - simpl. tauto.
Defined.

Lemma extractEntryToFile_windows_fallback_witness :
  extractEntryToFile (MoreExamples.system "win32" []) "a.7z" "game.rom" "out.rom" []
  = ([Mkdtemp "/tmp/7z";
      Cmd ["x"; "a.7z"; "-y"; "-o/tmp/7zXXXXXX"; "game.rom"; "-r"];
      Exists "/tmp/7zXXXXXX/game.rom";
      Walk "/tmp/7zXXXXXX";
      Rm "/tmp/7zXXXXXX"],
     Rejected "failed to extract any files").
Proof.
  apply (extractEntryToFile_windows_fallback (MoreExamples.system "win32" [])
           "a.7z" "game.rom" "out.rom" [] "/tmp/7zXXXXXX" []); reflexivity.
Defined.

Lemma extractEntryToFile_probes_only_on_windows_witness :
  List.filter isProbe
    (extractEntryToFile (MoreExamples.system "linux" []) "a.7z" "game.rom" "out.rom"
       [Exists "a.7z"]).1
  = [Exists "a.7z"].
Proof.
  apply (extractEntryToFile_probes_only_on_windows (MoreExamples.system "linux" [])
           "a.7z" "game.rom" "out.rom" [Exists "a.7z"]).
  discriminate.
Defined.
End ExtractSpec.

(** ** DAT merger/splitter: what [mergeParent] does to a parent class *)

Module MergeParentSpec.
Section classes.
Context `{RomHasher} `{Collator}.

Lemma parentGameOf_identity names a b :
  Game.sameIdentity a b →
  DATMergerSplitter.parentGameOf names a = DATMergerSplitter.parentGameOf names b.
Proof.
  intros (_ & Hparent & _). unfold DATMergerSplitter.parentGameOf.
  by rewrite Hparent.
Qed.

Lemma reshapeGame_split names g :
  DATMergerSplitter.reshapeGame (Some SPLIT) names g
  = DATMergerSplitter.excludeParentRoms names
      (DATMergerSplitter.excludeBiosRoms names (DATMergerSplitter.sanitize g)).
Proof. done. Qed.

Lemma reshapeGame_full names g :
  DATMergerSplitter.reshapeGame (Some FULLNONMERGED) names g
  = DATMergerSplitter.includeDeviceRoms names (DATMergerSplitter.sanitize g).
Proof. done. Qed.

Lemma reshapeGame_split_In names g rom :
  In rom (Game.getRoms (DATMergerSplitter.reshapeGame (Some SPLIT) names g)) ↔
  In rom (Game.getRoms (DATMergerSplitter.sanitize g))
  ∧ match DATMergerSplitter.biosGameOf names g with
    | None => True
    | Some biosGame =>
        DATMergerSplitter.keepRom
          (DATMergerSplitter.parentRomNamesToHashCodes
             (DATMergerSplitter.biosOnly biosGame)) rom = true
    end
  ∧ match DATMergerSplitter.parentGameOf names g with
    | None => True
    | Some parentGame =>
        DATMergerSplitter.keepRom
          (DATMergerSplitter.parentRomNamesToHashCodes parentGame) rom = true
    end.
Proof.
  rewrite reshapeGame_split, NoneSpec.excludeParentRoms_roms.
  rewrite (parentGameOf_identity names _ (DATMergerSplitter.sanitize g))
    by apply MergeFacts.excludeBiosRoms_identity.
  rewrite (parentGameOf_identity names _ g) by apply MergeFacts.sanitize_identity.
  assert (In rom (Game.getRoms (DATMergerSplitter.excludeBiosRoms names
                                  (DATMergerSplitter.sanitize g)))
          ↔ In rom (Game.getRoms (DATMergerSplitter.sanitize g))
            ∧ match DATMergerSplitter.biosGameOf names g with
              | None => True
              | Some biosGame =>
                  DATMergerSplitter.keepRom
                    (DATMergerSplitter.parentRomNamesToHashCodes
                       (DATMergerSplitter.biosOnly biosGame)) rom = true
              end) as Hbios.
  { rewrite NoneSpec.excludeBiosRoms_roms.
    rewrite (NoneSpec.biosGameOf_identity names _ g)
      by apply MergeFacts.sanitize_identity.
    destruct (DATMergerSplitter.biosGameOf names g) as [biosGame|]; [|tauto].
    rewrite JSArrayFacts.sort_In. unfold DATMergerSplitter.diffGameRoms.
    by rewrite filter_In. }
  destruct (DATMergerSplitter.parentGameOf names g) as [parentGame|]; [|tauto].
  rewrite JSArrayFacts.sort_In. unfold DATMergerSplitter.diffGameRoms.
  rewrite filter_In. tauto.
Qed.

(** X9. For every mode but MERGED, [mergeParent] keeps the games of a
    class of one parent game followed by its clones: as many games come out
    as went in, in the same order and with the same name, parent, BIOS,
    device references and class; only their ROMs change. *)
Theorem mergeParent_keeps_class (getMergeRoms : option MergeMode)
    (parent : Parent.t) (names : gmap string Game.t) :
  getMergeRoms ≠ Some MERGED →
  Forall (λ clone, Game.isClone clone = true) (tail (Parent.getGames parent)) →
  Forall2 (λ game game', Game.sameIdentity game' game)
    (Parent.getGames parent)
    (DATMergerSplitter.mergeParent getMergeRoms parent names).
Proof.
  intros Hmode Hclones. rewrite MergeFacts.mergeParent_not_merged by done.
  apply DATModelFacts.Forall2_map_self. intros game.
  apply MergeFacts.reshapeGame_identity.
Qed.

(** X10. In mode SPLIT a game keeps exactly the ROMs that sanitization
    leaves it and that [diffGameRoms] finds neither among the BIOS ROMs of
    its BIOS game nor among the ROMs of its parent game, both looked up
    in the DAT as it was given; a reference that is empty or names no game
    takes nothing away. *)
Theorem mergeParent_split_roms (parent : Parent.t) (names : gmap string Game.t) :
  Forall (λ clone, Game.isClone clone = true) (tail (Parent.getGames parent)) →
  Forall2
    (λ game game',
       ∀ rom,
         In rom (Game.getRoms game') ↔
         In rom (Game.getRoms (DATMergerSplitter.sanitize game))
         ∧ match DATMergerSplitter.biosGameOf names game with
           | None => True
           | Some biosGame =>
               DATMergerSplitter.keepRom
                 (DATMergerSplitter.parentRomNamesToHashCodes
                    (DATMergerSplitter.biosOnly biosGame)) rom = true
           end
         ∧ match DATMergerSplitter.parentGameOf names game with
           | None => True
           | Some parentGame =>
               DATMergerSplitter.keepRom
                 (DATMergerSplitter.parentRomNamesToHashCodes parentGame) rom = true
           end)
    (Parent.getGames parent)
    (DATMergerSplitter.mergeParent (Some SPLIT) parent names).
Proof.
  intros Hclones. rewrite MergeFacts.mergeParent_not_merged by done.
  apply DATModelFacts.Forall2_map_self. intros game rom.
  apply reshapeGame_split_In.
Qed.

(** X11. In mode FULLNONMERGED a machine gets, besides the ROMs that
    sanitization leaves it, every ROM of every game that one of its device
    references names, once per reference and without any sanitization of
    theirs; a game that is no machine is only sanitized.  No ROM is taken
    away for a BIOS or a parent. *)
Theorem mergeParent_fullnonmerged_roms (parent : Parent.t)
    (names : gmap string Game.t) :
  Forall (λ clone, Game.isClone clone = true) (tail (Parent.getGames parent)) →
  Forall2
    (λ game game',
       Permutation (Game.getRoms game')
         ((if Game.isMachine game
           then flat_map Game.getRoms
                  (omap (λ deviceRef, names !! deviceRef) (Game.getDeviceRefs game))
           else [])
          ++ Game.getRoms (DATMergerSplitter.sanitize game)))
    (Parent.getGames parent)
    (DATMergerSplitter.mergeParent (Some FULLNONMERGED) parent names).
Proof.
  intros Hclones. rewrite MergeFacts.mergeParent_not_merged by done.
  apply DATModelFacts.Forall2_map_self. intros game.
  rewrite reshapeGame_full. unfold DATMergerSplitter.includeDeviceRoms.
  change (Game.isMachine (DATMergerSplitter.sanitize game))
    with (Game.isMachine game).
  change (Game.getDeviceRefs (DATMergerSplitter.sanitize game))
    with (Game.getDeviceRefs game).
  destruct (Game.isMachine game); simpl negb; cbv iota; [|done].
  cbn [Game.getRoms Game.withRoms]. apply JSArrayFacts.sort_perm.
Qed.

Lemma find_none_of {A} (p : A → bool) (l : list A) :
  (∀ x, In x l → p x = false) → List.find p l = None.
Proof.
  induction l as [|x l IH]; simpl; [done|]. intros Hall.
  rewrite (Hall x) by by left. apply IH. intros y Hy. apply Hall. by right.
Qed.

Lemma mergeParent_In (getMergeRoms : option MergeMode) parent names game :
  getMergeRoms ≠ Some MERGED →
  In game (DATMergerSplitter.mergeParent getMergeRoms parent names) →
  ∃ given,
    In given (Parent.getGames parent)
    ∧ game = DATMergerSplitter.reshapeGame getMergeRoms names given.
Proof.
  intros Hmode. unfold DATMergerSplitter.mergeParent.
  rewrite MergeFacts.reshape_map.
  replace (DATMergerSplitter.isMode getMergeRoms MERGED) with false
    by (symmetry; by apply bool_decide_eq_false). simpl negb. cbv iota.
  intros Hin.
  assert (In game (map (DATMergerSplitter.reshapeGame getMergeRoms names)
                       (Parent.getGames parent))) as Hgame.
  { destruct (List.find _ _) as [first|] eqn:Hfind.
    - destruct Hin as [<- | Hin]; [by apply find_some in Hfind as [? _]|].
      by apply filter_In in Hin as [? _].
    - by apply filter_In in Hin as [? _]. }
  apply in_map_iff in Hgame as (given & <- & Hgiven). by exists given.
Qed.

Section sorted.
Context `{!Consistent localeCompareNumeric}.

(** X12. For every mode but MERGED, the ROMs of each game that
    [mergeParent] returns are in the order of [romSortFunc], and, but for
    FULLNONMERGED, no two of them have the same name. *)
Theorem mergeParent_roms_sorted (getMergeRoms : option MergeMode)
    (parent : Parent.t) (names : gmap string Game.t) (game : Game.t) :
  getMergeRoms ≠ Some MERGED →
  In game (DATMergerSplitter.mergeParent getMergeRoms parent names) →
  Sorted (JSArray.before DATMergerSplitter.romSortFunc) (Game.getRoms game)
  ∧ (getMergeRoms ≠ Some FULLNONMERGED →
     NoDup (map ROM.getName (Game.getRoms game))).
Proof.
  intros Hmode Hin.
  destruct (mergeParent_In _ _ _ _ Hmode Hin) as (given & _ & ->).
  pose proof (IdempotenceSpec.sanitize_sanitized given) as Hsanitized.
  pose proof (IdempotenceSpec.romSortFunc_consistent) as Hconsistent.
  destruct getMergeRoms as [[]|]; try done.
  - rewrite reshapeGame_full. split; [|done].
    unfold DATMergerSplitter.includeDeviceRoms.
    destruct (Game.isMachine _); simpl negb; cbv iota; [|apply Hsanitized].
    cbn [Game.getRoms Game.withRoms]. by apply JSArrayFacts.sort_sorted.
  - rewrite NoneSpec.reshapeGame_none.
    destruct (IdempotenceSpec.excludeBiosRoms_sanitized names _ Hsanitized).
    by split.
  - rewrite reshapeGame_split.
    destruct (IdempotenceSpec.excludeParentRoms_sanitized names _
                (IdempotenceSpec.excludeBiosRoms_sanitized names _ Hsanitized)).
    by split.
  - destruct (IdempotenceSpec.excludeBiosRoms_sanitized names _ Hsanitized).
    by split.
Qed.
End sorted.

(** X13. [merge] resolves a game name to the last game of the DAT that
    bears it: BIOS, parent and device references to a name that several
    games bear all go to the last of them, and a name that no game bears
    resolves to nothing. *)
Theorem gameNamesToGames_last_wins (dat : DAT.t) (name : string) :
  DATMergerSplitter.gameNamesToGames dat !! name
  = List.find (λ game, String.eqb (Game.getName game) name) (rev (DAT.getGames dat))
  ∧ (DATMergerSplitter.gameNamesToGames dat !! name = None
     ↔ ∀ game, In game (DAT.getGames dat) → Game.getName game ≠ name)
  ∧ ∀ before game after,
      DAT.getGames dat = before ++ game :: after →
      Game.getName game = name →
      (∀ later, In later after → Game.getName later ≠ name) →
      DATMergerSplitter.gameNamesToGames dat !! name = Some game.
Proof.
  assert (DATMergerSplitter.gameNamesToGames dat !! name
          = List.find (λ game, String.eqb (Game.getName game) name)
                      (rev (DAT.getGames dat))) as Hlookup.
  { unfold DATMergerSplitter.gameNamesToGames.
    rewrite (JSArrayFacts.foldl_insert_lookup Game.getName (λ game, game)).
    by destruct (List.find _ _). }
  split; [done|]. rewrite Hlookup. split.
  - split.
    + intros Hnone game Hin Hname. apply in_rev in Hin.
      pose proof (find_none _ _ Hnone game Hin) as Hno. simpl in Hno.
      by apply String.eqb_neq in Hno.
    + intros Hno. destruct (List.find _ _) as [game|] eqn:Hfind; [|done].
      apply find_some in Hfind as [Hin Hname]. apply String.eqb_eq in Hname.
      destruct (Hno game); [by apply in_rev | done].
  - intros before game after -> Hname Hafter.
    rewrite rev_app_distr. simpl. rewrite <- app_assoc.
    rewrite JSArrayFacts.find_app_first.
    rewrite find_none_of; simpl.
    + by rewrite (proj2 (String.eqb_eq _ _) Hname).
    + intros later Hlater. apply in_rev in Hlater. apply String.eqb_neq.
      by apply Hafter.
Qed.

(** X14. A DAT that went through mode MERGED has no clone left, so that
    merging it again, in whatever mode, returns it as it is. *)
Theorem merge_after_merged (getMergeRoms : option MergeMode) (dat : DAT.t) :
  let merged := DATMergerSplitter.merge (Some MERGED) dat in
  DATModel.hasParentCloneInfo merged = false
  ∧ DATMergerSplitter.merge getMergeRoms merged = merged.
Proof.
  intros merged.
  assert (DATModel.hasParentCloneInfo merged = false) as Hnone.
  { destruct (DATModel.hasParentCloneInfo dat) eqn:Hinfo.
    - by apply IdempotenceSpec.merged_no_clones.
    - subst merged. rewrite MergeFacts.merge_unchanged; [done | by right]. }
  split; [done|]. apply MergeFacts.merge_unchanged. by right.
Qed.
End classes.

Lemma mergeParent_keeps_class_witness :
  Forall2 (λ game game', Game.sameIdentity game' game)
    [Examples.splitP; Examples.splitC]
    (@DATMergerSplitter.mergeParent Examples.hasher Examples.collator (Some SPLIT)
       (Parent.mk "P" [Examples.splitP; Examples.splitC])
       (DATMergerSplitter.gameNamesToGames Examples.splitDat)).
Proof.
  apply (@mergeParent_keeps_class Examples.hasher Examples.collator (Some SPLIT)
           (Parent.mk "P" [Examples.splitP; Examples.splitC])
           (DATMergerSplitter.gameNamesToGames Examples.splitDat)).
  - discriminate.
  - repeat constructor.
Defined.

Lemma mergeParent_split_roms_witness :
  let names := DATMergerSplitter.gameNamesToGames Examples.splitDat in
  Forall2
    (λ game game',
       ∀ rom,
         In rom (Game.getRoms game') ↔
         In rom (Game.getRoms
                   (@DATMergerSplitter.sanitize Examples.collator game))
         ∧ match DATMergerSplitter.biosGameOf names game with
           | None => True
           | Some biosGame =>
               @DATMergerSplitter.keepRom Examples.hasher
                 (@DATMergerSplitter.parentRomNamesToHashCodes Examples.hasher
                    (DATMergerSplitter.biosOnly biosGame)) rom = true
           end
         ∧ match DATMergerSplitter.parentGameOf names game with
           | None => True
           | Some parentGame =>
               @DATMergerSplitter.keepRom Examples.hasher
                 (@DATMergerSplitter.parentRomNamesToHashCodes Examples.hasher
                    parentGame) rom = true
           end)
    [Examples.splitP; Examples.splitC]
    (@DATMergerSplitter.mergeParent Examples.hasher Examples.collator (Some SPLIT)
       (Parent.mk "P" [Examples.splitP; Examples.splitC]) names).
Proof.
  apply (@mergeParent_split_roms Examples.hasher Examples.collator
           (Parent.mk "P" [Examples.splitP; Examples.splitC])
           (DATMergerSplitter.gameNamesToGames Examples.splitDat)).
  repeat constructor.
Defined.

Lemma mergeParent_fullnonmerged_roms_witness :
  let names := DATMergerSplitter.gameNamesToGames Examples.deviceDat in
  Forall2
    (λ game game',
       Permutation (Game.getRoms game')
         ((if Game.isMachine game
           then flat_map Game.getRoms
                  (omap (λ deviceRef, names !! deviceRef) (Game.getDeviceRefs game))
           else [])
          ++ Game.getRoms (@DATMergerSplitter.sanitize Examples.collator game)))
    [Examples.devM; Examples.devC]
    (@DATMergerSplitter.mergeParent Examples.hasher Examples.collator
       (Some FULLNONMERGED) (Parent.mk "M" [Examples.devM; Examples.devC]) names).
Proof.
  apply (@mergeParent_fullnonmerged_roms Examples.hasher Examples.collator
           (Parent.mk "M" [Examples.devM; Examples.devC])
           (DATMergerSplitter.gameNamesToGames Examples.deviceDat)).
  repeat constructor.
Defined.

Lemma mergeParent_roms_sorted_witness :
  let roms := [Examples.rom "b" "H3"; Examples.rom "c" "H4"] in
  Sorted (JSArray.before (@DATMergerSplitter.romSortFunc Examples.collator)) roms
  ∧ (Some SPLIT ≠ Some FULLNONMERGED → NoDup (map ROM.getName roms)).
Proof.
  apply (@mergeParent_roms_sorted Examples.hasher Examples.collator
           JSArrayFacts.codeUnitCompare_consistent (Some SPLIT)
           (Parent.mk "P" [Examples.splitP; Examples.splitC])
           (DATMergerSplitter.gameNamesToGames Examples.splitDat)
           (Game.withRoms [Examples.rom "b" "H3"; Examples.rom "c" "H4"]
              Examples.splitC)).
  - discriminate.
  - right. left. by vm_compute.
Defined.
End MergeParentSpec.

(** ** Fixdat creator: candidates and header *)

Module FixdatFacts.
Lemma filter_sublist {A} (p q : A → bool) (l : list A) :
  (∀ x, p x = true → q x = true) →
  sublist (List.filter p l) (List.filter q l).
Proof.
  intros Hpq. induction l as [|x l IH]; simpl; [constructor|].
  destruct (p x) eqn:Hp.
  - rewrite (Hpq x Hp). by constructor.
  - destruct (q x); [by constructor | done].
Qed.

Lemma filter_sublist_self {A} (p : A → bool) (l : list A) :
  sublist (List.filter p l) l.
Proof.
  induction l as [|x l IH]; simpl; [constructor|].
  destruct (p x); by constructor.
Qed.

(** No white space of two or three bytes has a space among its bytes. *)
Lemma isSpaceOfTwo_space (b1 : nat) : JS.isSpaceOfTwo b1 32 = false.
Proof. unfold JS.isSpaceOfTwo. by rewrite andb_false_r. Qed.

Lemma isSpaceOfThree_space2 (b1 b3 : nat) : JS.isSpaceOfThree b1 32 b3 = false.
Proof.
  unfold JS.isSpaceOfThree.
  change (32 =? 154)%nat with false. change (32 =? 128)%nat with false.
  change (32 =? 129)%nat with false. change (32 =? 187)%nat with false.
  by rewrite !andb_false_r.
Qed.

Lemma isSpaceOfThree_space3 (b1 b2 : nat) : JS.isSpaceOfThree b1 b2 32 = false.
Proof.
  unfold JS.isSpaceOfThree.
  change (32 =? 128)%nat with false. change (32 =? 159)%nat with false.
  change (32 =? 191)%nat with false. change (32 =? 168)%nat with false.
  change (32 =? 169)%nat with false. change (32 =? 175)%nat with false.
  change (128 <=? 32)%nat with false.
  by rewrite !andb_false_r.
Qed.

(** [`${text} fixdat`.trimStart()] *)
Lemma trimStart_fixdat_upto (n : nat) (s : string) :
  (String.length s <= n)%nat →
  JS.trimStart (s ++ " fixdat")
  = match JS.trimStart s with
    | EmptyString => "fixdat"%string
    | trimmed => (trimmed ++ " fixdat")%string
    end.
Proof.
  revert s. induction n as [|n IH]; intros s Hlen.
  { destruct s; [done | simpl in Hlen; lia]. }
  destruct s as [|c1 s1]; [done|].
  change (String c1 s1 ++ " fixdat")%string with (String c1 (s1 ++ " fixdat")).
  cbn [JS.trimStart]. simpl in Hlen.
  destruct (JS.isSpace c1); [apply IH; lia|].
  destruct s1 as [|c2 s2].
  { change (EmptyString ++ " fixdat")%string with (String " " "fixdat").
    cbn iota. change (nat_of_ascii " ") with 32%nat.
    by rewrite isSpaceOfTwo_space, isSpaceOfThree_space2. }
  change (String c2 s2 ++ " fixdat")%string with (String c2 (s2 ++ " fixdat")).
  cbn iota. simpl in Hlen.
  destruct (JS.isSpaceOfTwo _ _); [apply IH; lia|].
  destruct s2 as [|c3 s3].
  { change (EmptyString ++ " fixdat")%string with (String " " "fixdat").
    cbn iota. change (nat_of_ascii " ") with 32%nat.
    by rewrite isSpaceOfThree_space3. }
  change (String c3 s3 ++ " fixdat")%string with (String c3 (s3 ++ " fixdat")).
  cbn iota. simpl in Hlen.
  destruct (JS.isSpaceOfThree _ _ _); [apply IH; lia | done].
Qed.

Lemma trimStart_fixdat (s : string) :
  JS.trimStart (s ++ " fixdat")
  = match JS.trimStart s with
    | EmptyString => "fixdat"%string
    | trimmed => (trimmed ++ " fixdat")%string
    end.
Proof. by apply (trimStart_fixdat_upto (String.length s)). Qed.

(** [`${text} fixdat`.trimEnd()] *)
Lemma trimEnd_fixdat (s : string) :
  JS.trimEnd (s ++ " fixdat") = (s ++ " fixdat")%string.
Proof.
  induction s as [|c s IH]; [done|].
  pose proof (trimStart_fixdat (String c s)) as Hstart.
  change (String c s ++ " fixdat")%string with (String c (s ++ " fixdat")) in *.
  cbn [JS.trimEnd]. rewrite IH.
  destruct (JS.trimStart (String c (s ++ " fixdat"))) eqn:Htrimmed; [|done].
  by destruct (JS.trimStart (String c s)).
Qed.

(** [`${name} fixdat`.trim()] *)
Lemma trim_fixdat (name : string) :
  JS.trim (name ++ " fixdat")
  = match JS.trimStart name with
    | EmptyString => "fixdat"%string
    | trimmed => (trimmed ++ " fixdat")%string
    end.
Proof.
  unfold JS.trim. rewrite trimStart_fixdat.
  destruct (JS.trimStart name) as [|c trimmed]; [done|].
  apply trimEnd_fixdat.
Qed.

Section fixdat.
Context `{RomHasher}.

(** X15. The more ROMs have a candidate, the smaller the fixdat: when
    every hash code that the candidates held before is still held, the games
    of the new fixdat are among the games of the old one, which are games of
    the DAT, all in the order of the DAT; and when no fixdat was due before,
    none is due now. *)
Theorem create_shrinks_with_candidates (opts : FixdatOptions.t) (originalDat : DAT.t)
    (before after : list (Parent.t * list ReleaseCandidate.t)) :
  FixdatCreator.writtenRomHashCodes before ⊆ FixdatCreator.writtenRomHashCodes after →
  sublist (FixdatCreator.gamesWithMissingRoms originalDat after)
          (FixdatCreator.gamesWithMissingRoms originalDat before)
  ∧ sublist (FixdatCreator.gamesWithMissingRoms originalDat before)
            (DAT.getGames originalDat)
  ∧ (FixdatCreator.create opts originalDat before = None →
     FixdatCreator.create opts originalDat after = None).
Proof.
  intros Hsubset.
  assert (sublist (FixdatCreator.gamesWithMissingRoms originalDat after)
                  (FixdatCreator.gamesWithMissingRoms originalDat before)) as Hsub.
  { apply filter_sublist. intros game.
    rewrite !FixdatCreatorSpec.missing_test. intros (rom & Hin & Hmissing).
    exists rom. split; [done|]. intros Hwritten. apply Hmissing.
    by apply Hsubset. }
  split; [done|]. split; [apply filter_sublist_self|].
  unfold FixdatCreator.create. destruct (FixdatOptions.shouldFixdat opts); [|done].
  simpl. destruct (FixdatCreator.gamesWithMissingRoms originalDat before); [|done].
  intros _. by apply sublist_nil_r in Hsub as ->.
Qed.

(** X16. The fixdat is named after the DAT it is made from: the name is
    the name of the DAT without its leading white space, followed by a space
    and [fixdat], and just [fixdat] when the DAT has no name or a blank one;
    white space at the end of the name stays where it is.  The same goes for
    the description, and version and date are both the time of the run. *)
Theorem fixdatHeader_names (opts : FixdatOptions.t) (originalDat : DAT.t) :
  let suffixed (text : string) :=
    match JS.trimStart text with
    | EmptyString => "fixdat"%string
    | trimmed => (trimmed ++ " fixdat")%string
    end in
  let fixdatHeader := FixdatCreator.fixdatHeader opts originalDat in
  Header.getName fixdatHeader = suffixed (Header.getName (DAT.getHeader originalDat))
  ∧ Header.getDescription fixdatHeader
    = suffixed (Header.getDescription (DAT.getHeader originalDat))
  ∧ Header.getVersion fixdatHeader = FixdatOptions.now opts
  ∧ Header.getDate fixdatHeader = FixdatOptions.now opts
  ∧ ∀ fixdat parentsToCandidates,
      FixdatCreator.create opts originalDat parentsToCandidates = Some fixdat →
      DAT.getHeader fixdat = fixdatHeader.
Proof.
  intros suffixed fixdatHeader. subst suffixed fixdatHeader. simpl.
  rewrite !trim_fixdat. repeat split.
  intros fixdat parentsToCandidates Hcreate.
  apply FixdatCreatorSpec.create_Some_iff in Hcreate as (_ & _ & ->). done.
Qed.
End fixdat.

Lemma create_shrinks_with_candidates_witness :
  sublist
    (@FixdatCreator.gamesWithMissingRoms Examples.hasher Examples.splitDat
       Examples.candidatesOfP)
    (@FixdatCreator.gamesWithMissingRoms Examples.hasher Examples.splitDat [])
  ∧ sublist
      (@FixdatCreator.gamesWithMissingRoms Examples.hasher Examples.splitDat [])
      (DAT.getGames Examples.splitDat)
  ∧ (@FixdatCreator.create Examples.hasher Examples.fixdatOptions Examples.splitDat []
     = None →
     @FixdatCreator.create Examples.hasher Examples.fixdatOptions Examples.splitDat
       Examples.candidatesOfP = None).
Proof.
  apply (@create_shrinks_with_candidates Examples.hasher Examples.fixdatOptions
           Examples.splitDat [] Examples.candidatesOfP).
  intros h Hh. by apply elem_of_empty in Hh.
Defined.
End FixdatFacts.

(** ** File indexer: what the order of a list tells *)

Module IndexOrderSpec.
Section stability.
Context {A : Type} (compareFn : A → A → Z).

Lemma sorted_later `{!Consistent compareFn} front x back y :
  Sorted (JSArray.before compareFn) (front ++ x :: back) →
  In y back → compareFn x y <= 0.
Proof.
  intros Hsorted Hy.
  apply Sorted_StronglySorted in Hsorted; [|by apply JSArrayFacts.before_trans].
  induction front as [|z front IH]; simpl in Hsorted.
  - apply StronglySorted_inv in Hsorted as [_ Hall].
    rewrite List.Forall_forall in Hall. by apply Hall.
  - apply StronglySorted_inv in Hsorted as [Hsorted _]. by apply IH.
Qed.
End stability.

Section index.
Context `{Collator}.
Variable env : IndexerEnv.t.

(** What a comparison that lets [fileOne] stand first says about the first
    three criteria. *)
Lemma compareFiles_criteria key fileOne fileTwo :
  FileIndexer.compareFiles env key fileOne fileTwo <= 0 →
  FileIndexer.headered key fileOne <= FileIndexer.headered key fileTwo
  ∧ (FileIndexer.headered key fileOne = FileIndexer.headered key fileTwo →
     FileIndexer.archiveEntryPriority fileOne
     <= FileIndexer.archiveEntryPriority fileTwo
     ∧ (FileIndexer.archiveEntryPriority fileOne
        = FileIndexer.archiveEntryPriority fileTwo →
        FileIndexer.inOutput env fileOne <= FileIndexer.inOutput env fileTwo)).
Proof.
  unfold FileIndexer.compareFiles.
  destruct (Z.eqb_spec (FileIndexer.headered key fileOne)
              (FileIndexer.headered key fileTwo)) as [Hh|Hh]; simpl; [|lia].
  destruct (Z.eqb_spec (FileIndexer.archiveEntryPriority fileOne)
              (FileIndexer.archiveEntryPriority fileTwo)) as [Ha|Ha]; simpl; [|lia].
  destruct (Z.eqb_spec (FileIndexer.inOutput env fileOne)
              (FileIndexer.inOutput env fileTwo)) as [Ho|Ho]; simpl; lia.
Qed.

Section consistent.
Context `{!Consistent localeCompare}.

(** X17. In every list of the index an earlier file beats every later one:
    it is no header-stripped match when the later one is a match of the
    whole file; among equals in that, it is no archive entry of a later kind
    (plain file, Zip, Tar, Rar, 7z, other); among equals in that, it is not
    in the output directory when the later one is outside. *)
Theorem index_earlier_is_preferred (files : list File.t) (key : string)
    (front : list File.t) (earlier : File.t) (back : list File.t) (later : File.t) :
  FileIndexer.index env files !! key = Some (front ++ earlier :: back) →
  In later back →
  FileIndexer.compareFiles env key earlier later <= 0
  ∧ FileIndexer.headered key earlier <= FileIndexer.headered key later
  ∧ (FileIndexer.headered key earlier = FileIndexer.headered key later →
     FileIndexer.archiveEntryPriority earlier
     <= FileIndexer.archiveEntryPriority later
     ∧ (FileIndexer.archiveEntryPriority earlier
        = FileIndexer.archiveEntryPriority later →
        FileIndexer.inOutput env earlier <= FileIndexer.inOutput env later)).
Proof.
  rewrite FileIndexerSpec.index_lookup.
  destruct (FileIndexer.filesUnder key files) as [|file under] eqn:Hunder; [done|].
  intros Hsorted Hlater. apply (inj Some) in Hsorted.
  assert (FileIndexer.compareFiles env key earlier later <= 0) as Hle.
  { apply (sorted_later (FileIndexer.compareFiles env key) front earlier back later
             (Consistent0 := FileIndexerSpec.compareFiles_consistent env key));
      [|done].
    rewrite <- Hsorted. apply JSArrayFacts.sort_sorted.
    by apply FileIndexerSpec.compareFiles_consistent. }
  split; [done|]. by apply compareFiles_criteria.
Qed.
End consistent.

(** X18. Files of which none has to follow another, such as the entries
    of one archive that have the same content, stay in the order in which
    [index] was given them. *)
Theorem index_keeps_order_of_ties (files : list File.t) (key : string)
    (filesForHash : list File.t) (tied : File.t → bool) :
  (∀ fileOne fileTwo, tied fileOne = true → tied fileTwo = true →
     FileIndexer.compareFiles env key fileOne fileTwo <= 0) →
  FileIndexer.index env files !! key = Some filesForHash →
  List.filter tied filesForHash
  = List.filter tied (FileIndexer.filesUnder key files).
Proof.
  intros Hties. rewrite FileIndexerSpec.index_lookup.
  destruct (FileIndexer.filesUnder key files) as [|file under] eqn:Hunder; [done|].
  intros Hsorted. apply (inj Some) in Hsorted. subst filesForHash.
  by apply JSArrayFacts.sort_stable.
Qed.
End index.

Lemma index_earlier_is_preferred_witness :
  let compareFiles :=
    @FileIndexer.compareFiles Examples.collator Examples.indexerEnv "H" in
  let headered := FileIndexer.headered "H" in
  compareFiles Examples.rawFile Examples.headeredFile <= 0
  ∧ headered Examples.rawFile <= headered Examples.headeredFile
  ∧ (headered Examples.rawFile = headered Examples.headeredFile →
     FileIndexer.archiveEntryPriority Examples.rawFile
     <= FileIndexer.archiveEntryPriority Examples.headeredFile
     ∧ (FileIndexer.archiveEntryPriority Examples.rawFile
        = FileIndexer.archiveEntryPriority Examples.headeredFile →
        FileIndexer.inOutput Examples.indexerEnv Examples.rawFile
        <= FileIndexer.inOutput Examples.indexerEnv Examples.headeredFile)).
Proof.
  apply (@index_earlier_is_preferred Examples.collator Examples.indexerEnv
           JSArrayFacts.codeUnitCompare_consistent
           [Examples.headeredFile; Examples.zipEntry; Examples.rawFile] "H"
           [] Examples.rawFile [Examples.zipEntry; Examples.headeredFile]
           Examples.headeredFile).
  - rewrite FileIndexerSpec.index_lookup. reflexivity.
  - simpl. tauto.
Defined.

Lemma index_keeps_order_of_ties_witness :
  List.filter MoreExamples.inZip
    [Examples.rawFile; Examples.zipEntry; MoreExamples.zipCopy]
  = List.filter MoreExamples.inZip
      (FileIndexer.filesUnder "H"
         [Examples.zipEntry; Examples.rawFile; MoreExamples.zipCopy]).
Proof.
  apply (@index_keeps_order_of_ties Examples.collator Examples.indexerEnv
           [Examples.zipEntry; Examples.rawFile; MoreExamples.zipCopy] "H"
           [Examples.rawFile; Examples.zipEntry; MoreExamples.zipCopy]
           MoreExamples.inZip).
  - intros [path1 entry1 archive1 size1 header1 with1 without1]
           [path2 entry2 archive2 size2 header2 with2 without2].
    unfold MoreExamples.inZip. simpl.
    destruct (String.eqb_spec path1 "/input/b.zip") as [->|]; [|done].
    destruct (String.eqb_spec path2 "/input/b.zip") as [->|];
      [|by rewrite andb_false_l].
    destruct archive1 as [[]|], archive2 as [[]|], header1, header2; done.
  - rewrite FileIndexerSpec.index_lookup. reflexivity.
Defined.
End IndexOrderSpec.
